(** * Constant literals of the LLVM IR toolkit: [consts/basic.go]

    A shallow embedding of package [consts] (integer and floating point
    constants built from their textual form and rendered back), together with
    the parts of Go's [strconv] and [strings] packages it calls, and the
    properties of its specification.

    Go strings are byte sequences: they are [string]s here, one [ascii] per
    byte.  Integers of the machine are [Z] with their wrap-around written
    out.  A Go function that may return an error or panic returns an
    [outcome]. *)

From Stdlib Require Import ZArith Bool Ascii String Lia.

Local Open Scope string_scope.
Local Open Scope Z_scope.

(* ================================================================== *)
(** * Bytes and strings *)

(** The numeric value of a byte. *)
Definition byte (c : ascii) : Z := Z.of_N (N_of_ascii c).

(** The byte of a numeric value (taken modulo 256, as a Go [byte(...)]
    conversion does). *)
Definition chr (z : Z) : ascii := ascii_of_N (Z.to_N (z mod 256)).

(** [len(s)] *)
Definition len (s : string) : Z := Z.of_nat (String.length s).

(** [lower(c)] of [strconv]: [c | ('x' - 'X')]. *)
Definition lower (c : ascii) : Z := Z.lor (byte c) 32.

Definition isdigit (c : ascii) : bool := (48 <=? byte c) && (byte c <=? 57).

(** [s[n:]] for [0 <= n <= len(s)] *)
Fixpoint skip (n : nat) (s : string) : string :=
  match n, s with
  | O, _ => s
  | S n', String _ r => skip n' r
  | S _, EmptyString => EmptyString
  end.

(** [s[:n]] for [0 <= n <= len(s)] *)
Fixpoint take (n : nat) (s : string) : string :=
  match n, s with
  | O, _ => EmptyString
  | S n', String c r => String c (take n' r)
  | S _, EmptyString => EmptyString
  end.

(** [strings.HasPrefix(s, p)] *)
Fixpoint HasPrefix (s p : string) {struct p} : bool :=
  match p, s with
  | EmptyString, _ => true
  | String a p', String b s' => Ascii.eqb a b && HasPrefix s' p'
  | String _ _, EmptyString => false
  end.

(** [strings.Contains(s, sub)] *)
Fixpoint Contains (s sub : string) : bool :=
  HasPrefix s sub ||
  match s with
  | EmptyString => false
  | String _ r => Contains r sub
  end.

(** [strings.ContainsRune(s, r)] for a rune [r] below 0x80, which is one
    byte of the string. *)
Fixpoint ContainsRune (s : string) (r : ascii) : bool :=
  match s with
  | EmptyString => false
  | String c s' => Ascii.eqb c r || ContainsRune s' r
  end.

(** [strings.IndexByte(s, c)]: the index of the first [c], or [-1]. *)
Fixpoint IndexByte (s : string) (c : ascii) : Z :=
  match s with
  | EmptyString => -1
  | String b s' =>
      if Ascii.eqb b c then 0
      else let i := IndexByte s' c in if i =? -1 then -1 else i + 1
  end.

(** [strings.Replace(s, old, new, -1)] for a non-empty [old]: every
    non-overlapping occurrence of [old], found from the left, is replaced by
    [new].  [fuel] bounds the number of steps; [length s] suffices, since
    each step consumes at least one byte. *)
Fixpoint Replace_from (fuel : nat) (s old new : string) : string :=
  match fuel with
  | O => s
  | S fuel' =>
      match s with
      | EmptyString => EmptyString
      | String c r =>
          if HasPrefix s old
          then new ++ Replace_from fuel' (skip (String.length old) s) old new
          else String c (Replace_from fuel' r old new)
      end
  end.

Definition Replace (s old new : string) : string :=
  Replace_from (String.length s) s old new.

(* ================================================================== *)
(** * Outcomes of a Go call *)

(** A call returns a value, returns an error ([(nil, err)]), or panics,
    which unwinds the goroutine and, unrecovered, aborts the process. *)
Inductive outcome (E P A : Type) : Type :=
| Return (a : A)
| Fail (e : E)
| Panic (p : P).
Arguments Return {E P A} a.
Arguments Fail {E P A} e.
Arguments Panic {E P A} p.

Definition returns {E P A} (o : outcome E P A) : bool :=
  match o with Return _ => true | _ => false end.

Definition panics {E P A} (o : outcome E P A) : bool :=
  match o with Panic _ => true | _ => false end.

Definition bind {E P A B} (o : outcome E P A) (k : A -> outcome E P B)
  : outcome E P B :=
  match o with
  | Return a => k a
  | Fail e => Fail e
  | Panic p => Panic p
  end.

(* ================================================================== *)
(** * Floating point values *)

(** IEEE 754 binary floating point values are modelled exactly: a finite
    non-zero value is [(-1)^neg * m * 2^e] with [m] odd, which makes the
    representation of a value unique.  A [float64] that holds the result of
    a 32-bit conversion is the same value, as in Go's [float64(float32)]. *)
Module float.

Inductive float64 : Type :=
| NaN
| Inf (neg : bool)
| Zero (neg : bool)
| Finite (neg : bool) (m : positive) (e : Z).

Definition eqb (x y : float64) : bool :=
  match x, y with
  | NaN, NaN => true
  | Inf a, Inf b => Bool.eqb a b
  | Zero a, Zero b => Bool.eqb a b
  | Finite a m e, Finite b m' e' => Bool.eqb a b && Pos.eqb m m' && (e =? e')
  | _, _ => false
  end.

(** [floatInfo]: the layout of a format. *)
Record floatInfo : Type := mkFloatInfo {
  mantbits : Z;
  expbits : Z;
  bias : Z
}.

Definition float32info : floatInfo := mkFloatInfo 23 8 (-127).
Definition float64info : floatInfo := mkFloatInfo 52 11 (-1023).

(** A positive rational [num / den] times [2^k], and times [10^k]. *)
Definition mul2 (q : Z * Z) (k : Z) : Z * Z :=
  let '(num, den) := q in
  if k >=? 0 then (num * 2 ^ k, den) else (num, den * 2 ^ (- k)).

Definition mul10 (q : Z * Z) (k : Z) : Z * Z :=
  let '(num, den) := q in
  if k >=? 0 then (num * 10 ^ k, den) else (num, den * 10 ^ (- k)).

(** [floor (log2 (num / den))] for positive [num] and [den]. *)
Definition floor_log2 (q : Z * Z) : Z :=
  let '(num, den) := q in
  let a := Z.log2 num - Z.log2 den in
  let '(n, d) := mul2 q (- a) in
  if n <? d then a - 1 else a.

(** The integer nearest to [num / den], ties to the even one. *)
Definition round_half_even (q : Z * Z) : Z :=
  let '(num, den) := q in
  let f := num / den in
  match (2 * (num mod den)) ?= den with
  | Lt => f
  | Gt => f + 1
  | Eq => if Z.even f then f else f + 1
  end.

(** [m * 2^e] with the factors of two moved out of [m]. *)
Fixpoint odd_part (m : positive) (e : Z) : positive * Z :=
  match m with
  | xO m' => odd_part m' (e + 1)
  | _ => (m, e)
  end.

(** The value of the format nearest to the positive rational [q]
    (IEEE 754 round to nearest, ties to even), with a flag that tells an
    overflow: the result is then infinite.  Below the smallest normal
    number the spacing is that of the subnormals, and a value that rounds
    to nothing is a zero. *)
Definition round (flt : floatInfo) (neg : bool) (q : Z * Z) : float64 * bool :=
  let e := Z.max (floor_log2 q - mantbits flt) (bias flt + 1 - mantbits flt) in
  match round_half_even (mul2 q (- e)) with
  | Zpos m =>
      if Z.log2 (Zpos m) + e >=? 2 ^ expbits flt - 1 + bias flt
      then (Inf neg, true)
      else let '(m', e') := odd_part m e in (Finite neg m' e', false)
  | _ => (Zero neg, false)
  end.

(** [float32(x)]: the nearest 32-bit value. *)
Definition to32 (x : float64) : float64 :=
  match x with
  | Finite neg m e => fst (round float32info neg (mul2 (Zpos m, 1) e))
  | _ => x
  end.

(** The finite values of the formats are at least [2^-1074] and below
    [2^1024]. *)
Definition bounded (x : float64) : bool :=
  match x with
  | Finite _ m e => (-1074 <=? e) && (Z.log2 (Zpos m) + e <=? 1023)
  | _ => true
  end.

(** A positive rational is below [2^k]. *)
Definition below (q : Z * Z) (k : Z) : Prop :=
  let '(n, d) := q in
  if k >=? 0 then n < d * 2 ^ k else n * 2 ^ (- k) < d.

(** The finite values of a format: [m * 2^e] with [m] odd of at most
    [mantbits + 1] bits, [e] at least the exponent of the subnormals, and a
    magnitude below the overflow of the format. *)
Definition in_format (flt : floatInfo) (x : float64) : Prop :=
  match x with
  | Finite _ m e =>
      Z.odd (Zpos m) = true
      /\ bias flt + 1 - mantbits flt <= e
      /\ Zpos m < 2 ^ (mantbits flt + 1)
      /\ Z.log2 (Zpos m) + e < 2 ^ expbits flt - 1 + bias flt
  | _ => True
  end.

End float.
Export float.

(* ================================================================== *)
(** * Package [strconv] *)

(** The functions of Go's standard library that package [consts] calls:
    [ParseInt] and [FormatInt], [ParseFloat] and [FormatFloat].  The
    integer functions, the scanner of floating point numbers and the
    layout of their text follow the library's code ([atoi.go], [itoa.go],
    [atof.go], [ftoa.go]); the conversions between decimal and binary
    floating point are given by what the library computes: the nearest
    value of the format, and the shortest decimal that reads back as the
    value. *)
Module strconv.

(** ** Integers *)

(** [NumError.Err]: the reason a conversion failed. *)
Inductive Err : Type :=
| ErrSyntax                  (* "invalid syntax" *)
| ErrRange                   (* "value out of range" *)
| ErrBase (base : Z)         (* "invalid base N" *)
| ErrBitSize (bitSize : Z).  (* "invalid bit size N" *)

(** [*NumError]: the failing function, its input and the reason. *)
Record NumError : Type := mkNumError {
  Func : string;
  Num : string;
  Why : Err
}.

Definition maxUint64 : Z := 2 ^ 64 - 1.
Definition IntSize : Z := 64.

Definition uint64 (z : Z) : Z := z mod 2 ^ 64.

(** The signed reading of a 64-bit pattern: Go's [int64(u)]. *)
Definition int64 (z : Z) : Z :=
  let u := z mod 2 ^ 64 in if u <? 2 ^ 63 then u else u - 2 ^ 64.

(** [underscoreOK(s)]: underscores appear only after a base prefix or
    between digits.  [saw] is the source's state byte: the last token was a
    base prefix or a digit (['0']), an underscore (['_']), something else
    (['!']) or nothing yet (['^']). *)
Fixpoint underscoreOK_loop (s : string) (saw : ascii) (hex : bool) : bool :=
  match s with
  | EmptyString => negb (Ascii.eqb saw "_")
  | String c r =>
      if isdigit c
         || (hex && (97 <=? lower c) && (lower c <=? 102))
      then underscoreOK_loop r "0" hex
      else if Ascii.eqb c "_"
      then if Ascii.eqb saw "0" then underscoreOK_loop r "_" hex else false
      else if Ascii.eqb saw "_" then false
      else underscoreOK_loop r "!" hex
  end.

Definition underscoreOK (s : string) : bool :=
  (* Optional sign. *)
  let s :=
    match s with
    | String c r => if Ascii.eqb c "-" || Ascii.eqb c "+" then r else s
    | EmptyString => s
    end in
  (* Optional base prefix. *)
  match s with
  | String c0 (String c1 r) =>
      if Ascii.eqb c0 "0"
         && ((lower c1 =? 98) || (lower c1 =? 111) || (lower c1 =? 120))
      then underscoreOK_loop r "0" (lower c1 =? 120)
      else underscoreOK_loop s "^" false
  | _ => underscoreOK_loop s "^" false
  end.

(** The digit loop of [ParseUint]: [n] is the value read so far.  The
    result is the value with [None], or the value returned beside a
    [NumError] reason. *)
Fixpoint ParseUint_loop (s : string) (base : Z) (base0 : bool)
    (cutoff maxVal : Z) (n : Z) : Z * option Err :=
  match s with
  | EmptyString => (n, None)
  | String c r =>
      if Ascii.eqb c "_" && base0
      then ParseUint_loop r base base0 cutoff maxVal n
      else
        let d :=
          if isdigit c then Some (byte c - 48)
          else if (97 <=? lower c) && (lower c <=? 122)
               then Some (lower c - 97 + 10)
               else None in
        match d with
        | None => (0, Some ErrSyntax)
        | Some d =>
            if d >=? base then (0, Some ErrSyntax)
            else if n >=? cutoff then (maxVal, Some ErrRange)
            else
              let n := uint64 (n * base) in
              let n1 := uint64 (n + d) in
              if (n1 <? n) || (n1 >? maxVal) then (maxVal, Some ErrRange)
              else ParseUint_loop r base base0 cutoff maxVal n1
        end
  end.

(** [ParseUint(s, base, bitSize)], as a value and an optional reason of
    failure (the [NumError] wraps the reason with ["ParseUint"] and [s]). *)
Definition ParseUint (s0 : string) (base bitSize : Z) : Z * option Err :=
  if (s0 =? "")%string then (0, Some ErrSyntax)
  else
    let base0 := base =? 0 in
    let prefixed : option (Z * string) :=
      if (2 <=? base) && (base <=? 36) then Some (base, s0)
      else if base =? 0 then
        match s0 with
        | String c0 r0 =>
            if Ascii.eqb c0 "0" then
              match r0 with
              | String c1 r1 =>
                  if (3 <=? len s0) && (lower c1 =? 98) then Some (2, r1)
                  else if (3 <=? len s0) && (lower c1 =? 111) then Some (8, r1)
                  else if (3 <=? len s0) && (lower c1 =? 120) then Some (16, r1)
                  else Some (8, r0)
              | EmptyString => Some (8, r0)
              end
            else Some (10, s0)
        | EmptyString => Some (10, s0)
        end
      else None in
    match prefixed with
    | None => (0, Some (ErrBase base))
    | Some (base, s) =>
        if (bitSize <? 0) || (bitSize >? 64) then (0, Some (ErrBitSize bitSize))
        else
          let bitSize := if bitSize =? 0 then IntSize else bitSize in
          let cutoff := maxUint64 / base + 1 in
          let maxVal := uint64 (2 ^ bitSize) - 1 in
          let maxVal := uint64 maxVal in
          match ParseUint_loop s base base0 cutoff maxVal 0 with
          | (n, None) =>
              if base0 && ContainsRune s0 "_" && negb (underscoreOK s0)
              then (0, Some ErrSyntax)
              else (n, None)
          | r => r
          end
    end.

(** [ParseInt(s, base, bitSize)]: the value, and the [NumError] if any. *)
Definition ParseInt (s0 : string) (base bitSize : Z) : Z * option NumError :=
  let fnParseInt := "ParseInt" in
  match s0 with
  | EmptyString => (0, Some (mkNumError fnParseInt s0 ErrSyntax))
  | String c r =>
      (* Pick off leading sign. *)
      let '(neg, s) :=
        if Ascii.eqb c "+" then (false, r)
        else if Ascii.eqb c "-" then (true, r)
        else (false, s0) in
      (* Convert unsigned and check range. *)
      let '(un, err) := ParseUint s base bitSize in
      match err with
      | Some ErrSyntax => (0, Some (mkNumError fnParseInt s0 ErrSyntax))
      | Some (ErrBase b) => (0, Some (mkNumError fnParseInt s0 (ErrBase b)))
      | Some (ErrBitSize b) =>
          (0, Some (mkNumError fnParseInt s0 (ErrBitSize b)))
      | _ =>
          let bitSize := if bitSize =? 0 then IntSize else bitSize in
          let cutoff := uint64 (2 ^ (bitSize - 1)) in
          if negb neg && (un >=? cutoff)
          then (int64 (cutoff - 1), Some (mkNumError fnParseInt s0 ErrRange))
          else if neg && (un >? cutoff)
          then (int64 (- int64 cutoff), Some (mkNumError fnParseInt s0 ErrRange))
          else
            let n := int64 un in
            ((if neg then int64 (- n) else n), None)
      end
  end.

(** The digit alphabet of [FormatInt]. *)
Definition digits : string := "0123456789abcdefghijklmnopqrstuvwxyz".

Definition digit_char (d : Z) : ascii :=
  match String.get (Z.to_nat d) digits with
  | Some c => c
  | None => "0"%char
  end.

(** [formatBits]: the digits of [u] in [base], most significant first,
    prepended to [acc].  A 64-bit value has at most 64 digits. *)
Fixpoint formatBits (fuel : nat) (u base : Z) (acc : string) : string :=
  match fuel with
  | O => acc
  | S fuel' =>
      if u <? base then String (digit_char u) acc
      else formatBits fuel' (u / base) base (String (digit_char (u mod base)) acc)
  end.

(** [FormatInt(i, base)] for [2 <= base <= 36] (other bases panic in Go and
    are not used here).  The magnitude of a negative [i] is [uint64(-i)]. *)
Definition FormatInt (i base : Z) : string :=
  if i <? 0 then String "-" (formatBits 64 (uint64 (- i)) base "")
  else formatBits 64 (uint64 i) base "".

(* ------------------------------------------------------------------ *)
(** ** Floating point numbers *)

(** [commonPrefixLenIgnoreCase(s, prefix)], for a lower-case [prefix]. *)
Fixpoint commonPrefixLenIgnoreCase (s prefix : string) : Z :=
  match s, prefix with
  | String c s', String p prefix' =>
      let c := if (65 <=? byte c) && (byte c <=? 90) then byte c + 32 else byte c in
      if c =? byte p then 1 + commonPrefixLenIgnoreCase s' prefix' else 0
  | _, _ => 0
  end.

(** [special(s)]: a possibly signed infinity, or a NaN, at the start of
    [s], with the number of bytes it takes. *)
Definition special (s : string) : option (float64 * Z) :=
  let inf (sign : bool) (nsign : Z) (s : string) :=
    let n := commonPrefixLenIgnoreCase s "infinity" in
    (* Anything longer than "inf" is ok, but if we don't have "infinity"
       only consume "inf". *)
    let n := if (3 <? n) && (n <? 8) then 3 else n in
    if (n =? 3) || (n =? 8) then Some (Inf sign, nsign + n) else None in
  match s with
  | EmptyString => None
  | String c r =>
      if Ascii.eqb c "+" then inf false 1 r
      else if Ascii.eqb c "-" then inf true 1 r
      else if Ascii.eqb c "i" || Ascii.eqb c "I" then inf false 0 s
      else if Ascii.eqb c "n" || Ascii.eqb c "N" then
        if commonPrefixLenIgnoreCase s "nan" =? 3 then Some (NaN, 3) else None
      else None
  end.

(** The state of the mantissa loop of [readFloat].  The model keeps every
    digit of the mantissa: where the library stops accumulating after 19
    digits (16 in base 16) it sets [trunc], and its conversions then round
    as for the number with all its digits. *)
Record mant : Type := mkMant {
  underscores : bool;
  sawdot : bool;
  sawdigits : bool;
  nd : Z;
  dp : Z;
  mantissa : Z
}.

(** The mantissa loop: the state at the first byte that is not part of the
    mantissa, and the rest of the string from there. *)
Fixpoint readFloat_mant (s : string) (base : Z) (st : mant) : mant * string :=
  match s with
  | EmptyString => (st, s)
  | String c r =>
      if Ascii.eqb c "_" then
        readFloat_mant r base
          (mkMant true (sawdot st) (sawdigits st) (nd st) (dp st) (mantissa st))
      else if Ascii.eqb c "." then
        if sawdot st then (st, s)
        else readFloat_mant r base
               (mkMant (underscores st) true (sawdigits st) (nd st) (nd st)
                       (mantissa st))
      else if isdigit c then
        if Ascii.eqb c "0" && (nd st =? 0) then
          (* ignore leading zeros *)
          readFloat_mant r base
            (mkMant (underscores st) (sawdot st) true (nd st) (dp st - 1)
                    (mantissa st))
        else
          readFloat_mant r base
            (mkMant (underscores st) (sawdot st) true (nd st + 1) (dp st)
                    (mantissa st * base + (byte c - 48)))
      else if (base =? 16) && (97 <=? lower c) && (lower c <=? 102) then
        readFloat_mant r base
          (mkMant (underscores st) (sawdot st) true (nd st + 1) (dp st)
                  (mantissa st * 16 + (lower c - 97 + 10)))
      else (st, s)
  end.

(** The digits of the exponent: the value read (it stops growing once it
    has reached 10000), whether an underscore was seen, and the rest. *)
Fixpoint readFloat_exp (s : string) (e : Z) (us : bool) : Z * bool * string :=
  match s with
  | EmptyString => (e, us, s)
  | String c r =>
      if Ascii.eqb c "_" then readFloat_exp r e true
      else if isdigit c then
        readFloat_exp r (if e <? 10000 then e * 10 + byte c - 48 else e) us
      else (e, us, s)
  end.

(** What [readFloat] returns when [ok]: the mantissa, the exponent of the
    base (10, or 2 for a hexadecimal mantissa), the sign, whether the
    mantissa is hexadecimal, and the number of bytes read. *)
Record number : Type := mkNumber {
  num_mantissa : Z;
  num_exp : Z;
  num_neg : bool;
  num_hex : bool;
  num_len : Z
}.

(** [readFloat] after the sign and the base prefix: the mantissa in
    [base], from [s2] on, and the exponent after [expChar]. *)
Definition readFloat_number (s : string) (neg : bool) (base expChar : Z)
    (hex : bool) (s2 : string) : option number :=
  let '(st, s3) := readFloat_mant s2 base (mkMant false false false 0 0 0) in
  if negb (sawdigits st) then None
  else
    let dp := if sawdot st then dp st else nd st in
    let '(dp, ndMant) := if base =? 16 then (dp * 4, nd st * 4) else (dp, nd st) in
    (* optional exponent moves decimal point. *)
    let after : option (Z * bool * string) :=
      match s3 with
      | String c r =>
          if lower c =? expChar then
            match r with
            | EmptyString => None
            | String d r' =>
                let '(esign, r) :=
                  if Ascii.eqb d "+" then (1, r')
                  else if Ascii.eqb d "-" then (-1, r')
                  else (1, r) in
                match r with
                | EmptyString => None
                | String d _ =>
                    if negb (isdigit d) then None
                    else
                      let '(e, us, rest) := readFloat_exp r 0 (underscores st) in
                      Some (dp + e * esign, us, rest)
                end
            end
          else if base =? 16 then None (* Must have exponent. *)
          else Some (dp, underscores st, s3)
      | EmptyString =>
          if base =? 16 then None else Some (dp, underscores st, s3)
      end in
    match after with
    | None => None
    | Some (dp, us, rest) =>
        let i := len s - len rest in
        let exp := if mantissa st =? 0 then 0 else dp - ndMant in
        if us && negb (underscoreOK (take (Z.to_nat i) s)) then None
        else Some (mkNumber (mantissa st) exp neg hex i)
    end.

Definition readFloat (s : string) : option number :=
  match s with
  | EmptyString => None
  | String c0 r0 =>
      (* optional sign *)
      let '(neg, s1) :=
        if Ascii.eqb c0 "+" then (false, r0)
        else if Ascii.eqb c0 "-" then (true, r0)
        else (false, s) in
      (* digits *)
      match s1 with
      | String a (String b (String c r)) =>
          if Ascii.eqb a "0" && (lower b =? 120)
          then readFloat_number s neg 16 112 true (String c r)
          else readFloat_number s neg 10 101 false s1
      | _ => readFloat_number s neg 10 101 false s1
      end
  end.

(** The conversion of the number read: the nearest value of the format,
    for a decimal and for a hexadecimal mantissa alike; a zero mantissa
    gives a zero of the sign read. *)
Definition convert (flt : floatInfo) (n : number) : float64 * bool :=
  match num_mantissa n with
  | Zpos m =>
      round flt (num_neg n)
        (if num_hex n then mul2 (Zpos m, 1) (num_exp n)
         else mul10 (Zpos m, 1) (num_exp n))
  | _ => (Zero (num_neg n), false)
  end.

(** [parseFloatPrefix(s, bitSize)]: the value, the number of bytes read
    and the reason of a failure.  Any [bitSize] other than 32 means 64. *)
Definition parseFloatPrefix (s : string) (bitSize : Z)
  : float64 * Z * option Err :=
  match special s with
  | Some (f, n) => (f, n, None)
  | None =>
      match readFloat s with
      | None => (Zero false, 0, Some ErrSyntax)
      | Some n =>
          let flt := if bitSize =? 32 then float32info else float64info in
          let '(f, ovf) := convert flt n in
          (f, num_len n, if ovf then Some ErrRange else None)
      end
  end.

(** [ParseFloat(s, bitSize)]: the whole of [s] must be a number. *)
Definition ParseFloat (s : string) (bitSize : Z) : float64 * option NumError :=
  let '(f, n, err) := parseFloatPrefix s bitSize in
  let syntax := mkNumError "ParseFloat" s ErrSyntax in
  match err with
  | Some ErrSyntax => (Zero false, Some syntax)
  | Some e =>
      if negb (n =? len s) then (Zero false, Some syntax)
      else (f, Some (mkNumError "ParseFloat" s e))
  | None =>
      if negb (n =? len s) then (Zero false, Some syntax) else (f, None)
  end.

(** ** Formatting *)

(** [decimalSlice]: the digits [d] of a decimal number [0.d * 10^dp]
    ([nd] is the length of [d]). *)
Record decimalSlice : Type := mkDecimal {
  d : string;
  dp10 : Z
}.

Definition nd10 (digs : decimalSlice) : Z := len (d digs).

(** [floor (log10 (num / den))] for positive [num] and [den]: an estimate
    from the binary logarithm, then moved to its place. *)
Definition ge_pow10 (q : Z * Z) (k : Z) : bool :=
  let '(n, dn) := mul10 q (- k) in n >=? dn.

Fixpoint log10_up (fuel : nat) (q : Z * Z) (k : Z) : Z :=
  match fuel with
  | O => k
  | S fuel' => if ge_pow10 q (k + 1) then log10_up fuel' q (k + 1) else k
  end.

Fixpoint log10_down (fuel : nat) (q : Z * Z) (k : Z) : Z :=
  match fuel with
  | O => k
  | S fuel' => if ge_pow10 q k then k else log10_down fuel' q (k - 1)
  end.

Definition floor_log10 (q : Z * Z) : Z :=
  let est := floor_log2 q * 30103 / 100000 in
  log10_up 4 q (log10_down 4 q est).

(** Does the decimal [c * 10^k] read back, in the format, as the finite
    positive value [x]? *)
Definition reads_back (flt : floatInfo) (x : float64) (c k : Z) : bool :=
  let '(y, ovf) := round flt false (mul10 (c, 1) k) in
  negb ovf && float.eqb y x.

(** The shortest decimal that reads back as the positive value [q] = [x]
    in the format: for [n = 1, 2, ...] digits, the two [n]-digit decimals
    around [q] are tried, and of those that read back as [x] the nearer one
    is taken (the even one when they are as near).  The result is the
    integer [c] of the digits and the number [n] of digits asked for. *)
Fixpoint shortest_loop (fuel : nat) (flt : floatInfo) (x : float64)
    (q : Z * Z) (dp n : Z) : Z * Z :=
  let '(sn, sd) := mul10 q (n - dp) in
  let lo := sn / sd in
  let r := sn mod sd in
  let hi := lo + 1 in
  if r =? 0 then (lo, n)
  else
    let oklo := reads_back flt x lo (dp - n) in
    let okhi := reads_back flt x hi (dp - n) in
    let nearest :=
      match (2 * r) ?= sd with
      | Lt => lo
      | Gt => hi
      | Eq => if Z.even lo then lo else hi
      end in
    if oklo && okhi then (nearest, n)
    else if oklo then (lo, n)
    else if okhi then (hi, n)
    else
      match fuel with
      | O => (nearest, n)
      | S fuel' => shortest_loop fuel' flt x q dp (n + 1)
      end.

(** A digit string without its trailing zeros. *)
Fixpoint trim_zeros (s : string) : string :=
  match s with
  | EmptyString => EmptyString
  | String c r =>
      match trim_zeros r with
      | EmptyString => if Ascii.eqb c "0" then EmptyString else String c EmptyString
      | r' => String c r'
      end
  end.

(** The shortest digits of the finite positive value [m * 2^e] (what
    [ryuFtoaShortest] computes): 17 digits identify any 64-bit value and 9
    any 32-bit value. *)
Definition shortest (flt : floatInfo) (m : positive) (e : Z) : decimalSlice :=
  let q := mul2 (Zpos m, 1) e in
  let dp := floor_log10 q + 1 in
  let '(c, n) := shortest_loop 17 flt (Finite false m e) q dp 1 in
  let s := formatBits 64 c 10 "" in
  mkDecimal (trim_zeros s) (dp + (len s - n)).

(** [n] zeros. *)
Fixpoint zeros (n : nat) : string :=
  match n with
  | O => EmptyString
  | S n' => String "0" (zeros n')
  end.

(** [d[j]] when [0 <= j < nd], and ['0'] otherwise. *)
Definition digit_at (digs : decimalSlice) (j : Z) : ascii :=
  if (0 <=? j) && (j <? nd10 digs) then
    match String.get (Z.to_nat j) (d digs) with
    | Some c => c
    | None => "0"%char
    end
  else "0"%char.

(** The bytes [f i, f (i+1), ...], [n] of them. *)
Fixpoint tabulate (n : nat) (i : Z) (f : Z -> ascii) : string :=
  match n with
  | O => EmptyString
  | S n' => String (f i) (tabulate n' (i + 1) f)
  end.

(** [%e]: [-d.ddddde±dd] *)
Definition fmtE (neg : bool) (digs : decimalSlice) (prec : Z) (fmt : ascii)
  : string :=
  (* sign *)
  (if neg then "-" else "") ++
  (* first digit *)
  String (if nd10 digs =? 0 then "0"%char else digit_at digs 0) "" ++
  (* .moredigits *)
  (if prec >? 0 then
     let m := Z.min (nd10 digs) (prec + 1) in
     let i := if 1 <? m then m else 1 in
     "." ++ (if 1 <? m then take (Z.to_nat (m - 1)) (skip 1 (d digs)) else "")
         ++ zeros (Z.to_nat (prec + 1 - i))
   else "") ++
  (* e± *)
  String fmt "" ++
  (let exp := if nd10 digs =? 0 then 0 else dp10 digs - 1 in
   let '(ch, exp) := if exp <? 0 then ("-"%char, - exp) else ("+"%char, exp) in
   String ch
     (* dd or ddd *)
     (if exp <? 10 then String "0" (String (chr (exp + 48)) "")
      else if exp <? 100
      then String (chr (exp / 10 + 48)) (String (chr (exp mod 10 + 48)) "")
      else String (chr (exp / 100 + 48))
             (String (chr ((exp / 10) mod 256 mod 10 + 48))
                (String (chr (exp mod 10 + 48)) "")))).

(** [%f]: [-ddddddd.ddddd] *)
Definition fmtF (neg : bool) (digs : decimalSlice) (prec : Z) : string :=
  (* sign *)
  (if neg then "-" else "") ++
  (* integer, padded with zeros as needed. *)
  (if dp10 digs >? 0 then
     let m := Z.min (nd10 digs) (dp10 digs) in
     take (Z.to_nat m) (d digs) ++ zeros (Z.to_nat (dp10 digs - m))
   else "0") ++
  (* fraction *)
  (if prec >? 0 then
     "." ++ tabulate (Z.to_nat prec) 0 (fun i => digit_at digs (dp10 digs + i))
   else "").

(** [formatDigits] for the formats ['g'] and ['G']. *)
Definition formatDigits (shortest : bool) (neg : bool) (digs : decimalSlice)
    (prec : Z) (fmt : ascii) : string :=
  let eprec := prec in
  let eprec :=
    if (eprec >? nd10 digs) && (nd10 digs >=? dp10 digs) then nd10 digs
    else eprec in
  (* %e is used if the exponent from the conversion is less than -4 or
     greater than or equal to the precision.  If precision was the shortest
     possible, use precision 6 for this decision. *)
  let eprec := if shortest then 6 else eprec in
  let exp := dp10 digs - 1 in
  if (exp <? -4) || (exp >=? eprec) then
    let prec := if prec >? nd10 digs then nd10 digs else prec in
    fmtE neg digs (prec - 1) (chr (byte fmt + 101 - 103))
  else
    let prec := if prec >? dp10 digs then nd10 digs else prec in
    fmtF neg digs (Z.max (prec - dp10 digs) 0).

(** What [FormatFloat] panics with. *)
Inductive format_panic : Type :=
| IllegalBitSize.  (* "strconv: illegal AppendFloat/FormatFloat bitSize" *)

(** [genericFtoa] for the format ['g'] and the precision [-1]: the
    shortest decimal that reads back as [val] in the format [flt]. *)
Definition genericFtoa (val : float64) (flt : floatInfo) : string :=
  match val with
  | NaN => "NaN"
  | Inf true => "-Inf"
  | Inf false => "+Inf"
  | Zero neg => formatDigits true neg (mkDecimal "" 0) 0 "g"
  | Finite neg m e =>
      let digs := shortest flt m e in
      formatDigits true neg digs (nd10 digs) "g"
  end.

(** [FormatFloat(val, 'g', -1, bitSize)]: at 32 bits the value is first
    converted to a 32-bit value; a [bitSize] other than 32 and 64 panics.
    (The other formats and a fixed precision are not used by package
    [consts].) *)
Definition FormatFloat_g {E : Type} (val : float64) (bitSize : Z)
  : outcome E format_panic string :=
  if bitSize =? 32 then Return (genericFtoa (to32 val) float32info)
  else if bitSize =? 64 then Return (genericFtoa val float64info)
  else Panic IllegalBitSize.

End strconv.

(* ================================================================== *)
(** * Package [types] *)

Module types.

(** Modelled from the spec: package [types] (the type descriptors) is not
    among the sources.  An integer type has a bit-width, a floating point
    type is one of the kinds of the IR (the source names half, fp128,
    x86_fp80 and ppc_fp128 beside the two it supports), and a descriptor
    renders as the type text of the IR: [i1], [i32], [float], [double]. *)
Record Int : Type := mkInt { Int_Size : Z }.

Inductive Float : Type :=
| Float16 | Float32 | Float64 | Float128 | Float80_x86 | Float128_PPC.

Definition Float_Size (t : Float) : Z :=
  match t with
  | Float16 => 16
  | Float32 => 32
  | Float64 => 64
  | Float128 => 128
  | Float80_x86 => 80
  | Float128_PPC => 128
  end.

(** The interface [types.Type], as the sum of its implementations. *)
Inductive Ty : Type :=
| IntType (t : Int)
| FloatType (t : Float)
| PointerType (elem : Ty)
| VoidType.

Definition Int_String (t : Int) : string :=
  "i" ++ strconv.FormatInt (Int_Size t) 10.

Definition Float_String (t : Float) : string :=
  match t with
  | Float16 => "half"
  | Float32 => "float"
  | Float64 => "double"
  | Float128 => "fp128"
  | Float80_x86 => "x86_fp80"
  | Float128_PPC => "ppc_fp128"
  end.

Fixpoint String (t : Ty) : string :=
  match t with
  | IntType t => Int_String t
  | FloatType t => Float_String t
  | PointerType elem => String elem ++ "*"
  | VoidType => "void"
  end.

End types.

(* ================================================================== *)
(** * Package [consts] *)

Module consts.
Import strconv.

(** The errors of the package, one per [fmt.Errorf] of the source, with
    the values its message is formatted from. *)
Inductive error : Type :=
| InvalidIntType (typ : types.Ty)
    (* "invalid type %q for integer constant" *)
| InvalidBool (s : string)
    (* "invalid integer constant %q for boolean type" *)
| BoolTypeMismatch (s : string) (typ : types.Ty)
    (* "integer constant %q type mismatch; expected i1, got %v" *)
| UnparsableInt (s : string) (err : NumError)
    (* "unable to parse integer constant %q; %v" *)
| InvalidFloatType (typ : types.Ty)
    (* "invalid type %q for floating point constant" *)
| UnparsableFloat (s : string) (err : NumError)
    (* "unable to parse floating point constant %q; %v" *)
| FloatPrecisionLoss (s : string) (typ : types.Float).
    (* "invalid floating point constant %q for type %q; precision loss" *)

(** What the package panics with. *)
Inductive panic : Type :=
| IntNotImplemented (typ : types.Ty)
    (* "not yet implemented; support for %q integer constants (e.g. above
       64-bits)" *)
| FloatNotImplemented (typ : types.Float)
    (* "not yet implemented; support for %q floating point constants" *)
| FormatPanic (p : format_panic).

Definition result (A : Type) : Type := outcome error panic A.

(** A call into [strconv] that may panic. *)
Definition call {A} (o : outcome error format_panic A) : result A :=
  match o with
  | Return a => Return a
  | Fail e => Fail e
  | Panic p => Panic (FormatPanic p)
  end.

(** ** Integer constants *)

(** [Int] represents an integer constant. *)
Record Int : Type := mkInt {
  Int_typ : types.Int;
  Int_x : Z
}.

(** [NewInt] returns an integer constant based on the given integer type
    and string representation. *)
Definition NewInt (typ : types.Ty) (s : string) : result Int :=
  (* Verify integer type. *)
  match typ with
  | types.IntType t =>
      let size := types.Int_Size t in
      if size >? 64 then Panic (IntNotImplemented typ)
      else if size =? 1 then
        (* Parse boolean constant. *)
        if (s =? "1")%string || (s =? "true")%string then Return (mkInt t 1)
        else if (s =? "0")%string || (s =? "false")%string then Return (mkInt t 0)
        else Fail (InvalidBool s)
      else if (s =? "true")%string || (s =? "false")%string
      then Fail (BoolTypeMismatch s typ)
      else
        (* Parse integer constant. *)
        match ParseInt s 10 size with
        | (x, None) => Return (mkInt t x)
        | (_, Some err) => Fail (UnparsableInt s err)
        end
  | _ => Fail (InvalidIntType typ)
  end.

(** [Type] returns the type of the value. *)
Definition Int_Type (v : Int) : types.Ty := types.IntType (Int_typ v).

(** [String] returns a string representation of the integer, either as a
    signed integer or as a boolean depending on the type, preceded by the
    type of the constant. *)
Definition Int_String (v : Int) : string :=
  let s :=
    if types.Int_Size (Int_typ v) =? 1 then
      if Int_x v =? 1 then "true" else "false"
    else FormatInt (Int_x v) 10 in
  types.String (Int_Type v) ++ " " ++ s.

(** ** Floating point constants *)

(** [Float] represents a floating point constant. *)
Record Float : Type := mkFloat {
  Float_typ : types.Float;
  Float_x : float64
}.

(** [NewFloat] returns a floating point constant based on the given
    floating point type and string representation. *)
Definition NewFloat (typ : types.Ty) (s : string) : result Float :=
  (* Verify floating point type. *)
  match typ with
  | types.FloatType t =>
      let size := types.Float_Size t in
      if (size =? 32) || (size =? 64) then
        (* Parse floating point constant. *)
        match ParseFloat s size with
        | (_, Some err) => Fail (UnparsableFloat s err)
        | (x, None) =>
            (* Verify that there was no precision loss. *)
            if negb (size =? 64) then
              bind (call (FormatFloat_g x size)) (fun a =>
              bind (call (FormatFloat_g x 64)) (fun b =>
              if negb (a =? b)%string then Fail (FloatPrecisionLoss s t)
              else Return (mkFloat t x)))
            else Return (mkFloat t x)
        end
      else Panic (FloatNotImplemented t)
  | _ => Fail (InvalidFloatType typ)
  end.

(** [Type] returns the type of the value. *)
Definition Float_Type (v : Float) : types.Ty := types.FloatType (Float_typ v).

(** The two rewritings of [Float.String]: a decimal point is inserted if
    not present, and an explicit plus sign in the exponent is dropped. *)
Definition insert_point (s : string) : string :=
  if negb (ContainsRune s ".") then
    let pos := IndexByte s "e" in
    if negb (pos =? -1)
    then take (Z.to_nat pos) s ++ ".0" ++ skip (Z.to_nat pos) s
    else s ++ ".0"
  else s.

Definition drop_plus (s : string) : string := Replace s "e+" "e".

(** [String] returns a string representation of the floating point
    constant, preceded by the type of the constant.  It panics on a type of
    a size other than 32 and 64. *)
Definition Float_String (v : Float) : result string :=
  let size := types.Float_Size (Float_typ v) in
  if (size =? 32) || (size =? 64) then
    bind (call (FormatFloat_g (Float_x v) size)) (fun s =>
    let s := insert_point s in
    let s := drop_plus s in
    Return (types.String (Float_Type v) ++ " " ++ s))
  else Panic (FloatNotImplemented (Float_typ v)).

(** ** Pointer constants *)

(** [Pointer] represents a pointer constant: a type and, so far, no
    value. *)
Record Pointer : Type := mkPointer { Pointer_typ : types.Ty }.

Definition Pointer_Type (v : Pointer) : types.Ty := Pointer_typ v.

(** ** The error kinds of the specification *)

(** Modelled from the spec: the source reports errors as messages; the
    specification names kinds of errors.  Each error of the source is of
    the kind its message tells: a failing type assertion is a
    [TypeKindMismatch], a boolean keyword for a wider type a
    [TypeMismatch], text that is not a literal an [InvalidLiteral], a
    number that does not fit an [OutOfRange], a lossy narrowing a
    [PrecisionLoss].  No error of the source is of the kinds
    [UnsupportedWidth] and [UnsupportedLiteralForm]. *)
Inductive ErrorKind : Type :=
| TypeKindMismatch
| UnsupportedWidth
| UnsupportedLiteralForm
| InvalidLiteral
| TypeMismatch
| OutOfRange
| PrecisionLoss.

Definition kind (e : error) : ErrorKind :=
  match e with
  | InvalidIntType _ => TypeKindMismatch
  | InvalidFloatType _ => TypeKindMismatch
  | InvalidBool _ => InvalidLiteral
  | BoolTypeMismatch _ _ => TypeMismatch
  | UnparsableInt _ err | UnparsableFloat _ err =>
      match Why err with
      | ErrRange => OutOfRange
      | _ => InvalidLiteral
      end
  | FloatPrecisionLoss _ _ => PrecisionLoss
  end.

(** The kind of error a call failed with, if it returned an error. *)
Definition failure {A} (r : result A) : option ErrorKind :=
  match r with
  | Fail e => Some (kind e)
  | _ => None
  end.

End consts.

(* ================================================================== *)
(** * The literals of the specification *)

Module literal.

(** A literal without its sign, if it starts with one. *)
Definition unsigned_part (s : string) : string :=
  match s with
  | String c r => if Ascii.eqb c "+" || Ascii.eqb c "-" then r else s
  | EmptyString => s
  end.

Definition negative (s : string) : bool :=
  match s with
  | String c _ => Ascii.eqb c "-"
  | EmptyString => false
  end.

Fixpoint all_digits (s : string) : bool :=
  match s with
  | EmptyString => true
  | String c r => isdigit c && all_digits r
  end.

(** The longest prefix of decimal digits. *)
Fixpoint digit_prefix (s : string) : string :=
  match s with
  | EmptyString => EmptyString
  | String c r => if isdigit c then String c (digit_prefix r) else EmptyString
  end.

(** The number that decimal digits denote, after the digits of [acc]. *)
Fixpoint digits_value (acc : Z) (s : string) : Z :=
  match s with
  | EmptyString => acc
  | String c r => digits_value (acc * 10 + (byte c - 48)) r
  end.

(** A base-10 signed integer literal: an optional sign, then one digit or
    more. *)
Definition well_formed (s : string) : bool :=
  negb (unsigned_part s =? "")%string && all_digits (unsigned_part s).

(** The integer a well-formed literal denotes. *)
Definition value (s : string) : Z :=
  let v := digits_value 0 (unsigned_part s) in
  if negative s then - v else v.

(** The magnitude of the digits that start a literal, after its sign. *)
Definition leading_magnitude (s : string) : Z :=
  digits_value 0 (digit_prefix (unsigned_part s)).

(** The two's-complement range of [w] bits. *)
Definition in_range (w n : Z) : bool :=
  (- 2 ^ (w - 1) <=? n) && (n <=? 2 ^ (w - 1) - 1).

(** The canonical decimal form: no plus sign, no leading zero, no
    negative zero. *)
Definition canonical (s : string) : bool :=
  well_formed s &&
  match s with
  | String c r =>
      negb (Ascii.eqb c "+") &&
      match unsigned_part s with
      | String d r' => negb (Ascii.eqb d "0") || ((r' =? "")%string && negb (negative s))
      | EmptyString => false
      end
  | EmptyString => false
  end.

Definition is_hex (c : ascii) : bool :=
  isdigit c
  || ((65 <=? byte c) && (byte c <=? 70))
  || ((97 <=? byte c) && (byte c <=? 102)).

Fixpoint all_hex (s : string) : bool :=
  match s with
  | EmptyString => true
  | String c r => is_hex c && all_hex r
  end.

(** [[0-9A-Fa-f]+] *)
Definition hex_digits (s : string) : bool :=
  negb (s =? "")%string && all_hex s.

(** The hexadecimal integer literals: [[us]0x[0-9A-Fa-f]+] *)
Definition hex_int (s : string) : bool :=
  match s with
  | String c (String z (String x r)) =>
      (Ascii.eqb c "u" || Ascii.eqb c "s")
      && Ascii.eqb z "0" && Ascii.eqb x "x" && hex_digits r
  | _ => false
  end.

(** The hexadecimal floating point literals: [0x[KLMH]?[0-9A-Fa-f]+] *)
Definition hex_float (s : string) : bool :=
  match s with
  | String z (String x r) =>
      Ascii.eqb z "0" && Ascii.eqb x "x" &&
      (hex_digits r ||
       match r with
       | String k r' =>
           (Ascii.eqb k "K" || Ascii.eqb k "L" || Ascii.eqb k "M"
            || Ascii.eqb k "H") && hex_digits r'
       | EmptyString => false
       end)
  | _ => false
  end.

(** A byte in lower case, and a string in lower case. *)
Definition to_lower (c : ascii) : ascii :=
  if (65 <=? byte c) && (byte c <=? 90) then chr (byte c + 32) else c.

Fixpoint lower_case (s : string) : string :=
  match s with
  | EmptyString => EmptyString
  | String c r => String (to_lower c) (lower_case r)
  end.

(** The precision-loss check in the words of the specification: the
    literal read at 32 bits and rendered with the shortest decimal of 32
    bits, against the same literal read at 64 bits and rendered with the
    shortest decimal of 64 bits. *)
Definition spec_precision_check (s : string) : bool :=
  match strconv.ParseFloat s 32, strconv.ParseFloat s 64 with
  | (x32, None), (x64, None) =>
      (strconv.genericFtoa (to32 x32) float32info
       =? strconv.genericFtoa x64 float64info)%string
  | _, _ => false
  end.

(** Two fractions of positive numbers that denote the same rational. *)
Definition same_value (q1 q2 : Z * Z) : Prop :=
  fst q1 * snd q2 = fst q2 * snd q1.

(** The decimal literal [s] denotes the value [x] exactly: the number that
    [readFloat] scans, its mantissa times the power of ten, is [x] itself,
    so that reading [s] rounds nothing away. *)
Definition exact (s : string) (x : float64) : Prop :=
  match strconv.readFloat s, x with
  | Some n, Finite neg m e =>
      strconv.num_neg n = neg /\ strconv.num_hex n = false
      /\ 0 < strconv.num_mantissa n
      /\ same_value (mul10 (strconv.num_mantissa n, 1) (strconv.num_exp n))
                    (mul2 (Zpos m, 1) e)
  | Some n, Zero neg =>
      strconv.num_neg n = neg /\ strconv.num_mantissa n = 0
  | _, _ => False
  end.

(** The number of plus signs of a string. *)
Fixpoint count_plus (s : string) : nat :=
  match s with
  | EmptyString => O
  | String c r => ((if Ascii.eqb c "+" then 1 else 0) + count_plus r)%nat
  end.

End literal.

(** The types and constants of the examples. *)
Definition i1 : types.Ty := types.IntType (types.mkInt 1).
Definition i8 : types.Ty := types.IntType (types.mkInt 8).
Definition i32 : types.Ty := types.IntType (types.mkInt 32).
Definition i64 : types.Ty := types.IntType (types.mkInt 64).
Definition i128 : types.Ty := types.IntType (types.mkInt 128).
Definition float32 : types.Ty := types.FloatType types.Float32.
Definition double : types.Ty := types.FloatType types.Float64.

(** [Format(Construct(type, literal))] *)
Definition format_int (typ : types.Ty) (s : string) : consts.result string :=
  bind (consts.NewInt typ s) (fun v => Return (consts.Int_String v)).

Definition format_float (typ : types.Ty) (s : string) : consts.result string :=
  bind (consts.NewFloat typ s) consts.Float_String.

(* ================================================================== *)
(** * The parts of the text of a constant *)

(** The value text of [Int.String]: what it writes after the type and the
    space. *)
Definition Int_text (v : consts.Int) : string :=
  if types.Int_Size (consts.Int_typ v) =? 1 then
    if consts.Int_x v =? 1 then "true" else "false"
  else strconv.FormatInt (consts.Int_x v) 10.

(** The value text of [Float.String], for a type of 32 or 64 bits: the
    text of [FormatFloat] after the two rewritings. *)
Definition Float_text (x : float64) (flt : floatInfo) : string :=
  consts.drop_plus (consts.insert_point (strconv.genericFtoa x flt)).

(** The exponent in the text of a floating point constant, after the
    marker [e]: a minus sign if negative, and the decimal digits, with a
    zero before a single digit. *)
Definition exponent_text (X : Z) : string :=
  (if X <? 0 then "-" else "")
  ++ (if Z.abs X <? 10 then "0" else "") ++ strconv.FormatInt (Z.abs X) 10.

(** The format of the values of a floating point type of 32 or 64 bits. *)
Definition format_of (t : types.Float) : floatInfo :=
  match t with
  | types.Float32 => float32info
  | _ => float64info
  end.

(** The value of the opposite sign (NaN has none). *)
Definition negate (x : float64) : float64 :=
  match x with
  | NaN => NaN
  | Inf neg => Inf (negb neg)
  | Zero neg => Zero (negb neg)
  | Finite neg m e => Finite (negb neg) m e
  end.

(** A literal that starts with no sign. *)
Definition unsigned (s : string) : bool :=
  match s with
  | String c _ => negb (Ascii.eqb c "+" || Ascii.eqb c "-")
  | EmptyString => true
  end.

(** A number read by [readFloat], as it is read after a sign: the sign,
    and one more byte. *)
Definition signed (neg : bool) (n : strconv.number) : strconv.number :=
  strconv.mkNumber (strconv.num_mantissa n) (strconv.num_exp n) neg
    (strconv.num_hex n) (strconv.num_len n + 1).

(** The bytes of the literals that [strconv.ParseFloat] reads: digits,
    signs, the point, the underscore, and the letters of hexadecimal
    digits, of the exponents, of the base prefix and of the names of the
    infinities and of NaN, in either case. *)
Definition float_byte (c : ascii) : bool :=
  isdigit c
  || ContainsRune "+-._" c
  || ContainsRune "abcdefinptxyABCDEFINPTXY" c.

Fixpoint float_bytes (s : string) : bool :=
  match s with
  | EmptyString => true
  | String c r => float_byte c && float_bytes r
  end.

(* ================================================================== *)
(** * Properties *)

Import strconv consts literal.

(** The conjuncts of a goal, one by one. *)
Ltac conjuncts := repeat match goal with |- _ /\ _ => split end.

(** ** Known values of [strconv] *)

(** The model of [strconv] on inputs whose results in Go are well
    known. *)
Example ParseInt_known :
  ParseInt "-128" 10 8 = (-128, None)
  /\ ParseInt "128" 10 8 = (127, Some (mkNumError "ParseInt" "128" ErrRange))
  /\ ParseInt "+7" 10 64 = (7, None)
  /\ ParseInt "" 10 64 = (0, Some (mkNumError "ParseInt" "" ErrSyntax))
  /\ ParseInt "1_000" 10 64 = (0, Some (mkNumError "ParseInt" "1_000" ErrSyntax))
  /\ ParseInt "0x1_F" 0 64 = (31, None)
  /\ ParseInt "-9223372036854775808" 10 64 = (-9223372036854775808, None)
  /\ FormatInt (-9223372036854775808) 10 = "-9223372036854775808"
  /\ FormatInt 255 16 = "ff".
Proof. conjuncts; vm_compute; reflexivity. Qed.

Example ParseFloat_known :
  fst (ParseFloat "1" 64) = Finite false 1 0
  /\ fst (ParseFloat "0.1" 64) = Finite false 3602879701896397 (-55)
  /\ fst (ParseFloat "0.1" 32) = Finite false 13421773 (-27)
  /\ fst (ParseFloat "16777217" 32) = Finite false 1 24
  /\ fst (ParseFloat "9007199254740993" 64) = Finite false 1 53
  /\ fst (ParseFloat "5e-324" 64) = Finite false 1 (-1074)
  /\ fst (ParseFloat "2e-324" 64) = Zero false
  /\ fst (ParseFloat "-0" 64) = Zero true
  /\ fst (ParseFloat "0x1p-2" 64) = Finite false 1 (-2)
  /\ ParseFloat "1e309" 64
     = (Inf false, Some (mkNumError "ParseFloat" "1e309" ErrRange))
  /\ ParseFloat "1e39" 32
     = (Inf false, Some (mkNumError "ParseFloat" "1e39" ErrRange))
  /\ ParseFloat "1e" 64
     = (Zero false, Some (mkNumError "ParseFloat" "1e" ErrSyntax))
  /\ ParseFloat "infin" 64
     = (Zero false, Some (mkNumError "ParseFloat" "infin" ErrSyntax)).
Proof. conjuncts; vm_compute; reflexivity. Qed.

Example FormatFloat_known :
  genericFtoa (Finite false 3602879701896397 (-55)) float64info = "0.1"
  /\ genericFtoa (Finite false 13421773 (-27)) float32info = "0.1"
  /\ genericFtoa (Finite false 13421773 (-27)) float64info
     = "0.10000000149011612"
  /\ genericFtoa (fst (ParseFloat "1e23" 64)) float64info = "1e+23"
  /\ genericFtoa (fst (ParseFloat "100000" 64)) float64info = "100000"
  /\ genericFtoa (fst (ParseFloat "1000000" 64)) float64info = "1e+06"
  /\ genericFtoa (fst (ParseFloat "0.0001" 64)) float64info = "0.0001"
  /\ genericFtoa (fst (ParseFloat "0.00001" 64)) float64info = "1e-05"
  /\ genericFtoa (Finite false 1 (-1074)) float64info = "5e-324"
  /\ genericFtoa (fst (ParseFloat "1.7976931348623157e308" 64)) float64info
     = "1.7976931348623157e+308"
  /\ genericFtoa (fst (ParseFloat "3.4028235e38" 32)) float32info
     = "3.4028235e+38"
  /\ genericFtoa (Finite false 1 (-149)) float32info = "1e-45"
  /\ genericFtoa (Zero true) float64info = "-0"
  /\ genericFtoa (Inf false) float64info = "+Inf"
  /\ genericFtoa NaN float32info = "NaN".
Proof. conjuncts; vm_compute; reflexivity. Qed.

(** ** Unsupported widths (C1) *)

(** No error that [NewInt] returns is of the kinds [UnsupportedWidth] and
    [UnsupportedLiteralForm]. *)
Lemma kind_supported (e : error) :
  kind e <> UnsupportedWidth /\ kind e <> UnsupportedLiteralForm.
Proof.
  destruct e as [ | | | s [f n w] | | s [f n w] | ]; cbn;
    try destruct w; split; discriminate.
Qed.

Lemma failure_supported {A} (r : result A) :
  failure r <> Some UnsupportedWidth /\
  failure r <> Some UnsupportedLiteralForm.
Proof.
  destruct r as [a | e | p]; cbn; try (split; discriminate).
  destruct (kind_supported e) as [H1 H2].
  split; intros H; injection H; auto.
Qed.

(** C1, as stated, fails: building a constant of the 128-bit integer type
    panics instead of returning an [UnsupportedWidth] error, and so does
    building a constant of the 16-bit floating point type. *)
Lemma C1_unsupported_width_counterexample :
  ~ (failure (NewInt i128 "0") = Some UnsupportedWidth
     /\ panics (NewInt i128 "0") = false)
  /\ NewInt i128 "0" = Panic (IntNotImplemented i128)
  /\ NewFloat (types.FloatType types.Float16) "1.0"
     = Panic (FloatNotImplemented types.Float16).
Proof.
  split; [ | split; reflexivity ].
  intros [H _]. discriminate H.
Qed.

(** C1, amended: for an integer type wider than 64 bits [NewInt] panics
    with its not-yet-implemented message, and for a floating point type of
    a width other than 32 and 64 so does [NewFloat], whatever the literal;
    neither returns an error, and no error of the package is of the kind
    [UnsupportedWidth]. *)
Theorem C1_unsupported_width_panics :
  (forall (t : types.Int) (s : string),
      types.Int_Size t > 64 ->
      NewInt (types.IntType t) s = Panic (IntNotImplemented (types.IntType t)))
  /\ (forall (t : types.Float) (s : string),
      types.Float_Size t <> 32 -> types.Float_Size t <> 64 ->
      NewFloat (types.FloatType t) s = Panic (FloatNotImplemented t))
  /\ (forall (typ : types.Ty) (s : string),
      failure (NewInt typ s) <> Some UnsupportedWidth
      /\ failure (NewFloat typ s) <> Some UnsupportedWidth).
Proof.
  split; [ | split ].
  - intros t s H. unfold NewInt.
    destruct (Z.gtb_spec (types.Int_Size t) 64); [ reflexivity | lia ].
  - intros t s H32 H64. unfold NewFloat.
    destruct (Z.eqb_spec (types.Float_Size t) 32); [ contradiction | ].
    destruct (Z.eqb_spec (types.Float_Size t) 64); [ contradiction | ].
    reflexivity.
  - intros typ s. split; apply failure_supported.
Qed.

Lemma C1_unsupported_width_panics_witness :
  NewInt i128 "7" = Panic (IntNotImplemented i128)
  /\ NewFloat (types.FloatType types.Float128) "7.0"
     = Panic (FloatNotImplemented types.Float128).
Proof.
  destruct C1_unsupported_width_panics as [HI [HF _]].
  split.
  - apply (HI (types.mkInt 128) "7"). cbn. lia.
  - apply (HF types.Float128 "7.0"); cbn; lia.
Defined.

(** ** Booleans (C5) and boolean keywords (C8) *)

(** C5: for the integer type of width 1, [NewInt] returns the constant 1
    for ["1"] and ["true"], the constant 0 for ["0"] and ["false"], and
    fails with an error of the kind [InvalidLiteral] for any other string;
    so it succeeds on exactly these four literals.  The text of a constant
    of width 1 is the type followed by ["true"] or ["false"]. *)
Theorem C5_boolean_literals (t : types.Int) (H : types.Int_Size t = 1) :
  (forall s : string,
      NewInt (types.IntType t) s =
      if (s =? "1")%string || (s =? "true")%string then Return (mkInt t 1)
      else if (s =? "0")%string || (s =? "false")%string then Return (mkInt t 0)
      else Fail (InvalidBool s))
  /\ (forall s : string,
      returns (NewInt (types.IntType t) s) = true <->
      (s = "0" \/ s = "1" \/ s = "true" \/ s = "false"))
  /\ (forall s : string,
      returns (NewInt (types.IntType t) s) = false ->
      failure (NewInt (types.IntType t) s) = Some InvalidLiteral)
  /\ (forall x : Z,
      Int_String (mkInt t x) = "i1 true" \/ Int_String (mkInt t x) = "i1 false")
  /\ (forall (s : string) (v : Int),
      NewInt (types.IntType t) s = Return v ->
      Int_String v = if (s =? "1")%string || (s =? "true")%string
                     then "i1 true" else "i1 false").
Proof.
  assert (E : forall s : string,
      NewInt (types.IntType t) s =
      if (s =? "1")%string || (s =? "true")%string then Return (mkInt t 1)
      else if (s =? "0")%string || (s =? "false")%string then Return (mkInt t 0)
      else Fail (InvalidBool s)).
  { intros s. unfold NewInt. rewrite H. reflexivity. }
  assert (T : types.String (types.IntType t) = "i1").
  { cbn. unfold types.Int_String. rewrite H. reflexivity. }
  split; [ exact E | split; [ | split; [ | split ] ] ].
  - intros s. rewrite E.
    destruct (String.eqb_spec s "1"), (String.eqb_spec s "true"),
      (String.eqb_spec s "0"), (String.eqb_spec s "false"); cbn;
      intuition congruence.
  - intros s. rewrite E.
    destruct (s =? "1")%string, (s =? "true")%string,
      (s =? "0")%string, (s =? "false")%string; cbn;
      intros; congruence.
  - intros x. unfold Int_String, Int_Type. cbn [Int_typ Int_x]. rewrite T, H. cbn.
    destruct (x =? 1); auto.
  - intros s v. rewrite E. unfold Int_String, Int_Type.
    destruct ((s =? "1")%string || (s =? "true")%string).
    + intros [= <-]. cbn [Int_typ Int_x]. rewrite T, H. reflexivity.
    + destruct ((s =? "0")%string || (s =? "false")%string);
        [ | discriminate ].
      intros [= <-]. cbn [Int_typ Int_x]. rewrite T, H. reflexivity.
Qed.

Lemma C5_boolean_literals_witness :
  NewInt i1 "true" = Return (mkInt (types.mkInt 1) 1)
  /\ failure (NewInt i1 "2") = Some InvalidLiteral.
Proof.
  destruct (C5_boolean_literals (types.mkInt 1) eq_refl) as [E [_ [F _]]].
  split.
  - exact (E "true").
  - apply (F "2"). reflexivity.
Defined.

(** A boolean keyword for an integer type that is not the boolean type. *)
Lemma NewInt_keyword (t : types.Int) (s : string) :
  types.Int_Size t <> 1 -> types.Int_Size t <= 64 ->
  s = "true" \/ s = "false" ->
  NewInt (types.IntType t) s = Fail (BoolTypeMismatch s (types.IntType t)).
Proof.
  intros Hw H64 Hs. unfold NewInt.
  destruct (Z.gtb_spec (types.Int_Size t) 64); [ lia | ].
  destruct (Z.eqb_spec (types.Int_Size t) 1); [ contradiction | ].
  destruct Hs; subst s; reflexivity.
Qed.

(** C8, as stated, fails: the claim is for every width other than 1, but
    for the type [i128] the literal ["true"] does not fail with
    [TypeMismatch]: the check of the width (basic.go:36-41) comes before
    the check of the keywords (basic.go:54-56), and [NewInt] panics. *)
Lemma C8_keyword_width_counterexample :
  types.Int_Size (types.mkInt 128) <> 1
  /\ NewInt i128 "true" = Panic (IntNotImplemented i128)
  /\ failure (NewInt i128 "true") <> Some TypeMismatch.
Proof.
  split; [ discriminate | ].
  split; [ reflexivity | discriminate ].
Qed.

(** C8, amended: for an integer type of a width other than 1 and of at
    most 64 bits, the literals ["true"] and ["false"] are rejected, not
    read as 1 and 0: [NewInt] fails with the type-mismatch error, of the
    kind [TypeMismatch]; so [NewInt(i32, "true")] fails with
    [TypeMismatch].  Above 64 bits [NewInt] panics before it looks at the
    literal; for no width other than 1 does it return a constant. *)
Theorem C8_boolean_keyword_mismatch (t : types.Int) (s : string)
    (Hw : types.Int_Size t <> 1) (Hs : s = "true" \/ s = "false") :
  returns (NewInt (types.IntType t) s) = false
  /\ (types.Int_Size t <= 64 ->
      NewInt (types.IntType t) s = Fail (BoolTypeMismatch s (types.IntType t))
      /\ failure (NewInt (types.IntType t) s) = Some TypeMismatch)
  /\ (types.Int_Size t > 64 -> panics (NewInt (types.IntType t) s) = true)
  /\ failure (NewInt i32 "true") = Some TypeMismatch.
Proof.
  destruct (Z.le_gt_cases (types.Int_Size t) 64) as [H64 | H64].
  - rewrite (NewInt_keyword t s Hw H64 Hs).
    split; [ reflexivity | split; [ | split; [ lia | reflexivity ] ] ].
    intros _. split; reflexivity.
  - assert (E : NewInt (types.IntType t) s
                = Panic (IntNotImplemented (types.IntType t))).
    { unfold NewInt.
      destruct (Z.gtb_spec (types.Int_Size t) 64); [ reflexivity | lia ]. }
    rewrite E.
    split; [ reflexivity | split; [ lia | split; reflexivity ] ].
Qed.

Lemma C8_boolean_keyword_mismatch_witness :
  NewInt i32 "true" = Fail (BoolTypeMismatch "true" i32)
  /\ failure (NewInt i64 "false") = Some TypeMismatch.
Proof.
  split.
  - destruct (C8_boolean_keyword_mismatch (types.mkInt 32) "true")
      as [_ [H _]].
    + cbn. lia.
    + left. reflexivity.
    + apply H. cbn. lia.
  - destruct (C8_boolean_keyword_mismatch (types.mkInt 64) "false")
      as [_ [H _]].
    + cbn. lia.
    + right. reflexivity.
    + apply H. cbn. lia.
Defined.

(** ** The text of a floating point constant never panics (C10) *)

Lemma FormatFloat_g_returns (E : Type) (x : float64) (bitSize : Z) :
  bitSize = 32 \/ bitSize = 64 ->
  exists s : string, @FormatFloat_g E x bitSize = Return s.
Proof.
  intros [-> | ->]; unfold FormatFloat_g; cbn [Z.eqb Pos.eqb]; eauto.
Qed.

Lemma NewFloat_returns_size (typ : types.Ty) (s : string) (v : Float) :
  NewFloat typ s = Return v ->
  types.Float_Size (Float_typ v) = 32 \/ types.Float_Size (Float_typ v) = 64.
Proof.
  unfold NewFloat. destruct typ as [ | t | | ]; try discriminate.
  destruct (Z.eqb_spec (types.Float_Size t) 32) as [H32 | H32];
    [ | destruct (Z.eqb_spec (types.Float_Size t) 64) as [H64 | H64] ];
    cbn [orb]; try discriminate.
  - destruct (ParseFloat s (types.Float_Size t)) as [x [err | ]];
      [ discriminate | ].
    rewrite H32. cbn [Z.eqb Pos.eqb negb].
    destruct (FormatFloat_g_returns error x 32 (or_introl eq_refl)) as [a ->].
    destruct (FormatFloat_g_returns error x 64 (or_intror eq_refl)) as [b ->].
    cbn. destruct (a =? b)%string; cbn; [ | discriminate ].
    intros [= <-]. cbn. auto.
  - destruct (ParseFloat s (types.Float_Size t)) as [x [err | ]];
      [ discriminate | ].
    rewrite H64. cbn [Z.eqb Pos.eqb negb].
    intros [= <-]. cbn. auto.
Qed.

(** C10: the text of a floating point constant that [NewFloat] returned is
    computed without a panic: the type of the constant is of 32 or 64 bits,
    so [String] takes the supported case and returns a string. *)
Theorem C10_float_string_no_panic (typ : types.Ty) (s : string) (v : Float)
    (H : NewFloat typ s = Return v) :
  (types.Float_Size (Float_typ v) = 32 \/ types.Float_Size (Float_typ v) = 64)
  /\ panics (Float_String v) = false
  /\ exists r : string, Float_String v = Return r.
Proof.
  pose proof (NewFloat_returns_size typ s v H) as Hsz.
  split; [ exact Hsz | ].
  assert (R : exists r : string, Float_String v = Return r).
  { unfold Float_String.
    destruct (FormatFloat_g_returns error (Float_x v) _ Hsz) as [a Ha].
    replace ((types.Float_Size (Float_typ v) =? 32)
             || (types.Float_Size (Float_typ v) =? 64)) with true
      by (destruct Hsz as [-> | ->]; reflexivity).
    rewrite Ha. cbn. eauto. }
  split; [ | exact R ].
  destruct R as [r ->]. reflexivity.
Qed.

Lemma C10_float_string_no_panic_witness :
  panics (Float_String (mkFloat types.Float64 (Finite false 5 (-1)))) = false
  /\ panics (Float_String (mkFloat types.Float32 (Finite false 1 1))) = false.
Proof.
  split.
  - apply (C10_float_string_no_panic double "2.5"
             (mkFloat types.Float64 (Finite false 5 (-1)))).
    vm_compute. reflexivity.
  - apply (C10_float_string_no_panic float32 "2.0"
             (mkFloat types.Float32 (Finite false 1 1))).
    vm_compute. reflexivity.
Defined.

(** ** Decimal integers: [ParseInt] and [FormatInt] *)

Lemma isdigit_range (c : ascii) :
  isdigit c = true -> 0 <= byte c - 48 <= 9.
Proof.
  unfold isdigit. intros H. apply andb_prop in H. destruct H as [H1 H2].
  apply Z.leb_le in H1. apply Z.leb_le in H2. lia.
Qed.

Lemma all_digits_prefix (s : string) : all_digits (digit_prefix s) = true.
Proof.
  induction s as [ | c r IH]; cbn; [ reflexivity | ].
  destruct (isdigit c) eqn:E; cbn; [ rewrite E; exact IH | reflexivity ].
Qed.

Lemma digit_prefix_all (s : string) :
  all_digits s = true -> digit_prefix s = s.
Proof.
  induction s as [ | c r IH]; cbn; [ reflexivity | ].
  destruct (isdigit c); cbn; [ | discriminate ].
  intros H. rewrite IH; auto.
Qed.

Lemma digits_value_ge (s : string) :
  forall acc : Z, all_digits s = true -> 0 <= acc -> acc <= digits_value acc s.
Proof.
  induction s as [ | c r IH]; cbn; intros acc H Hacc; [ lia | ].
  apply andb_prop in H. destruct H as [Hc Hr].
  apply isdigit_range in Hc.
  specialize (IH (acc * 10 + (byte c - 48)) Hr). lia.
Qed.

Lemma digits_value_mono (s : string) :
  forall a b : Z, a <= b -> digits_value a s <= digits_value b s.
Proof.
  induction s as [ | c r IH]; cbn; intros a b H; [ lia | ].
  apply IH. lia.
Qed.

(** The digit loop of [ParseUint] in base 10: a range error as soon as the
    digits read exceed [maxVal], else a syntax error at the first byte that
    is not a digit, else the number that the digits denote. *)
Lemma ParseUint_loop_decimal (s : string) :
  forall n maxVal : Z,
    0 <= n <= maxVal -> maxVal < 2 ^ 64 ->
    ParseUint_loop s 10 false (maxUint64 / 10 + 1) maxVal n =
    if digits_value n (digit_prefix s) >? maxVal then (maxVal, Some ErrRange)
    else if all_digits s then (digits_value n s, None)
    else (0, Some ErrSyntax).
Proof.
  change (maxUint64 / 10 + 1) with 1844674407370955162.
  change (2 ^ 64) with 18446744073709551616.
  induction s as [ | c r IH]; intros n maxVal Hn Hmax.
  - cbn. destruct (Z.gtb_spec n maxVal); [ lia | reflexivity ].
  - cbn [ParseUint_loop digit_prefix all_digits].
    rewrite andb_false_r.
    destruct (isdigit c) eqn:Hd.
    + pose proof (isdigit_range c Hd) as Hc.
      cbn [digits_value andb].
      pose proof (digits_value_ge (digit_prefix r)
                    (n * 10 + (byte c - 48)) (all_digits_prefix r)) as Hge.
      destruct (Z.geb_spec (byte c - 48) 10); [ lia | ].
      destruct (Z.geb_spec n 1844674407370955162).
      * destruct (Z.gtb_spec (digits_value (n * 10 + (byte c - 48))
                                (digit_prefix r)) maxVal);
          [ reflexivity | lia ].
      * unfold uint64. change (2 ^ 64) with 18446744073709551616.
        rewrite (Z.mod_small (n * 10)) by lia.
        destruct (Z.lt_ge_cases (n * 10 + (byte c - 48)) 18446744073709551616)
          as [Hlt | Hge64].
        -- rewrite (Z.mod_small (n * 10 + (byte c - 48))) by lia.
           destruct (Z.ltb_spec (n * 10 + (byte c - 48)) (n * 10)); [ lia | ].
           cbn [orb].
           destruct (Z.gtb_spec (n * 10 + (byte c - 48)) maxVal).
           ++ destruct (Z.gtb_spec (digits_value (n * 10 + (byte c - 48))
                                      (digit_prefix r)) maxVal);
                [ reflexivity | lia ].
           ++ apply IH; lia.
        -- assert (Hm : (n * 10 + (byte c - 48)) mod 18446744073709551616
                        = n * 10 + (byte c - 48) - 18446744073709551616).
           { symmetry. apply Z.mod_unique with (q := 1); lia. }
           rewrite Hm.
           destruct (Z.ltb_spec (n * 10 + (byte c - 48) - 18446744073709551616)
                       (n * 10)); [ | lia ].
           cbn [orb].
           destruct (Z.gtb_spec (digits_value (n * 10 + (byte c - 48))
                                   (digit_prefix r)) maxVal);
             [ reflexivity | lia ].
    + cbn [digits_value andb].
      destruct (Z.gtb_spec n maxVal); [ lia | ].
      destruct ((97 <=? lower c) && (lower c <=? 122)) eqn:Hl;
        [ | reflexivity ].
      apply andb_prop in Hl. destruct Hl as [Hl _]. apply Z.leb_le in Hl.
      destruct (Z.geb_spec (lower c - 97 + 10) 10); [ reflexivity | lia ].
Qed.

Lemma maxVal_bits (w : Z) :
  1 <= w <= 64 -> uint64 (uint64 (2 ^ w) - 1) = 2 ^ w - 1.
Proof.
  intros Hw. unfold uint64.
  destruct (Z.eq_dec w 64) as [-> | Hne].
  - reflexivity.
  - assert (H : 2 ^ w < 2 ^ 64) by (apply Z.pow_lt_mono_r; lia).
    assert (H1 : 2 ^ 1 <= 2 ^ w) by (apply Z.pow_le_mono_r; lia).
    change (2 ^ 1) with 2 in H1.
    rewrite (Z.mod_small (2 ^ w)) by lia.
    apply Z.mod_small. lia.
Qed.

(** [ParseUint] in base 10, on [w] bits. *)
Lemma ParseUint_decimal (s : string) (w : Z) :
  1 <= w <= 64 ->
  ParseUint s 10 w =
  if digits_value 0 (digit_prefix s) >? 2 ^ w - 1 then (2 ^ w - 1, Some ErrRange)
  else if negb (s =? "")%string && all_digits s then (digits_value 0 s, None)
  else (0, Some ErrSyntax).
Proof.
  intros Hw. unfold ParseUint.
  assert (Hp : 0 < 2 ^ w) by (apply Z.pow_pos_nonneg; lia).
  destruct (String.eqb_spec s "") as [-> | Hs].
  - cbn. destruct (Z.gtb_spec 0 (2 ^ w - 1)); [ lia | reflexivity ].
  - cbn [Z.leb Z.compare Pos.compare Pos.compare_cont andb Z.eqb negb].
    destruct (Z.ltb_spec w 0); [ lia | ].
    destruct (Z.gtb_spec w 64); [ lia | ].
    cbn [orb].
    destruct (Z.eqb_spec w 0); [ lia | ].
    rewrite (maxVal_bits w Hw).
    assert (H64 : 2 ^ w <= 2 ^ 64) by (apply Z.pow_le_mono_r; lia).
    rewrite ParseUint_loop_decimal by lia.
    destruct (digits_value 0 (digit_prefix s) >? 2 ^ w - 1); [ reflexivity | ].
    destruct (all_digits s); reflexivity.
Qed.

Lemma int64_small (u : Z) : 0 <= u < 2 ^ 63 -> int64 u = u.
Proof.
  intros H. unfold int64.
  change (2 ^ 63) with 9223372036854775808 in *.
  change (2 ^ 64) with 18446744073709551616.
  rewrite Z.mod_small by lia. cbv zeta.
  destruct (Z.ltb_spec u 9223372036854775808); lia.
Qed.

Lemma int64_opp (u : Z) : 0 <= u <= 2 ^ 63 -> int64 (- int64 u) = - u.
Proof.
  intros H. unfold int64.
  change (2 ^ 63) with 9223372036854775808 in *.
  change (2 ^ 64) with 18446744073709551616.
  rewrite (Z.mod_small u) by lia. cbv zeta.
  destruct (Z.ltb_spec u 9223372036854775808) as [Hlt | Hge].
  - destruct (Z.eq_dec u 0) as [-> | Hnz]; [ reflexivity | ].
    assert (Hm : (- u) mod 18446744073709551616 = 18446744073709551616 - u).
    { symmetry. apply Z.mod_unique with (q := -1); lia. }
    rewrite Hm.
    destruct (Z.ltb_spec (18446744073709551616 - u) 9223372036854775808); lia.
  - assert (u = 9223372036854775808) by lia. subst u. reflexivity.
Qed.

Lemma pow2_half (w : Z) : 2 <= w -> 2 ^ w = 2 * 2 ^ (w - 1).
Proof.
  intros H. replace w with (Z.succ (w - 1)) at 1 by lia.
  apply Z.pow_succ_r. lia.
Qed.

(** [ParseInt] in base 10, on [w] bits: the integer that a well-formed
    literal in the range denotes; a range error for a well-formed literal
    out of the range, and for any text whose leading digits exceed
    [2^w - 1]; a syntax error for any other text. *)
Lemma ParseInt_decimal (s : string) (w : Z) :
  2 <= w <= 64 ->
  ParseInt s 10 w =
  let limit := if negative s then - 2 ^ (w - 1) else 2 ^ (w - 1) - 1 in
  if well_formed s then
    if in_range w (value s) then (value s, None)
    else (limit, Some (mkNumError "ParseInt" s ErrRange))
  else if leading_magnitude s >? 2 ^ w - 1
  then (limit, Some (mkNumError "ParseInt" s ErrRange))
  else (0, Some (mkNumError "ParseInt" s ErrSyntax)).
Proof.
  intros Hw.
  assert (Hh : 2 ^ w = 2 * 2 ^ (w - 1)) by (apply pow2_half; lia).
  assert (Hp : 2 ^ 1 <= 2 ^ (w - 1)) by (apply Z.pow_le_mono_r; lia).
  assert (Hq : 2 ^ (w - 1) <= 2 ^ 63) by (apply Z.pow_le_mono_r; lia).
  change (2 ^ 1) with 2 in Hp.
  assert (Hc : uint64 (2 ^ (w - 1)) = 2 ^ (w - 1)).
  { unfold uint64. apply Z.mod_small.
    change (2 ^ 64) with 18446744073709551616.
    change (2 ^ 63) with 9223372036854775808 in Hq. lia. }
  assert (Hlim : int64 (- int64 (2 ^ (w - 1))) = - 2 ^ (w - 1))
    by (apply int64_opp; lia).
  assert (Hlim' : int64 (2 ^ (w - 1) - 1) = 2 ^ (w - 1) - 1)
    by (apply int64_small; lia).
  (* the part after the sign *)
  assert (Hbody : forall (neg : bool) (body : string),
    negative s = neg -> unsigned_part s = body ->
    (let '(un, err) := ParseUint body 10 w in
     match err with
     | Some ErrSyntax => (0, Some (mkNumError "ParseInt" s ErrSyntax))
     | Some (ErrBase b) => (0, Some (mkNumError "ParseInt" s (ErrBase b)))
     | Some (ErrBitSize b) => (0, Some (mkNumError "ParseInt" s (ErrBitSize b)))
     | _ =>
         let bitSize := if w =? 0 then IntSize else w in
         let cutoff := uint64 (2 ^ (bitSize - 1)) in
         if negb neg && (un >=? cutoff)
         then (int64 (cutoff - 1), Some (mkNumError "ParseInt" s ErrRange))
         else if neg && (un >? cutoff)
         then (int64 (- int64 cutoff), Some (mkNumError "ParseInt" s ErrRange))
         else let n := int64 un in ((if neg then int64 (- n) else n), None)
     end) =
    let limit := if negative s then - 2 ^ (w - 1) else 2 ^ (w - 1) - 1 in
    if well_formed s then
      if in_range w (value s) then (value s, None)
      else (limit, Some (mkNumError "ParseInt" s ErrRange))
    else if leading_magnitude s >? 2 ^ w - 1
    then (limit, Some (mkNumError "ParseInt" s ErrRange))
    else (0, Some (mkNumError "ParseInt" s ErrSyntax))).
  { intros neg body Hneg Hun.
    unfold well_formed, value, leading_magnitude, in_range.
    rewrite Hneg, Hun.
    rewrite ParseUint_decimal by lia.
    destruct (Z.eqb_spec w 0); [ lia | ].
    cbv zeta. rewrite Hc, Hlim, Hlim'.
    pose proof (digits_value_ge (digit_prefix body) 0
                  (all_digits_prefix body) (Z.le_refl 0)) as Hge.
    destruct (negb (body =? "")%string && all_digits body) eqn:Hwf.
    - (* well-formed *)
      apply andb_prop in Hwf. destruct Hwf as [_ Hall].
      rewrite (digit_prefix_all body Hall) in *.
      set (v := digits_value 0 body) in *.
      destruct (Z.gtb_spec v (2 ^ w - 1)) as [Hov | Hov].
      + destruct neg; cbn [negb andb].
        * destruct (Z.gtb_spec (2 ^ w - 1) (2 ^ (w - 1))); [ | lia ].
          destruct (Z.leb_spec (- 2 ^ (w - 1)) (- v)); [ lia | ].
          reflexivity.
        * destruct (Z.geb_spec (2 ^ w - 1) (2 ^ (w - 1))); [ | lia ].
          destruct (Z.leb_spec (- 2 ^ (w - 1)) v); [ | lia ].
          destruct (Z.leb_spec v (2 ^ (w - 1) - 1)); [ lia | ].
          reflexivity.
      + destruct neg; cbn [negb andb].
        * destruct (Z.gtb_spec v (2 ^ (w - 1))).
          -- destruct (Z.leb_spec (- 2 ^ (w - 1)) (- v)); [ lia | ].
             reflexivity.
          -- destruct (Z.leb_spec (- 2 ^ (w - 1)) (- v)); [ | lia ].
             destruct (Z.leb_spec (- v) (2 ^ (w - 1) - 1)); [ | lia ].
             cbn [andb]. rewrite int64_opp by lia. reflexivity.
        * destruct (Z.geb_spec v (2 ^ (w - 1))).
          -- destruct (Z.leb_spec (- 2 ^ (w - 1)) v); [ | lia ].
             destruct (Z.leb_spec v (2 ^ (w - 1) - 1)); [ lia | ].
             reflexivity.
          -- destruct (Z.leb_spec (- 2 ^ (w - 1)) v); [ | lia ].
             destruct (Z.leb_spec v (2 ^ (w - 1) - 1)); [ | lia ].
             cbn [andb]. rewrite int64_small by lia. reflexivity.
    - (* malformed *)
      destruct (Z.gtb_spec (digits_value 0 (digit_prefix body)) (2 ^ w - 1));
        [ | reflexivity ].
      destruct neg; cbn [negb andb].
      + destruct (Z.gtb_spec (2 ^ w - 1) (2 ^ (w - 1))); [ | lia ].
        reflexivity.
      + destruct (Z.geb_spec (2 ^ w - 1) (2 ^ (w - 1))); [ | lia ].
        reflexivity. }
  destruct s as [ | c r].
  - cbn. destruct (Z.gtb_spec 0 (2 ^ w - 1)); [ lia | reflexivity ].
  - unfold ParseInt.
    destruct (Ascii.eqb c "+") eqn:Eplus.
    + apply (Hbody false r).
      * cbn. apply Ascii.eqb_eq in Eplus. subst c. reflexivity.
      * cbn. rewrite Eplus. reflexivity.
    + destruct (Ascii.eqb c "-") eqn:Eminus.
      * apply (Hbody true r); cbn; [ exact Eminus | ].
        rewrite Eplus, Eminus. reflexivity.
      * apply (Hbody false (String c r)); cbn; [ exact Eminus | ].
        rewrite Eplus, Eminus. reflexivity.
Qed.

(** [NewInt] for a width from 2 to 64 bits, on a literal that is not a
    boolean keyword. *)
Lemma NewInt_decimal (t : types.Int) (s : string) :
  2 <= types.Int_Size t <= 64 -> s <> "true" -> s <> "false" ->
  NewInt (types.IntType t) s =
  if well_formed s then
    if in_range (types.Int_Size t) (value s) then Return (mkInt t (value s))
    else Fail (UnparsableInt s (mkNumError "ParseInt" s ErrRange))
  else if leading_magnitude s >? 2 ^ types.Int_Size t - 1
  then Fail (UnparsableInt s (mkNumError "ParseInt" s ErrRange))
  else Fail (UnparsableInt s (mkNumError "ParseInt" s ErrSyntax)).
Proof.
  intros Hw Ht Hf. unfold NewInt.
  destruct (Z.gtb_spec (types.Int_Size t) 64); [ lia | ].
  destruct (Z.eqb_spec (types.Int_Size t) 1); [ lia | ].
  destruct (String.eqb_spec s "true"); [ contradiction | ].
  destruct (String.eqb_spec s "false"); [ contradiction | ].
  cbn [orb]. rewrite ParseInt_decimal by lia. cbv zeta.
  destruct (well_formed s).
  - destruct (in_range (types.Int_Size t) (value s)); reflexivity.
  - destruct (leading_magnitude s >? 2 ^ types.Int_Size t - 1); reflexivity.
Qed.

(** ** Decimal integer literals (C4) *)

(** C4, as stated, fails: ["999x"] is not a well-formed literal, and at
    width 8 it fails with the out-of-range error of [ParseInt], not with an
    error of the kind [InvalidLiteral]: the digits [999] exceed the width
    before the offending byte is read. *)
Lemma C4_malformed_out_of_range_counterexample :
  well_formed "999x" = false
  /\ failure (NewInt i8 "999x") = Some OutOfRange
  /\ ~ failure (NewInt i8 "999x") = Some InvalidLiteral.
Proof.
  split; [ reflexivity | split; [ reflexivity | discriminate ] ].
Qed.

(** C4, amended: for an integer type of a width [w] from 2 to 64,
    [NewInt] succeeds exactly on the well-formed base-10 signed integer
    literals (an optional sign, then digits) whose value lies in
    [[-2^(w-1), 2^(w-1)-1]], and returns that value.  A well-formed literal
    out of the range fails with the out-of-range error.  Text that is not
    well-formed (and not a boolean keyword) fails with the syntax error, of
    the kind [InvalidLiteral], when the digits it starts with do not exceed
    [2^w - 1], and with the out-of-range error when they do.  At width 8,
    ["127"] and ["-128"] succeed, ["128"] and ["-129"] are out of range. *)
Theorem C4_decimal_literals (t : types.Int) (s : string)
    (Hw : 2 <= types.Int_Size t <= 64) :
  let w := types.Int_Size t in
  let r := NewInt (types.IntType t) s in
  (returns r = true <-> well_formed s = true /\ in_range w (value s) = true)
  /\ (well_formed s = true -> in_range w (value s) = true ->
      r = Return (mkInt t (value s)))
  /\ (well_formed s = true -> in_range w (value s) = false ->
      r = Fail (UnparsableInt s (mkNumError "ParseInt" s ErrRange))
      /\ failure r = Some OutOfRange)
  /\ (well_formed s = false -> s <> "true" -> s <> "false" ->
      leading_magnitude s <= 2 ^ w - 1 ->
      r = Fail (UnparsableInt s (mkNumError "ParseInt" s ErrSyntax))
      /\ failure r = Some InvalidLiteral)
  /\ (well_formed s = false -> s <> "true" -> s <> "false" ->
      leading_magnitude s > 2 ^ w - 1 ->
      r = Fail (UnparsableInt s (mkNumError "ParseInt" s ErrRange))
      /\ failure r = Some OutOfRange)
  /\ (NewInt i8 "127" = Return (mkInt (types.mkInt 8) 127)
      /\ NewInt i8 "-128" = Return (mkInt (types.mkInt 8) (-128))
      /\ failure (NewInt i8 "128") = Some OutOfRange
      /\ failure (NewInt i8 "-129") = Some OutOfRange).
Proof.
  cbv zeta.
  assert (K : s = "true" \/ s = "false" \/ (s <> "true" /\ s <> "false")).
  { destruct (String.eqb_spec s "true"); [ auto | ].
    destruct (String.eqb_spec s "false"); auto. }
  assert (Hkw : s = "true" \/ s = "false" ->
                well_formed s = false
                /\ returns (NewInt (types.IntType t) s) = false).
  { intros Hs.
    rewrite (NewInt_keyword t s) by (lia || exact Hs). destruct Hs; subst s; split; reflexivity. }
  split; [ | split; [ | split; [ | split; [ | split ] ] ] ].
  - destruct K as [K | [K | [K1 K2]]].
    + destruct (Hkw (or_introl K)) as [-> ->]. intuition congruence.
    + destruct (Hkw (or_intror K)) as [-> ->]. intuition congruence.
    + rewrite NewInt_decimal by assumption.
      destruct (well_formed s).
      * destruct (in_range (types.Int_Size t) (value s)); cbn;
          intuition congruence.
      * destruct (leading_magnitude s >? 2 ^ types.Int_Size t - 1); cbn;
          intuition congruence.
  - intros Hwf Hr.
    destruct K as [K | [K | [K1 K2]]];
      [ destruct (Hkw (or_introl K)); congruence
      | destruct (Hkw (or_intror K)); congruence | ].
    rewrite NewInt_decimal, Hwf, Hr by assumption. reflexivity.
  - intros Hwf Hr.
    destruct K as [K | [K | [K1 K2]]];
      [ destruct (Hkw (or_introl K)); congruence
      | destruct (Hkw (or_intror K)); congruence | ].
    rewrite NewInt_decimal, Hwf, Hr by assumption. split; reflexivity.
  - intros Hwf K1 K2 Hm.
    rewrite NewInt_decimal, Hwf by assumption.
    destruct (Z.gtb_spec (leading_magnitude s) (2 ^ types.Int_Size t - 1));
      [ lia | split; reflexivity ].
  - intros Hwf K1 K2 Hm.
    rewrite NewInt_decimal, Hwf by assumption.
    destruct (Z.gtb_spec (leading_magnitude s) (2 ^ types.Int_Size t - 1));
      [ split; reflexivity | lia ].
  - repeat split; reflexivity.
Qed.

Lemma C4_decimal_literals_witness :
  NewInt i32 "-13" = Return (mkInt (types.mkInt 32) (-13))
  /\ failure (NewInt i32 "12ab") = Some InvalidLiteral.
Proof.
  split.
  - destruct (C4_decimal_literals (types.mkInt 32) "-13") as [_ [H _]].
    + cbn. lia.
    + apply H; reflexivity.
  - destruct (C4_decimal_literals (types.mkInt 32) "12ab")
      as [_ [_ [_ [H _]]]].
    + cbn. lia.
    + apply H; [ reflexivity | discriminate | discriminate | ].
      vm_compute. discriminate.
Defined.

(** ** The decimal text of an integer *)

Lemma digit_char_decimal (u : Z) :
  0 <= u <= 9 ->
  byte (digit_char u) - 48 = u
  /\ isdigit (digit_char u) = true
  /\ (0 < u -> Ascii.eqb (digit_char u) "0" = false).
Proof.
  intros H.
  assert (C : u = 0 \/ u = 1 \/ u = 2 \/ u = 3 \/ u = 4 \/ u = 5 \/ u = 6
              \/ u = 7 \/ u = 8 \/ u = 9) by lia.
  repeat (destruct C as [-> | C]; [ repeat split; (reflexivity || lia) | ]).
  subst u. repeat split; reflexivity.
Qed.

Lemma digit_char_of_digit (c : ascii) :
  isdigit c = true -> digit_char (byte c - 48) = c.
Proof.
  destruct c as [[] [] [] [] [] [] [] []]; vm_compute;
    (reflexivity || discriminate).
Qed.

Lemma isdigit_not_sign (c : ascii) :
  isdigit c = true -> Ascii.eqb c "+" = false /\ Ascii.eqb c "-" = false.
Proof.
  intros H. split.
  - destruct (Ascii.eqb_spec c "+") as [-> | ]; [ discriminate H | reflexivity ].
  - destruct (Ascii.eqb_spec c "-") as [-> | ]; [ discriminate H | reflexivity ].
Qed.

Lemma append_nil (s : string) : s ++ "" = s.
Proof. induction s as [ | c r IH]; cbn; [ | rewrite IH ]; reflexivity. Qed.

Lemma pow10_pos (k : Z) : 0 <= k -> 0 < 10 ^ k.
Proof. intros H. apply Z.pow_pos_nonneg; lia. Qed.

Lemma pow10_S (n : nat) : 10 ^ Z.of_nat (S n) = 10 * 10 ^ Z.of_nat n.
Proof. rewrite Nat2Z.inj_succ. apply Z.pow_succ_r. lia. Qed.

(** The digits that [formatBits] writes denote the number. *)
Lemma formatBits_value (fuel : nat) :
  forall (u : Z) (acc : string),
    0 <= u < 10 ^ Z.of_nat fuel ->
    exists k : Z, 0 <= k /\
      forall a : Z,
        digits_value a (formatBits fuel u 10 acc)
        = digits_value (a * 10 ^ k + u) acc.
Proof.
  induction fuel as [ | fuel IH]; intros u acc Hu.
  - exists 0. split; [ lia | ]. intros a. cbn in *.
    replace u with 0 by lia. f_equal. lia.
  - rewrite pow10_S in Hu. cbn [formatBits].
    destruct (Z.ltb_spec u 10) as [Hlt | Hge].
    + exists 1. split; [ lia | ]. intros a. cbn [digits_value].
      destruct (digit_char_decimal u) as [-> _]; [ lia | ].
      f_equal.
    + assert (Hdiv : 0 <= u / 10 < 10 ^ Z.of_nat fuel).
      { split; [ apply Z.div_pos; lia | ].
        apply Z.div_lt_upper_bound; lia. }
      destruct (IH (u / 10) (String (digit_char (u mod 10)) acc) Hdiv)
        as [k [Hk E]].
      exists (k + 1). split; [ lia | ]. intros a.
      rewrite E. cbn [digits_value].
      pose proof (Z.mod_pos_bound u 10 ltac:(lia)) as Hm.
      destruct (digit_char_decimal (u mod 10)) as [-> _]; [ lia | ].
      f_equal. rewrite Z.pow_add_r by lia. change (10 ^ 1) with 10.
      pose proof (Z.div_mod u 10 ltac:(lia)). lia.
Qed.

Lemma formatBits_all_digits (fuel : nat) :
  forall (u : Z) (acc : string),
    0 <= u -> all_digits acc = true ->
    all_digits (formatBits fuel u 10 acc) = true.
Proof.
  induction fuel as [ | fuel IH]; intros u acc Hu Hacc; [ exact Hacc | ].
  cbn [formatBits].
  destruct (Z.ltb_spec u 10) as [Hlt | Hge].
  - cbn. destruct (digit_char_decimal u) as [_ [-> _]]; [ lia | exact Hacc ].
  - apply IH; [ apply Z.div_pos; lia | ].
    cbn. pose proof (Z.mod_pos_bound u 10 ltac:(lia)) as Hm.
    destruct (digit_char_decimal (u mod 10)) as [_ [-> _]];
      [ lia | exact Hacc ].
Qed.

(** The first digit that [formatBits] writes for a positive number is not
    a zero. *)
Lemma formatBits_head (fuel : nat) :
  forall (u : Z) (acc : string),
    0 < u < 10 ^ Z.of_nat fuel ->
    exists (c : ascii) (r : string),
      formatBits fuel u 10 acc = String c r
      /\ Ascii.eqb c "0" = false /\ isdigit c = true.
Proof.
  induction fuel as [ | fuel IH]; intros u acc Hu.
  - cbn in Hu. lia.
  - rewrite pow10_S in Hu. cbn [formatBits].
    destruct (Z.ltb_spec u 10) as [Hlt | Hge].
    + exists (digit_char u), acc.
      destruct (digit_char_decimal u) as [_ [Hd Hz]]; [ lia | ].
      split; [ reflexivity | split; [ apply Hz; lia | exact Hd ] ].
    + apply IH. split.
      * apply Z.div_str_pos. lia.
      * apply Z.div_lt_upper_bound; lia.
Qed.

(** Digits after a positive number are written after its digits. *)
Lemma formatBits_digits (body : string) :
  forall (a : Z) (fuel : nat) (acc : string),
    1 <= a -> all_digits body = true ->
    formatBits (String.length body + fuel) (digits_value a body) 10 acc
    = formatBits fuel a 10 (body ++ acc).
Proof.
  induction body as [ | c r IH]; intros a fuel acc Ha Hall.
  - reflexivity.
  - cbn in Hall. apply andb_prop in Hall. destruct Hall as [Hc Hr].
    pose proof (isdigit_range c Hc) as Hd.
    cbn [digits_value String.length].
    replace (S (String.length r) + fuel)%nat
      with (String.length r + S fuel)%nat by lia.
    rewrite IH by (lia || assumption).
    cbn [formatBits].
    destruct (Z.ltb_spec (a * 10 + (byte c - 48)) 10); [ lia | ].
    replace ((a * 10 + (byte c - 48)) / 10) with a
      by (apply Z.div_unique with (r := byte c - 48); lia).
    replace ((a * 10 + (byte c - 48)) mod 10) with (byte c - 48)
      by (apply Z.mod_unique with (q := a); lia).
    rewrite digit_char_of_digit by exact Hc.
    reflexivity.
Qed.

Lemma digits_value_lower (body : string) :
  forall a : Z, 0 <= a -> all_digits body = true ->
    a * 10 ^ Z.of_nat (String.length body) <= digits_value a body.
Proof.
  induction body as [ | c r IH]; intros a Ha Hall.
  - cbn. lia.
  - cbn in Hall. apply andb_prop in Hall. destruct Hall as [Hc Hr].
    pose proof (isdigit_range c Hc) as Hd.
    cbn [digits_value String.length]. rewrite pow10_S.
    specialize (IH (a * 10 + (byte c - 48)) ltac:(lia) Hr).
    pose proof (pow10_pos (Z.of_nat (String.length r)) ltac:(lia)).
    nia.
Qed.

(** A number below [2^64] has at most 20 digits. *)
Lemma digits_length (c : ascii) (r : string) :
  isdigit c = true -> Ascii.eqb c "0" = false -> all_digits r = true ->
  digits_value 0 (String c r) < 2 ^ 64 ->
  (String.length r < 20)%nat.
Proof.
  intros Hc Hz Hr Hv.
  pose proof (isdigit_range c Hc) as Hd.
  assert (H1 : 1 <= byte c - 48).
  { destruct (Z.eq_dec (byte c - 48) 0) as [E | ]; [ | lia ].
    rewrite <- (digit_char_of_digit c Hc), E in Hz. discriminate Hz. }
  cbn [digits_value] in Hv.
  pose proof (digits_value_lower r (0 * 10 + (byte c - 48)) ltac:(lia) Hr) as Hl.
  destruct (Nat.lt_ge_cases (String.length r) 20) as [ | Hge]; [ assumption | ].
  assert (Hp : 10 ^ 20 <= 10 ^ Z.of_nat (String.length r))
    by (apply Z.pow_le_mono_r; lia).
  change (10 ^ 20) with 100000000000000000000 in Hp.
  change (2 ^ 64) with 18446744073709551616 in Hv.
  nia.
Qed.

Lemma in_range_64 (w n : Z) :
  1 <= w <= 64 -> in_range w n = true -> - 2 ^ 63 <= n < 2 ^ 63.
Proof.
  intros Hw H. unfold in_range in H. apply andb_prop in H.
  destruct H as [H1 H2]. apply Z.leb_le in H1. apply Z.leb_le in H2.
  assert (Hq : 2 ^ (w - 1) <= 2 ^ 63) by (apply Z.pow_le_mono_r; lia).
  lia.
Qed.

(** [FormatInt] in base 10 writes the canonical decimal form of a 64-bit
    integer: a well-formed literal of that value, with no plus sign, no
    leading zero and no negative zero. *)
Lemma FormatInt_canonical (n : Z) :
  - 2 ^ 63 <= n < 2 ^ 63 ->
  canonical (FormatInt n 10) = true /\ value (FormatInt n 10) = n.
Proof.
  change (2 ^ 63) with 9223372036854775808. intros Hn.
  unfold FormatInt, uint64. change (2 ^ 64) with 18446744073709551616.
  assert (P64 : 18446744073709551616 < 10 ^ Z.of_nat 64) by reflexivity.
  destruct (Z.ltb_spec n 0) as [Hneg | Hpos].
  - rewrite (Z.mod_small (- n)) by lia.
    destruct (formatBits_head 64 (- n) "" ltac:(lia)) as [c [r [E [Hz Hd]]]].
    destruct (formatBits_value 64 (- n) "" ltac:(lia)) as [k [Hk V]].
    pose proof (formatBits_all_digits 64 (- n) "" ltac:(lia) eq_refl) as A.
    split.
    + unfold canonical, well_formed. cbn [unsigned_part negative Ascii.eqb].
      cbn [Bool.eqb orb andb negb]. rewrite A, E, Hz. reflexivity.
    + unfold value. cbn [unsigned_part negative Ascii.eqb].
      cbn [Bool.eqb orb andb negb]. rewrite V. cbn [digits_value]. lia.
  - rewrite (Z.mod_small n) by lia.
    destruct (Z.eq_dec n 0) as [-> | Hnz]; [ split; reflexivity | ].
    destruct (formatBits_head 64 n "" ltac:(lia)) as [c [r [E [Hz Hd]]]].
    destruct (formatBits_value 64 n "" ltac:(lia)) as [k [Hk V]].
    pose proof (formatBits_all_digits 64 n "" ltac:(lia) eq_refl) as A.
    destruct (isdigit_not_sign c Hd) as [Hp Hm].
    split.
    + unfold canonical, well_formed. rewrite E in *.
      cbn [unsigned_part negative]. rewrite Hp, Hm. cbn [orb negb andb].
      rewrite A, Hz. reflexivity.
    + unfold value. rewrite E.
      cbn [unsigned_part negative]. rewrite Hp, Hm. cbn [orb].
      rewrite <- E, V. cbn [digits_value]. lia.
Qed.

(** A canonical literal is the text that [FormatInt] writes for its
    value. *)
Lemma FormatInt_of_canonical (s : string) :
  canonical s = true -> - 2 ^ 63 <= value s < 2 ^ 63 ->
  FormatInt (value s) 10 = s.
Proof.
  change (2 ^ 63) with 9223372036854775808.
  unfold canonical, well_formed, value. intros Hc Hv.
  destruct s as [ | c r]; [ discriminate Hc | ].
  cbn [unsigned_part negative] in *.
  destruct (Ascii.eqb_spec c "+") as [-> | Hplus]; cbn [orb negb andb] in Hc;
    [ rewrite andb_false_r in Hc; discriminate Hc | ].
  assert (Body : forall (d : ascii) (b : string),
    isdigit d = true -> all_digits b = true -> Ascii.eqb d "0" = false ->
    digits_value 0 (String d b) < 18446744073709551616 ->
    formatBits 64 (digits_value 0 (String d b)) 10 "" = String d b).
  { intros d b Hd Hb Hz Hlt.
    pose proof (digits_length d b Hd Hz Hb Hlt) as Hlen.
    pose proof (isdigit_range d Hd) as Hr.
    assert (H1 : 1 <= byte d - 48).
    { destruct (Z.eq_dec (byte d - 48) 0) as [E | ]; [ | lia ].
      rewrite <- (digit_char_of_digit d Hd), E in Hz. discriminate Hz. }
    cbn [digits_value].
    replace 64%nat with (String.length b + (64 - String.length b))%nat by lia.
    rewrite formatBits_digits by (lia || assumption).
    destruct (64 - String.length b)%nat as [ | f] eqn:Ef; [ lia | ].
    cbn [formatBits].
    destruct (Z.ltb_spec (0 * 10 + (byte d - 48)) 10); [ | lia ].
    cbn [Z.mul Z.add]. rewrite digit_char_of_digit by exact Hd.
    rewrite append_nil. reflexivity. }
  destruct (Ascii.eqb_spec c "-") as [-> | Hminus].
  - cbn [orb negb andb] in *.
    destruct r as [ | d b]; [ discriminate Hc | ].
    cbn [String.eqb negb andb all_digits] in Hc.
    rewrite andb_false_r, orb_false_r in Hc.
    apply andb_prop in Hc. destruct Hc as [Hall Hz].
    apply andb_prop in Hall. destruct Hall as [Hd Hb].
    apply negb_true_iff in Hz.
    assert (Hpos : 0 < digits_value 0 (String d b)).
    { pose proof (isdigit_range d Hd).
      destruct (Z.eq_dec (byte d - 48) 0) as [E | ].
      - rewrite <- (digit_char_of_digit d Hd), E in Hz. discriminate Hz.
      - cbn [digits_value].
        pose proof (digits_value_ge b (0 * 10 + (byte d - 48)) Hb ltac:(lia)).
        lia. }
    unfold FormatInt.
    destruct (Z.ltb_spec (- digits_value 0 (String d b)) 0); [ | lia ].
    rewrite Z.opp_involutive. unfold uint64.
    change (2 ^ 64) with 18446744073709551616.
    rewrite Z.mod_small by lia.
    rewrite Body by (assumption || lia). reflexivity.
  - cbn [orb negb andb] in *.
    apply andb_prop in Hc. destruct Hc as [Hall Hz].
    cbn [String.eqb negb andb all_digits] in Hall.
    apply andb_prop in Hall. destruct Hall as [Hd Hb].
    pose proof (isdigit_range c Hd) as Hr.
    pose proof (digits_value_ge r (0 * 10 + (byte c - 48)) Hb ltac:(lia)) as Hge.
    cbn [digits_value] in Hv.
    unfold FormatInt.
    destruct (Z.ltb_spec (digits_value 0 (String c r)) 0) as [Hn | _];
      [ cbn [digits_value] in Hn; lia | ].
    unfold uint64. change (2 ^ 64) with 18446744073709551616.
    rewrite Z.mod_small by (cbn [digits_value]; lia).
    destruct (Ascii.eqb c "0") eqn:E0.
    + cbn [negb orb] in Hz. rewrite andb_true_r in Hz.
      apply String.eqb_eq in Hz. subst r.
      apply Ascii.eqb_eq in E0. subst c. reflexivity.
    + apply Body; try assumption. cbn [digits_value]. lia.
Qed.

(** ** Round trip of decimal integers (C6) *)

Lemma well_formed_not_keyword (s : string) :
  well_formed s = true -> s <> "true" /\ s <> "false".
Proof.
  intros H. split; intros ->; discriminate H.
Qed.

(** C6: for an integer type of a width [w] from 2 to 64 and a well-formed
    decimal literal of an integer [n] of [[-2^(w-1), 2^(w-1)-1]], the text
    of the constant built from the literal is the type text, a space, and
    the text [FormatInt] writes for [n], which is the canonical base-10
    signed decimal form of [n]: a well-formed literal of value [n] with no
    plus sign, no leading zero and no negative zero.  A literal that is
    canonical already is reproduced as it is. *)
Theorem C6_format_construct (t : types.Int) (s : string)
    (Hw : 2 <= types.Int_Size t <= 64)
    (Hwf : well_formed s = true)
    (Hr : in_range (types.Int_Size t) (value s) = true) :
  format_int (types.IntType t) s
  = Return (types.String (types.IntType t) ++ " " ++ FormatInt (value s) 10)
  /\ canonical (FormatInt (value s) 10) = true
  /\ value (FormatInt (value s) 10) = value s
  /\ (canonical s = true ->
      format_int (types.IntType t) s
      = Return (types.String (types.IntType t) ++ " " ++ s)).
Proof.
  destruct (well_formed_not_keyword s Hwf) as [K1 K2].
  pose proof (in_range_64 (types.Int_Size t) (value s) ltac:(lia) Hr) as H64.
  destruct (FormatInt_canonical (value s) H64) as [Hcan Hval].
  assert (E : format_int (types.IntType t) s
              = Return (types.String (types.IntType t) ++ " "
                        ++ FormatInt (value s) 10)).
  { unfold format_int. rewrite NewInt_decimal, Hwf, Hr by assumption.
    cbn [bind]. unfold Int_String, Int_Type. cbn [Int_typ Int_x].
    destruct (Z.eqb_spec (types.Int_Size t) 1); [ lia | reflexivity ]. }
  split; [ exact E | split; [ exact Hcan | split; [ exact Hval | ] ] ].
  intros Hc. rewrite E, (FormatInt_of_canonical s Hc H64). reflexivity.
Qed.

Lemma C6_format_construct_witness :
  format_int i32 "-13" = Return "i32 -13"
  /\ format_int i64 "+042" = Return "i64 42".
Proof.
  split.
  - destruct (C6_format_construct (types.mkInt 32) "-13") as [_ [_ [_ H]]].
    + cbn. lia.
    + reflexivity.
    + reflexivity.
    + apply H. reflexivity.
  - destruct (C6_format_construct (types.mkInt 64) "+042") as [H _].
    + cbn. lia.
    + reflexivity.
    + reflexivity.
    + exact H.
Defined.

(** ** Hexadecimal literals (C3) *)

Lemma hex_int_shape (s : string) :
  hex_int s = true ->
  exists (c : ascii) (r : string),
    s = String c (String "0" (String "x" r))
    /\ (c = "u"%char \/ c = "s"%char) /\ hex_digits r = true.
Proof.
  destruct s as [ | c [ | z [ | x r]]]; try discriminate.
  cbn. intros H.
  apply andb_prop in H. destruct H as [H Hr].
  apply andb_prop in H. destruct H as [H Hx].
  apply andb_prop in H. destruct H as [Hc Hz].
  apply Ascii.eqb_eq in Hx. apply Ascii.eqb_eq in Hz. subst x z.
  exists c, r. split; [ reflexivity | split; [ | exact Hr ] ].
  apply orb_prop in Hc. destruct Hc as [Hc | Hc]; apply Ascii.eqb_eq in Hc; auto.
Qed.

(** A hexadecimal integer literal is no decimal literal, starts with no
    digit and is no boolean literal. *)
Lemma hex_int_malformed (s : string) :
  hex_int s = true ->
  well_formed s = false /\ leading_magnitude s = 0
  /\ s <> "true" /\ s <> "false" /\ s <> "0" /\ s <> "1".
Proof.
  intros H. destruct (hex_int_shape s H) as [c [r [-> [[-> | ->] _]]]];
    repeat split; (reflexivity || discriminate).
Qed.

Lemma is_hex_mantissa (c : ascii) :
  is_hex c = true ->
  Ascii.eqb c "_" = false /\ Ascii.eqb c "." = false
  /\ (isdigit c = true
      \/ (isdigit c = false /\ (97 <=? lower c) && (lower c <=? 102) = true)).
Proof.
  destruct c as [[] [] [] [] [] [] [] []]; vm_compute; intros H;
    try discriminate H; repeat split; auto.
Qed.

(** The mantissa loop, in base 16, reads hexadecimal digits to their
    end. *)
Lemma readFloat_mant_hex (r : string) :
  all_hex r = true ->
  forall st : mant, exists st' : mant, readFloat_mant r 16 st = (st', "").
Proof.
  induction r as [ | c r IH]; intros H st.
  - exists st. reflexivity.
  - cbn in H. apply andb_prop in H. destruct H as [Hc Hr].
    destruct (is_hex_mantissa c Hc) as [Hu [Hd [Hdig | [Hdig Hlet]]]];
      cbn [readFloat_mant]; rewrite Hu, Hd, Hdig.
    + destruct (Ascii.eqb c "0" && (nd st =? 0)); apply IH; exact Hr.
    + cbn [Z.eqb Pos.eqb andb]. rewrite Hlet. apply IH; exact Hr.
Qed.

Lemma readFloat_hex_digits (r : string) :
  hex_digits r = true -> readFloat (String "0" (String "x" r)) = None.
Proof.
  unfold hex_digits. intros H. apply andb_prop in H. destruct H as [Hne Hall].
  destruct r as [ | c r]; [ discriminate Hne | ].
  destruct (readFloat_mant_hex (String c r) Hall (mkMant false false false 0 0 0))
    as [st' E].
  change (readFloat (String "0" (String "x" (String c r))))
    with (readFloat_number (String "0" (String "x" (String c r)))
            false 16 112 true (String c r)).
  unfold readFloat_number. rewrite E.
  destruct (sawdigits st'); reflexivity.
Qed.

Lemma readFloat_hex_letter (k : ascii) (r : string) :
  (Ascii.eqb k "K" || Ascii.eqb k "L" || Ascii.eqb k "M" || Ascii.eqb k "H")
  = true ->
  readFloat (String "0" (String "x" (String k r))) = None.
Proof.
  intros H.
  assert (K : k = "K"%char \/ k = "L"%char \/ k = "M"%char \/ k = "H"%char).
  { repeat (apply orb_prop in H; destruct H as [H | H]);
      apply Ascii.eqb_eq in H; auto. }
  destruct K as [-> | [-> | [-> | ->]]]; reflexivity.
Qed.

(** [ParseFloat] reads no hexadecimal literal of the IR: a mantissa in
    base 16 must be followed by a binary exponent. *)
Lemma ParseFloat_hex_float (s : string) (bitSize : Z) :
  hex_float s = true ->
  ParseFloat s bitSize = (Zero false, Some (mkNumError "ParseFloat" s ErrSyntax)).
Proof.
  intros H. destruct s as [ | z [ | x r]]; try discriminate H.
  cbn in H. apply andb_prop in H. destruct H as [H Hr].
  apply andb_prop in H. destruct H as [Hz Hx].
  apply Ascii.eqb_eq in Hz. apply Ascii.eqb_eq in Hx. subst z x.
  assert (R : readFloat (String "0" (String "x" r)) = None).
  { apply orb_prop in Hr. destruct Hr as [Hr | Hr].
    - apply readFloat_hex_digits. exact Hr.
    - destruct r as [ | k r']; [ discriminate Hr | ].
      apply andb_prop in Hr. destruct Hr as [Hk _].
      apply readFloat_hex_letter. exact Hk. }
  unfold ParseFloat, parseFloatPrefix.
  change (special (String "0" (String "x" r))) with (@None (float64 * Z)).
  rewrite R. reflexivity.
Qed.

(** C3, as stated, fails: the hexadecimal literals ["u0x1F"] and ["0x1F"]
    fail with the syntax error of the parsers of [strconv], which is of
    the kind [InvalidLiteral] like the error for any text that is not a
    number, and not of a kind [UnsupportedLiteralForm]. *)
Lemma C3_hex_literal_counterexample :
  hex_int "u0x1F" = true /\ hex_float "0x1F" = true
  /\ failure (NewInt i32 "u0x1F") = Some InvalidLiteral
  /\ failure (NewFloat double "0x1F") = Some InvalidLiteral
  /\ ~ failure (NewInt i32 "u0x1F") = Some UnsupportedLiteralForm
  /\ ~ failure (NewFloat double "0x1F") = Some UnsupportedLiteralForm
  /\ kind (UnparsableInt "u0x1F" (mkNumError "ParseInt" "u0x1F" ErrSyntax))
     = kind (UnparsableInt "12ab" (mkNumError "ParseInt" "12ab" ErrSyntax)).
Proof.
  repeat split; try reflexivity; discriminate.
Qed.

(** C3, amended: a hexadecimal integer literal [[us]0x[0-9A-Fa-f]+] given
    to [NewInt] for a type of 1 to 64 bits, and a hexadecimal floating
    point literal [0x[KLMH]?[0-9A-Fa-f]+] given to [NewFloat] for a type of
    32 or 64 bits, is never read as a number: the call fails, with the
    syntax error of [ParseInt] (the invalid-boolean error at width 1), or
    of [ParseFloat], which are errors of the kind [InvalidLiteral]; no
    error of the package is of a kind [UnsupportedLiteralForm]. *)
Theorem C3_hex_literals_rejected :
  (forall (t : types.Int) (s : string),
      1 <= types.Int_Size t <= 64 -> hex_int s = true ->
      returns (NewInt (types.IntType t) s) = false
      /\ failure (NewInt (types.IntType t) s) = Some InvalidLiteral
      /\ (types.Int_Size t <> 1 ->
          NewInt (types.IntType t) s
          = Fail (UnparsableInt s (mkNumError "ParseInt" s ErrSyntax))))
  /\ (forall (t : types.Float) (s : string),
      types.Float_Size t = 32 \/ types.Float_Size t = 64 ->
      hex_float s = true ->
      NewFloat (types.FloatType t) s
      = Fail (UnparsableFloat s (mkNumError "ParseFloat" s ErrSyntax))
      /\ failure (NewFloat (types.FloatType t) s) = Some InvalidLiteral)
  /\ (forall (typ : types.Ty) (s : string),
      failure (NewInt typ s) <> Some UnsupportedLiteralForm
      /\ failure (NewFloat typ s) <> Some UnsupportedLiteralForm).
Proof.
  split; [ | split ].
  - intros t s Hw Hs.
    destruct (hex_int_malformed s Hs) as [Hwf [Hm [K1 [K2 [K3 K4]]]]].
    destruct (Z.eq_dec (types.Int_Size t) 1) as [H1 | H1].
    + assert (E : NewInt (types.IntType t) s = Fail (InvalidBool s)).
      { unfold NewInt. rewrite H1. cbn [Z.gtb Z.compare Pos.compare Z.eqb
                                         Pos.compare_cont Pos.eqb].
        destruct (String.eqb_spec s "1"); [ contradiction | ].
        destruct (String.eqb_spec s "true"); [ contradiction | ].
        destruct (String.eqb_spec s "0"); [ contradiction | ].
        destruct (String.eqb_spec s "false"); [ contradiction | ].
        reflexivity. }
      rewrite E. repeat split; try reflexivity. contradiction.
    + assert (E : NewInt (types.IntType t) s
                  = Fail (UnparsableInt s (mkNumError "ParseInt" s ErrSyntax))).
      { rewrite NewInt_decimal, Hwf, Hm by (lia || assumption).
        assert (P : 0 < 2 ^ types.Int_Size t) by (apply Z.pow_pos_nonneg; lia).
        destruct (Z.gtb_spec 0 (2 ^ types.Int_Size t - 1)); [ lia | ].
        reflexivity. }
      rewrite E. repeat split; reflexivity.
  - intros t s Hsz Hs.
    assert (E : NewFloat (types.FloatType t) s
                = Fail (UnparsableFloat s (mkNumError "ParseFloat" s ErrSyntax))).
    { unfold NewFloat. rewrite (ParseFloat_hex_float s _ Hs).
      destruct Hsz as [-> | ->]; reflexivity. }
    rewrite E. split; reflexivity.
  - intros typ s. split; apply failure_supported.
Qed.

Lemma C3_hex_literals_rejected_witness :
  failure (NewInt i64 "s0xFF") = Some InvalidLiteral
  /\ failure (NewFloat float32 "0xH3C00") = Some InvalidLiteral.
Proof.
  destruct C3_hex_literals_rejected as [HI [HF _]].
  split.
  - apply (HI (types.mkInt 64) "s0xFF"); [ cbn; lia | reflexivity ].
  - apply (HF types.Float32 "0xH3C00"); [ left; reflexivity | reflexivity ].
Defined.

(** ** Infinities and NaN (C9) *)

(** A byte whose lower case is [x] is [x] or, for a letter [x], its upper
    case. *)
Lemma to_lower_cases (c x : ascii) :
  to_lower c = x ->
  c = x
  \/ (c = chr (byte x - 32) /\ (97 <=? byte x) && (byte x <=? 122) = true).
Proof.
  intros <-.
  destruct c as [[] [] [] [] [] [] [] []];
    first [ left; reflexivity | right; split; reflexivity ].
Qed.

(** The strings that are a given text up to the case of letters, one byte
    after the other. *)
Ltac case_variants H :=
  repeat match type of H with
    | lower_case ?s = _ =>
        destruct s; cbn [lower_case] in H; [ try discriminate H | ]
    | String (to_lower ?c) _ = String _ _ =>
        let Hc := fresh "Hc" in
        injection H as Hc H;
        apply to_lower_cases in Hc;
        destruct Hc as [Hc | [Hc Hx]];
        [ | vm_compute in Hx; try discriminate Hx; clear Hx ];
        vm_compute in Hc; subst c
    | String _ _ = EmptyString => discriminate H
    end.

(** [ParseFloat] reads the infinities, with a sign or without, and NaN
    without a sign, in any case of the letters. *)
Lemma ParseFloat_special (s : string) (bitSize : Z) :
  (lower_case s = "inf" \/ lower_case s = "+inf"
   \/ lower_case s = "infinity" \/ lower_case s = "+infinity" ->
   ParseFloat s bitSize = (Inf false, None))
  /\ (lower_case s = "-inf" \/ lower_case s = "-infinity" ->
      ParseFloat s bitSize = (Inf true, None))
  /\ (lower_case s = "nan" -> ParseFloat s bitSize = (NaN, None))
  /\ (lower_case s = "+nan" \/ lower_case s = "-nan" ->
      ParseFloat s bitSize
      = (Zero false, Some (mkNumError "ParseFloat" s ErrSyntax))).
Proof.
  split; [ | split; [ | split ] ].
  - intros [H | [H | [H | H]]]; case_variants H; vm_compute; reflexivity.
  - intros [H | H]; case_variants H; vm_compute; reflexivity.
  - intros H; case_variants H; vm_compute; reflexivity.
  - intros [H | H]; case_variants H; vm_compute; reflexivity.
Qed.

(** The infinities and NaN are no numbers of the grammar of [readFloat]:
    they are read by [special] alone. *)
Lemma readFloat_special (s : string) :
  lower_case s = "inf" \/ lower_case s = "+inf" \/ lower_case s = "-inf"
  \/ lower_case s = "infinity" \/ lower_case s = "+infinity"
  \/ lower_case s = "-infinity" \/ lower_case s = "nan" ->
  readFloat s = None.
Proof.
  intros [H | [H | [H | [H | [H | [H | H]]]]]];
    case_variants H; vm_compute; reflexivity.
Qed.

Lemma NewFloat_special (t : types.Float) (s : string) (x : float64) :
  types.Float_Size t = 32 \/ types.Float_Size t = 64 ->
  (forall bitSize : Z, ParseFloat s bitSize = (x, None)) ->
  x = NaN \/ x = Inf false \/ x = Inf true ->
  NewFloat (types.FloatType t) s = Return (mkFloat t x).
Proof.
  intros Hsz HP Hx. unfold NewFloat. rewrite HP.
  destruct Hsz as [-> | ->]; destruct Hx as [-> | [-> | ->]]; reflexivity.
Qed.

(** C9, as stated, fails for a signed NaN: ["-nan"] is the token [nan]
    with a sign, and [NewFloat] fails on it with the syntax error of
    [ParseFloat]. *)
Lemma C9_signed_nan_counterexample :
  lower_case "-nan" = "-nan"
  /\ NewFloat double "-nan"
     = Fail (UnparsableFloat "-nan" (mkNumError "ParseFloat" "-nan" ErrSyntax))
  /\ returns (NewFloat double "-nan") = false.
Proof.
  conjuncts; vm_compute; reflexivity.
Qed.

(** C9, amended: for a floating point type of 32 or 64 bits, [NewFloat]
    accepts texts that are no decimal or scientific number: in any case of
    the letters, ["inf"] and ["infinity"], with a sign or without, give a
    constant that holds the infinity of that sign, and ["nan"], without a
    sign, a constant that holds NaN; a signed ["nan"] fails with the syntax
    error.  So [NewFloat(double, "Inf")] returns a constant that holds
    positive infinity. *)
Theorem C9_special_tokens (t : types.Float) (s : string)
    (Hsz : types.Float_Size t = 32 \/ types.Float_Size t = 64) :
  (lower_case s = "inf" \/ lower_case s = "+inf"
   \/ lower_case s = "infinity" \/ lower_case s = "+infinity" ->
   NewFloat (types.FloatType t) s = Return (mkFloat t (Inf false))
   /\ readFloat s = None)
  /\ (lower_case s = "-inf" \/ lower_case s = "-infinity" ->
      NewFloat (types.FloatType t) s = Return (mkFloat t (Inf true))
      /\ readFloat s = None)
  /\ (lower_case s = "nan" ->
      NewFloat (types.FloatType t) s = Return (mkFloat t NaN)
      /\ readFloat s = None)
  /\ (lower_case s = "+nan" \/ lower_case s = "-nan" ->
      failure (NewFloat (types.FloatType t) s) = Some InvalidLiteral)
  /\ NewFloat double "Inf" = Return (mkFloat types.Float64 (Inf false)).
Proof.
  split; [ | split; [ | split; [ | split ] ] ].
  - intros H. split.
    + apply NewFloat_special; [ exact Hsz | | auto ].
      intros b. apply (ParseFloat_special s b). exact H.
    + apply readFloat_special. tauto.
  - intros H. split.
    + apply NewFloat_special; [ exact Hsz | | auto ].
      intros b. apply (ParseFloat_special s b). exact H.
    + apply readFloat_special. tauto.
  - intros H. split.
    + apply NewFloat_special; [ exact Hsz | | auto ].
      intros b. apply (ParseFloat_special s b). exact H.
    + apply readFloat_special. tauto.
  - intros H. unfold NewFloat.
    destruct (ParseFloat_special s (types.Float_Size t)) as [_ [_ [_ E]]].
    rewrite (E H). destruct Hsz as [-> | ->]; reflexivity.
  - vm_compute. reflexivity.
Qed.

Lemma C9_special_tokens_witness :
  NewFloat float32 "-InFiNiTy" = Return (mkFloat types.Float32 (Inf true))
  /\ NewFloat double "NaN" = Return (mkFloat types.Float64 NaN).
Proof.
  split.
  - destruct (C9_special_tokens types.Float32 "-InFiNiTy") as [_ [H _]].
    + left. reflexivity.
    + apply H. right. reflexivity.
  - destruct (C9_special_tokens types.Float64 "NaN") as [_ [_ [H _]]].
    + right. reflexivity.
    + apply H. reflexivity.
Defined.

(** ** Plus signs in the text of a floating point number *)

Lemma count_plus_app (a b : string) :
  count_plus (a ++ b) = (count_plus a + count_plus b)%nat.
Proof.
  induction a as [ | c a IH]; cbn; [ reflexivity | rewrite IH; lia ].
Qed.

Lemma count_plus_zeros (n : nat) : count_plus (zeros n) = O.
Proof. induction n as [ | n IH]; cbn; [ reflexivity | exact IH ]. Qed.

Lemma count_plus_take_skip (n : nat) :
  forall s : string,
    (count_plus (take n s) + count_plus (skip n s) = count_plus s)%nat.
Proof.
  induction n as [ | n IH]; intros s; [ reflexivity | ].
  destruct s as [ | c r]; [ reflexivity | ].
  cbn. rewrite <- (IH r). lia.
Qed.

Lemma count_plus_take (n : nat) (s : string) :
  count_plus s = O -> count_plus (take n s) = O.
Proof. pose proof (count_plus_take_skip n s). lia. Qed.

Lemma count_plus_skip (n : nat) (s : string) :
  count_plus s = O -> count_plus (skip n s) = O.
Proof. pose proof (count_plus_take_skip n s). lia. Qed.

Lemma count_plus_get (s : string) :
  count_plus s = O ->
  forall (n : nat) (c : ascii),
    String.get n s = Some c -> Ascii.eqb c "+" = false.
Proof.
  induction s as [ | a r IH]; intros H n c; [ destruct n; discriminate | ].
  cbn in H. destruct (Ascii.eqb a "+") eqn:E; [ discriminate H | ].
  destruct n as [ | n]; cbn.
  - intros [= <-]. exact E.
  - apply IH. exact H.
Qed.

Lemma count_plus_tabulate (f : Z -> ascii) :
  (forall j : Z, Ascii.eqb (f j) "+" = false) ->
  forall (n : nat) (i : Z), count_plus (tabulate n i f) = O.
Proof.
  intros Hf. induction n as [ | n IH]; intros i; cbn; [ reflexivity | ].
  rewrite Hf. apply IH.
Qed.

Lemma count_plus_trim_zeros (s : string) :
  count_plus s = O -> count_plus (trim_zeros s) = O.
Proof.
  induction s as [ | c r IH]; cbn; [ reflexivity | ].
  destruct (Ascii.eqb c "+") eqn:E; [ discriminate | ].
  cbn. intros H. specialize (IH H).
  destruct (trim_zeros r) as [ | c' r'].
  - destruct (Ascii.eqb c "0"); cbn; [ reflexivity | rewrite E; reflexivity ].
  - cbn in *. rewrite E. exact IH.
Qed.

(** No digit of the alphabet of [FormatInt] is a plus sign. *)
Lemma digit_char_no_plus (u : Z) : Ascii.eqb (digit_char u) "+" = false.
Proof.
  unfold digit_char. generalize (Z.to_nat u) as n. intros n.
  do 37 (destruct n as [ | n]; [ reflexivity | ]).
  reflexivity.
Qed.

Lemma count_plus_formatBits (fuel : nat) :
  forall (u base : Z) (acc : string),
    count_plus (formatBits fuel u base acc) = count_plus acc.
Proof.
  induction fuel as [ | fuel IH]; intros u base acc; [ reflexivity | ].
  cbn [formatBits]. destruct (u <? base).
  - cbn. rewrite digit_char_no_plus. reflexivity.
  - rewrite IH. cbn. rewrite digit_char_no_plus. reflexivity.
Qed.

Lemma digit_at_no_plus (digs : decimalSlice) (j : Z) :
  count_plus (d digs) = O -> Ascii.eqb (digit_at digs j) "+" = false.
Proof.
  intros H. unfold digit_at.
  destruct ((0 <=? j) && (j <? nd10 digs)); [ | reflexivity ].
  destruct (String.get (Z.to_nat j) (d digs)) as [c | ] eqn:E;
    [ | reflexivity ].
  exact (count_plus_get (d digs) H _ _ E).
Qed.

Lemma chr_digit_no_plus (x : Z) :
  0 <= x <= 9 -> Ascii.eqb (chr (x + 48)) "+" = false.
Proof.
  intros H.
  assert (C : x = 0 \/ x = 1 \/ x = 2 \/ x = 3 \/ x = 4 \/ x = 5 \/ x = 6
              \/ x = 7 \/ x = 8 \/ x = 9) by lia.
  repeat (destruct C as [-> | C]; [ reflexivity | ]).
  subst x. reflexivity.
Qed.

(** [%f] writes no plus sign. *)
Lemma count_plus_fmtF (neg : bool) (digs : decimalSlice) (prec : Z) :
  count_plus (d digs) = O -> count_plus (fmtF neg digs prec) = O.
Proof.
  intros H. unfold fmtF. rewrite !count_plus_app.
  assert (S1 : count_plus (if neg then "-" else "") = O)
    by (destruct neg; reflexivity).
  assert (S2 : count_plus
                 (if dp10 digs >? 0
                  then take (Z.to_nat (Z.min (nd10 digs) (dp10 digs))) (d digs)
                       ++ zeros (Z.to_nat (dp10 digs
                                           - Z.min (nd10 digs) (dp10 digs)))
                  else "0") = O).
  { destruct (dp10 digs >? 0); [ | reflexivity ].
    rewrite count_plus_app, count_plus_zeros, count_plus_take by exact H.
    reflexivity. }
  assert (S3 : count_plus
                 (if prec >? 0
                  then "." ++ tabulate (Z.to_nat prec) 0
                                (fun i => digit_at digs (dp10 digs + i))
                  else "") = O).
  { destruct (prec >? 0); [ | reflexivity ].
    rewrite count_plus_app, count_plus_tabulate; [ reflexivity | ].
    intros j. apply digit_at_no_plus. exact H. }
  cbv zeta. rewrite S1, S3. cbv zeta in S2. rewrite S2. reflexivity.
Qed.

(** [%e] writes one sign of the exponent, and no other plus sign, when the
    exponent has at most three digits. *)
Lemma count_plus_fmtE (neg : bool) (digs : decimalSlice) (prec : Z) :
  count_plus (d digs) = O -> -998 <= dp10 digs <= 1000 ->
  (count_plus (fmtE neg digs prec "e") <= 1)%nat.
Proof.
  intros H Hdp. unfold fmtE. rewrite !count_plus_app.
  assert (S1 : count_plus (if neg then "-" else "") = O)
    by (destruct neg; reflexivity).
  assert (S2 : count_plus
                 (String (if nd10 digs =? 0 then "0"%char else digit_at digs 0)
                    "") = O).
  { cbn. destruct (nd10 digs =? 0); [ reflexivity | ].
    rewrite digit_at_no_plus by exact H. reflexivity. }
  assert (S3 : forall m : Z,
             count_plus
               ("." ++ (if 1 <? m
                        then take (Z.to_nat (m - 1)) (skip 1 (d digs))
                        else "")
                    ++ zeros (Z.to_nat (prec + 1 - (if 1 <? m then m else 1))))
             = O).
  { intros m. rewrite !count_plus_app, count_plus_zeros.
    destruct (1 <? m); [ | reflexivity ].
    rewrite count_plus_take by (apply count_plus_skip; exact H).
    reflexivity. }
  assert (S4 : forall exp : Z, 0 <= exp <= 999 ->
             count_plus
               (if exp <? 10 then String "0" (String (chr (exp + 48)) "")
                else if exp <? 100
                then String (chr (exp / 10 + 48))
                       (String (chr (exp mod 10 + 48)) "")
                else String (chr (exp / 100 + 48))
                       (String (chr ((exp / 10) mod 256 mod 10 + 48))
                          (String (chr (exp mod 10 + 48)) ""))) = O).
  { intros exp He.
    pose proof (Z.mod_pos_bound exp 10 ltac:(lia)).
    pose proof (Z.mod_pos_bound ((exp / 10) mod 256) 10 ltac:(lia)).
    assert (0 <= exp / 10 <= 99)
      by (split; [ apply Z.div_pos; lia
                 | apply Z.lt_succ_r, Z.div_lt_upper_bound; lia ]).
    assert (0 <= exp / 100 <= 9)
      by (split; [ apply Z.div_pos; lia
                 | apply Z.lt_succ_r, Z.div_lt_upper_bound; lia ]).
    destruct (Z.ltb_spec exp 10); [ | destruct (Z.ltb_spec exp 100) ]; cbn.
    - rewrite chr_digit_no_plus by lia. reflexivity.
    - assert (exp / 10 < 10) by (apply Z.div_lt_upper_bound; lia).
      rewrite !chr_digit_no_plus by lia. reflexivity.
    - rewrite !chr_digit_no_plus by lia. reflexivity. }
  rewrite S1, S2. cbv zeta.
  assert (S5 : count_plus
                 (if prec >? 0
                  then "." ++ (if 1 <? Z.min (nd10 digs) (prec + 1)
                               then take (Z.to_nat (Z.min (nd10 digs) (prec + 1) - 1))
                                      (skip 1 (d digs))
                               else "")
                       ++ zeros (Z.to_nat
                                   (prec + 1
                                    - (if 1 <? Z.min (nd10 digs) (prec + 1)
                                       then Z.min (nd10 digs) (prec + 1)
                                       else 1)))
                  else "") = O).
  { destruct (prec >? 0); [ apply S3 | reflexivity ]. }
  rewrite S5. cbn [count_plus Ascii.eqb Bool.eqb Nat.add].
  set (exp := if nd10 digs =? 0 then 0 else dp10 digs - 1).
  assert (He : -999 <= exp <= 999)
    by (unfold exp; destruct (nd10 digs =? 0); lia).
  destruct (Z.ltb_spec exp 0); cbn [count_plus Ascii.eqb Bool.eqb Nat.add];
    rewrite S4 by lia; lia.
Qed.

(** ** The range of the values read *)

Lemma odd_part_spec (m : positive) :
  forall (e : Z) (m' : positive) (e' : Z),
    odd_part m e = (m', e') ->
    e <= e' /\ Z.log2 (Zpos m') + e' = Z.log2 (Zpos m) + e.
Proof.
  induction m as [m IH | m IH | ]; intros e m' e' H; cbn [odd_part] in H;
    try (injection H as <- <-; lia).
  destruct (IH (e + 1) m' e' H) as [H1 H2].
  split; [ lia | ].
  rewrite H2. rewrite (Pos2Z.inj_xO m).
  rewrite Z.log2_double by lia. lia.
Qed.

(** Rounding to the 32-bit or the 64-bit format gives a value of the range
    of the 64-bit format. *)
Lemma round_bounded (flt : floatInfo) (neg : bool) (q : Z * Z) :
  flt = float32info \/ flt = float64info ->
  bounded (fst (round flt neg q)) = true.
Proof.
  intros Hf. unfold round.
  set (e := Z.max (floor_log2 q - mantbits flt) (bias flt + 1 - mantbits flt)).
  assert (He : -1074 <= e)
    by (unfold e; destruct Hf as [-> | ->]; cbn; lia).
  assert (Hb : 2 ^ expbits flt - 1 + bias flt <= 1024)
    by (destruct Hf as [-> | ->]; cbn; lia).
  destruct (round_half_even (mul2 q (- e))) as [ | m | m]; try reflexivity.
  destruct (Z.geb_spec (Z.log2 (Zpos m) + e) (2 ^ expbits flt - 1 + bias flt));
    [ reflexivity | ].
  destruct (odd_part m e) as [m' e'] eqn:E.
  destruct (odd_part_spec m e m' e' E) as [H1 H2].
  cbn [fst bounded].
  apply andb_true_intro. split; apply Z.leb_le; lia.
Qed.

Lemma to32_bounded (x : float64) : bounded (to32 x) = true.
Proof.
  destruct x as [ | neg | neg | neg m e]; try reflexivity.
  apply round_bounded. left. reflexivity.
Qed.

Lemma special_bounded (s : string) (f : float64) (n : Z) :
  special s = Some (f, n) -> bounded f = true.
Proof.
  unfold special.
  destruct s as [ | c r]; [ discriminate | ].
  repeat match goal with
    | |- context [if ?b then _ else _] => destruct b
    end;
    intros H; try discriminate H; injection H as <- _; reflexivity.
Qed.

Lemma ParseFloat_bounded (s : string) (bitSize : Z) :
  bounded (fst (ParseFloat s bitSize)) = true.
Proof.
  unfold ParseFloat, parseFloatPrefix.
  destruct (special s) as [[f n] | ] eqn:Es.
  - pose proof (special_bounded s f n Es) as Hf.
    destruct (negb (n =? len s)); [ reflexivity | exact Hf ].
  - destruct (readFloat s) as [num | ]; [ | reflexivity ].
    assert (Hc : bounded (fst (convert (if bitSize =? 32 then float32info
                                        else float64info) num)) = true).
    { unfold convert. destruct (num_mantissa num); try reflexivity.
      apply round_bounded. destruct (bitSize =? 32); auto. }
    destruct (convert (if bitSize =? 32 then float32info else float64info) num)
      as [f ovf].
    cbn [fst] in Hc.
    destruct ovf; destruct (negb (num_len num =? len s)); (reflexivity || exact Hc).
Qed.

(** ** The decimal exponent of a value of the range *)

Lemma floor_log2_finite (m : positive) (e : Z) :
  Z.log2 (Zpos m) + e - 1 <= floor_log2 (mul2 (Zpos m, 1) e)
  <= Z.log2 (Zpos m) + e.
Proof.
  assert (A : forall num den : Z,
             Z.log2 num - Z.log2 den - 1 <= floor_log2 (num, den)
             <= Z.log2 num - Z.log2 den).
  { intros num den. unfold floor_log2.
    destruct (mul2 (num, den) (- (Z.log2 num - Z.log2 den))) as [n dn].
    destruct (n <? dn); lia. }
  unfold mul2. destruct (Z.geb_spec e 0) as [He | He].
  - pose proof (A (Zpos m * 2 ^ e) 1) as B.
    rewrite Z.log2_mul_pow2 in B by lia. change (Z.log2 1) with 0 in B. lia.
  - pose proof (A (Zpos m) (1 * 2 ^ (- e))) as B.
    rewrite Z.log2_mul_pow2 in B by lia. change (Z.log2 1) with 0 in B. lia.
Qed.

Lemma log10_down_bounds (fuel : nat) (q : Z * Z) :
  forall k : Z, k - Z.of_nat fuel <= log10_down fuel q k <= k.
Proof.
  induction fuel as [ | fuel IH]; intros k; cbn [log10_down]; [ lia | ].
  destruct (ge_pow10 q k); [ lia | ].
  specialize (IH (k - 1)). lia.
Qed.

Lemma log10_up_bounds (fuel : nat) (q : Z * Z) :
  forall k : Z, k <= log10_up fuel q k <= k + Z.of_nat fuel.
Proof.
  induction fuel as [ | fuel IH]; intros k; cbn [log10_up]; [ lia | ].
  destruct (ge_pow10 q (k + 1)); [ | lia ].
  specialize (IH (k + 1)). lia.
Qed.

Lemma floor_log10_finite (m : positive) (e : Z) :
  bounded (Finite false m e) = true ->
  -328 <= floor_log10 (mul2 (Zpos m, 1) e) <= 311.
Proof.
  cbn [bounded]. intros H. apply andb_prop in H. destruct H as [H1 H2].
  apply Z.leb_le in H1. apply Z.leb_le in H2.
  pose proof (floor_log2_finite m e) as L.
  pose proof (Pos2Z.is_pos m) as Hm.
  pose proof (Z.log2_nonneg (Zpos m)) as Hl.
  unfold floor_log10.
  set (l := floor_log2 (mul2 (Zpos m, 1) e)) in *.
  assert (Hest : -324 <= l * 30103 / 100000 <= 307).
  { split.
    - apply Z.div_le_lower_bound; lia.
    - apply Z.lt_succ_r. apply Z.div_lt_upper_bound; lia. }
  pose proof (log10_down_bounds 4 (mul2 (Zpos m, 1) e) (l * 30103 / 100000)) as D.
  pose proof (log10_up_bounds 4 (mul2 (Zpos m, 1) e)
                (log10_down 4 (mul2 (Zpos m, 1) e) (l * 30103 / 100000))) as U.
  cbn [Z.of_nat Pos.of_succ_nat Pos.succ] in D, U. lia.
Qed.

Lemma shortest_loop_digits (fuel : nat) (flt : floatInfo) (x : float64)
    (q : Z * Z) (dp : Z) :
  forall n : Z, n <= snd (shortest_loop fuel flt x q dp n) <= n + Z.of_nat fuel.
Proof.
  induction fuel as [ | fuel IH]; intros n; cbn [shortest_loop];
    destruct (mul10 q (n - dp)) as [sn sd];
    repeat match goal with
      | |- context [if ?b then _ else _] => destruct b
      end; cbn [snd]; try lia.
  specialize (IH (n + 1)). lia.
Qed.

Lemma length_formatBits (fuel : nat) :
  forall (u base : Z) (acc : string),
    (String.length (formatBits fuel u base acc)
     <= fuel + String.length acc)%nat.
Proof.
  induction fuel as [ | fuel IH]; intros u base acc; cbn [formatBits];
    [ lia | ].
  destruct (u <? base); cbn [String.length]; [ lia | ].
  specialize (IH (u / base) base (String (digit_char (u mod base)) acc)).
  cbn [String.length] in IH. lia.
Qed.

(** The shortest digits of a value of the range: no plus sign, and a
    decimal exponent of at most three digits. *)
Lemma shortest_digits (flt : floatInfo) (m : positive) (e : Z) :
  bounded (Finite false m e) = true ->
  count_plus (d (shortest flt m e)) = O
  /\ -998 <= dp10 (shortest flt m e) <= 1000.
Proof.
  intros H. pose proof (floor_log10_finite m e H) as L.
  unfold shortest.
  set (q := mul2 (Zpos m, 1) e) in *.
  pose proof (shortest_loop_digits 17 flt (Finite false m e) q
                (floor_log10 q + 1) 1) as N.
  destruct (shortest_loop 17 flt (Finite false m e) q (floor_log10 q + 1) 1)
    as [c n].
  cbn [snd] in N. cbn [d dp10].
  split.
  - apply count_plus_trim_zeros. apply count_plus_formatBits.
  - pose proof (length_formatBits 64 c 10 "") as Hlen.
    unfold len. cbn [String.length] in Hlen.
    cbn [Z.of_nat Pos.of_succ_nat Pos.succ] in N. lia.
Qed.

(** The text of a value of the range has at most one plus sign. *)
Lemma count_plus_genericFtoa (x : float64) (flt : floatInfo) :
  bounded x = true -> (count_plus (genericFtoa x flt) <= 1)%nat.
Proof.
  intros H. destruct x as [ | [] | [] | neg m e]; cbn; try lia.
  destruct (shortest_digits flt m e H) as [Hd Hdp].
  unfold formatDigits.
  change (chr (byte "g" + 101 - 103)) with "e"%char.
  match goal with
  | |- context [if ?b then fmtE _ _ _ _ else _] => destruct b
  end.
  - apply count_plus_fmtE; assumption.
  - rewrite count_plus_fmtF by exact Hd. lia.
Qed.

(** ** Rounding to a format *)

Lemma pow2_pos (k : Z) : 0 <= k -> 0 < 2 ^ k.
Proof. intros H. apply Z.pow_pos_nonneg; lia. Qed.

Lemma pow2_ge1 (k : Z) : 0 <= k -> 1 <= 2 ^ k.
Proof. intros H. pose proof (pow2_pos k H). lia. Qed.

Lemma log2_bounds (n : Z) : 0 < n -> 2 ^ Z.log2 n <= n < 2 * 2 ^ Z.log2 n.
Proof.
  intros H. pose proof (Z.log2_spec n H) as S.
  rewrite Z.pow_succ_r in S by apply Z.log2_nonneg. exact S.
Qed.

Lemma below_mono (n d k k' : Z) :
  0 < n -> 0 < d -> k <= k' -> below (n, d) k -> below (n, d) k'.
Proof.
  unfold below. intros Hn Hd Hk.
  destruct (Z.geb_spec k 0) as [G1 | G1], (Z.geb_spec k' 0) as [G2 | G2];
    try lia; intros H.
  - replace k' with (k + (k' - k)) by lia.
    rewrite Z.pow_add_r by lia.
    pose proof (pow2_ge1 (k' - k) ltac:(lia)). pose proof (pow2_pos k ltac:(lia)).
    nia.
  - pose proof (pow2_ge1 (- k) ltac:(lia)). pose proof (pow2_ge1 k' ltac:(lia)).
    nia.
  - replace (- k) with (- k' + (k' - k)) in H by lia.
    rewrite Z.pow_add_r in H by lia.
    pose proof (pow2_ge1 (k' - k) ltac:(lia)). pose proof (pow2_pos (- k') ltac:(lia)).
    nia.
Qed.

Lemma below_mul2 (n d k j : Z) :
  0 < n -> 0 < d -> 0 <= k + j -> below (n, d) k ->
  fst (mul2 (n, d) j) < snd (mul2 (n, d) j) * 2 ^ (k + j).
Proof.
  unfold below, mul2. intros Hn Hd Hkj.
  destruct (Z.geb_spec k 0) as [G1 | G1], (Z.geb_spec j 0) as [G2 | G2];
    cbn [fst snd]; intros H.
  - rewrite Z.pow_add_r by lia.
    pose proof (pow2_pos j ltac:(lia)). nia.
  - assert (E : 2 ^ k = 2 ^ (- j) * 2 ^ (k + j))
      by (rewrite <- Z.pow_add_r by lia; f_equal; lia).
    rewrite E in H. lia.
  - assert (E : 2 ^ j = 2 ^ (- k) * 2 ^ (k + j))
      by (rewrite <- Z.pow_add_r by lia; f_equal; lia).
    rewrite E. pose proof (pow2_pos (k + j) ltac:(lia)). nia.
  - lia.
Qed.

Lemma below_floor_log2 (n d : Z) :
  0 < n -> 0 < d -> below (n, d) (floor_log2 (n, d) + 1).
Proof.
  intros Hn Hd. unfold floor_log2.
  pose proof (log2_bounds n Hn) as Bn. pose proof (log2_bounds d Hd) as Bd.
  pose proof (Z.log2_nonneg n) as Ln. pose proof (Z.log2_nonneg d) as Ld.
  set (ln := Z.log2 n) in *. set (ld := Z.log2 d) in *.
  unfold mul2.
  destruct (Z.geb_spec (- (ln - ld)) 0) as [Ha | Ha].
  - destruct (Z.ltb_spec (n * 2 ^ (- (ln - ld))) d) as [Hlt | Hge].
    + replace (ln - ld - 1 + 1) with (ln - ld) by lia. unfold below.
      destruct (Z.geb_spec (ln - ld) 0).
      * replace (ln - ld) with 0 in * by lia. cbn in *. lia.
      * exact Hlt.
    + unfold below. destruct (Z.geb_spec (ln - ld + 1) 0).
      * assert (E : ld = ln \/ ld = ln + 1) by lia.
        destruct E as [E | E]; rewrite E in *.
        -- replace (ln - ln + 1) with 1 by lia. cbn. lia.
        -- replace (ln - (ln + 1) + 1) with 0 by lia. cbn.
           rewrite Z.pow_add_r in Bd by lia. cbn in Bd. lia.
      * replace ld with (ln + 1 + (- (ln - ld + 1))) in Bd by lia.
        rewrite Z.pow_add_r in Bd by lia.
        rewrite Z.pow_add_r in Bd by lia. cbn in Bd.
        pose proof (pow2_pos (- (ln - ld + 1)) ltac:(lia)).
        pose proof (pow2_pos ln ltac:(lia)). nia.
  - destruct (Z.ltb_spec n (d * 2 ^ (- - (ln - ld)))) as [Hlt | Hge].
    + replace (ln - ld - 1 + 1) with (ln - ld) by lia. unfold below.
      destruct (Z.geb_spec (ln - ld) 0); [ | lia ].
      rewrite Z.opp_involutive in Hlt. exact Hlt.
    + unfold below. destruct (Z.geb_spec (ln - ld + 1) 0); [ | lia ].
      replace (ln - ld + 1) with ((ln - ld) + 1) by lia.
      rewrite Z.pow_add_r by lia. cbn.
      replace ln with (ld + (ln - ld)) in Bn by lia.
      rewrite Z.pow_add_r in Bn by lia.
      pose proof (pow2_pos (ln - ld) ltac:(lia)).
      pose proof (pow2_pos ld ltac:(lia)). nia.
Qed.

(** [round_half_even] gives an integer nearest to the rational, and the
    even one of the two when it lies half way between them. *)
Lemma round_half_even_nearest (n d : Z) :
  0 < d ->
  2 * Z.abs (n - round_half_even (n, d) * d) <= d
  /\ (2 * Z.abs (n - round_half_even (n, d) * d) = d ->
      Z.even (round_half_even (n, d)) = true).
Proof.
  intros Hd. unfold round_half_even.
  pose proof (Z.div_mod n d ltac:(lia)) as E.
  pose proof (Z.mod_pos_bound n d Hd) as B.
  destruct (Z.compare_spec (2 * (n mod d)) d) as [C | C | C].
  - destruct (Z.even (n / d)) eqn:Ev.
    + split; [ lia | intros _; exact Ev ].
    + split; [ lia | intros _ ].
      rewrite Z.even_add, Ev. reflexivity.
  - split; lia.
  - split; lia.
Qed.

Lemma round_half_even_bound (n d K : Z) :
  0 < n -> 0 < d -> n < d * K -> 0 <= round_half_even (n, d) <= K.
Proof.
  intros Hn Hd H. unfold round_half_even.
  assert (F : 0 <= n / d < K).
  { split; [ apply Z.div_pos; lia | apply Z.div_lt_upper_bound; lia ]. }
  destruct (2 * (n mod d) ?= d); [ destruct (Z.even (n / d)) | | ]; lia.
Qed.

Lemma round_half_even_exact (N D : Z) :
  0 < D -> round_half_even (N * D, D) = N.
Proof.
  intros HD. unfold round_half_even.
  rewrite Z.div_mul, Z.mod_mul by lia.
  destruct (Z.compare_spec (2 * 0) D); lia.
Qed.

Lemma odd_part_value (m : positive) :
  forall (e : Z) (m' : positive) (e' : Z),
    odd_part m e = (m', e') ->
    Z.odd (Zpos m') = true
    /\ exists j : Z, 0 <= j /\ e' = e + j /\ Zpos m = Zpos m' * 2 ^ j.
Proof.
  induction m as [m IH | m IH | ]; intros e m' e' H; cbn [odd_part] in H.
  - injection H as <- <-. split; [ reflexivity | ].
    exists 0. split; [ lia | split; [ lia | ] ]. cbn. lia.
  - destruct (IH (e + 1) m' e' H) as [Ho [j [Hj [He Hm]]]].
    split; [ exact Ho | ].
    exists (j + 1). split; [ lia | split; [ lia | ] ].
    rewrite Z.pow_add_r by lia. change (2 ^ 1) with 2.
    rewrite (Pos2Z.inj_xO m). lia.
  - injection H as <- <-. split; [ reflexivity | ].
    exists 0. split; [ lia | split; [ lia | ] ]. reflexivity.
Qed.

Lemma odd_part_shift (m : positive) (j : Z) :
  0 <= j -> Z.odd (Zpos m) = true ->
  forall (p : positive) (e : Z),
    Zpos p = Zpos m * 2 ^ j -> odd_part p e = (m, e + j).
Proof.
  intros Hj Ho. pattern j. apply natlike_ind; [ | | exact Hj ].
  - intros p e Hp. rewrite Z.mul_1_r in Hp. injection Hp as ->.
    replace (e + 0) with e by lia.
    destruct m; [ reflexivity | discriminate Ho | reflexivity ].
  - intros k Hk IH p e Hp.
    rewrite Z.pow_succ_r in Hp by lia.
    destruct p as [p | p | ].
    + rewrite Pos2Z.inj_xI in Hp. lia.
    + rewrite Pos2Z.inj_xO in Hp.
      cbn [odd_part]. rewrite (IH p (e + 1)) by lia. f_equal. lia.
    + pose proof (pow2_pos k Hk). pose proof (Pos2Z.is_pos m). nia.
Qed.

Lemma mul2_positive (n d k : Z) :
  0 < n -> 0 < d -> 0 < fst (mul2 (n, d) k) /\ 0 < snd (mul2 (n, d) k).
Proof.
  intros Hn Hd. unfold mul2.
  destruct (Z.geb_spec k 0); cbn [fst snd].
  - pose proof (pow2_pos k ltac:(lia)). nia.
  - pose proof (pow2_pos (- k) ltac:(lia)). nia.
Qed.

Lemma mul10_positive (n d k : Z) :
  0 < n -> 0 < d -> 0 < fst (mul10 (n, d) k) /\ 0 < snd (mul10 (n, d) k).
Proof.
  intros Hn Hd. unfold mul10.
  destruct (Z.geb_spec k 0); cbn [fst snd].
  - assert (0 < 10 ^ k) by (apply Z.pow_pos_nonneg; lia). nia.
  - assert (0 < 10 ^ (- k)) by (apply Z.pow_pos_nonneg; lia). nia.
Qed.

(** Rounding gives a value of the format. *)
Lemma round_in_format (flt : floatInfo) (neg : bool) (n d : Z) :
  0 <= mantbits flt -> 0 < n -> 0 < d ->
  in_format flt (fst (round flt neg (n, d))).
Proof.
  intros Hmb Hn Hd. unfold round.
  set (e := Z.max (floor_log2 (n, d) - mantbits flt)
                  (bias flt + 1 - mantbits flt)).
  pose proof (below_floor_log2 n d Hn Hd) as B.
  apply (below_mono n d _ (e + (mantbits flt + 1)) Hn Hd) in B;
    [ | unfold e; lia ].
  pose proof (below_mul2 n d (e + (mantbits flt + 1)) (- e) Hn Hd
                ltac:(lia) B) as M.
  replace (e + (mantbits flt + 1) + - e) with (mantbits flt + 1) in M by lia.
  destruct (mul2_positive n d (- e) Hn Hd) as [Pn Pd].
  destruct (mul2 (n, d) (- e)) as [n' d'] eqn:E. cbn [fst snd] in *.
  pose proof (round_half_even_bound n' d' _ Pn Pd M) as R.
  destruct (round_half_even (n', d')) as [ | m | m]; cbn [fst in_format]; auto.
  destruct (Z.geb_spec (Z.log2 (Zpos m) + e) (2 ^ expbits flt - 1 + bias flt));
    cbn [fst in_format]; auto.
  destruct (odd_part m e) as [m' e'] eqn:O. cbn [fst in_format].
  destruct (odd_part_value m e m' e' O) as [Ho [j [Hj [He Hm]]]].
  destruct (odd_part_spec m e m' e' O) as [_ Hl].
  split; [ exact Ho | split; [ unfold e in *; lia | split; [ | lia ] ] ].
  pose proof (pow2_pos j Hj) as Pj.
  destruct (Z.eq_dec j 0) as [-> | Hj0].
  - rewrite Z.mul_1_r in Hm. rewrite <- Hm.
    assert (Hne : Zpos m <> 2 ^ (mantbits flt + 1)).
    { intros Heq. rewrite Hm in Heq. rewrite Heq in Ho.
      rewrite Z.pow_add_r in Ho by lia. change (2 ^ 1) with 2 in Ho.
      rewrite Z.mul_comm, Z.odd_mul in Ho. discriminate Ho. }
    lia.
  - assert (2 <= 2 ^ j).
    { replace j with (1 + (j - 1)) by lia. rewrite Z.pow_add_r by lia.
      pose proof (pow2_pos (j - 1) ltac:(lia)). change (2 ^ 1) with 2. lia. }
    rewrite Z.pow_add_r in R by lia. change (2 ^ 1) with 2 in R.
    rewrite Z.pow_add_r by lia. change (2 ^ 1) with 2.
    pose proof (Pos2Z.is_pos m'). nia.
Qed.

Lemma floor_log2_exact (m : positive) (e : Z) :
  floor_log2 (mul2 (Zpos m, 1) e) = Z.log2 (Zpos m) + e.
Proof.
  pose proof (log2_bounds (Zpos m) (Pos2Z.is_pos m)) as B.
  pose proof (Z.log2_nonneg (Zpos m)) as L.
  set (l := Z.log2 (Zpos m)) in *.
  unfold mul2 at 1. destruct (Z.geb_spec e 0) as [He | He]; unfold floor_log2.
  - rewrite Z.log2_mul_pow2 by lia. change (Z.log2 1) with 0. fold l.
    replace (e + l - 0) with (l + e) by lia.
    unfold mul2. destruct (Z.geb_spec (- (l + e)) 0) as [Ha | Ha].
    + pose proof (pow2_ge1 e He). pose proof (pow2_ge1 (- (l + e)) Ha).
      destruct (Z.ltb_spec (Zpos m * 2 ^ e * 2 ^ (- (l + e))) 1);
        [ nia | reflexivity ].
    + rewrite Z.opp_involutive, Z.pow_add_r by lia.
      pose proof (pow2_pos e ltac:(lia)).
      destruct (Z.ltb_spec (Zpos m * 2 ^ e) (1 * (2 ^ l * 2 ^ e)));
        [ nia | reflexivity ].
  - rewrite Z.log2_mul_pow2 by lia. change (Z.log2 1) with 0. fold l.
    replace (l - (- e + 0)) with (l + e) by lia.
    unfold mul2. destruct (Z.geb_spec (- (l + e)) 0) as [Ha | Ha].
    + assert (E : 2 ^ (- e) = 2 ^ l * 2 ^ (- (l + e)))
        by (rewrite <- Z.pow_add_r by lia; f_equal; lia).
      rewrite E. pose proof (pow2_pos (- (l + e)) ltac:(lia)).
      destruct (Z.ltb_spec (Zpos m * 2 ^ (- (l + e)))
                  (1 * (2 ^ l * 2 ^ (- (l + e))))); [ nia | reflexivity ].
    + rewrite Z.opp_involutive.
      assert (E : 2 ^ (- e) * 2 ^ (l + e) = 2 ^ l)
        by (rewrite <- Z.pow_add_r by lia; f_equal; lia).
      rewrite <- Z.mul_assoc, E.
      destruct (Z.ltb_spec (Zpos m) (1 * 2 ^ l)); [ lia | reflexivity ].
Qed.

(** A value of the format rounds to itself. *)
Lemma round_of_in_format (flt : floatInfo) (neg neg' : bool)
    (m : positive) (e : Z) :
  0 <= mantbits flt -> in_format flt (Finite neg m e) ->
  round flt neg' (mul2 (Zpos m, 1) e) = (Finite neg' m e, false).
Proof.
  intros Hmb [Ho [Hmin [Hm Hmax]]]. unfold round.
  rewrite floor_log2_exact.
  pose proof (Z.log2_nonneg (Zpos m)) as L.
  assert (Hl : Z.log2 (Zpos m) <= mantbits flt).
  { apply Z.lt_succ_r. apply Z.log2_lt_pow2; [ lia | ].
    replace (Z.succ (mantbits flt)) with (mantbits flt + 1) by lia. exact Hm. }
  set (e2 := Z.max (Z.log2 (Zpos m) + e - mantbits flt)
                   (bias flt + 1 - mantbits flt)).
  assert (He2 : e2 <= e) by (unfold e2; lia).
  assert (R : round_half_even (mul2 (mul2 (Zpos m, 1) e) (- e2))
              = Zpos m * 2 ^ (e - e2)).
  { unfold mul2.
    destruct (Z.geb_spec e 0) as [He | He];
      destruct (Z.geb_spec (- e2) 0) as [Hk | Hk]; try lia.
    - replace (Zpos m * 2 ^ e * 2 ^ (- e2))
        with (Zpos m * 2 ^ (e - e2) * 1).
      + apply round_half_even_exact. lia.
      + replace (e - e2) with (e + - e2) by lia.
        rewrite Z.pow_add_r by lia. lia.
    - rewrite Z.opp_involutive.
      replace (Zpos m * 2 ^ e) with (Zpos m * 2 ^ (e - e2) * (1 * 2 ^ e2)).
      + apply round_half_even_exact. pose proof (pow2_pos e2 ltac:(lia)). lia.
      + replace e with (e - e2 + e2) at 2 by lia.
        rewrite Z.pow_add_r by lia. lia.
    - replace (Zpos m * 2 ^ (- e2))
        with (Zpos m * 2 ^ (e - e2) * (1 * 2 ^ (- e))).
      + apply round_half_even_exact. pose proof (pow2_pos (- e) ltac:(lia)). lia.
      + replace (- e2) with (e - e2 + - e) by lia.
        rewrite Z.pow_add_r by lia. lia. }
  rewrite R.
  pose proof (pow2_pos (e - e2) ltac:(lia)) as P.
  destruct (Zpos m * 2 ^ (e - e2)) as [ | p | p] eqn:Ep; try lia.
  assert (Hlog : Z.log2 (Zpos p) = Z.log2 (Zpos m) + (e - e2)).
  { rewrite <- Ep. rewrite Z.log2_mul_pow2 by lia. lia. }
  rewrite Hlog.
  destruct (Z.geb_spec (Z.log2 (Zpos m) + (e - e2) + e2)
              (2 ^ expbits flt - 1 + bias flt)); [ lia | ].
  rewrite (odd_part_shift m (e - e2) ltac:(lia) Ho p e2 (eq_sym Ep)).
  replace (e2 + (e - e2)) with e by lia. reflexivity.
Qed.

Lemma to32_in_format (x : float64) :
  in_format float32info x -> to32 x = x.
Proof.
  destruct x as [ | | | neg m e]; try reflexivity.
  intros H. unfold to32.
  rewrite (round_of_in_format float32info neg neg m e); [ reflexivity | | exact H ].
  cbn. lia.
Qed.

Lemma special_in_format (flt : floatInfo) (s : string) (f : float64) (n : Z) :
  special s = Some (f, n) -> in_format flt f.
Proof.
  unfold special.
  destruct s as [ | c r]; [ discriminate | ].
  repeat match goal with
    | |- context [if ?b then _ else _] => destruct b
    end;
    intros H; try discriminate H; injection H as <- _; exact I.
Qed.

(** [ParseFloat] returns a value of the format of its [bitSize]; at 32
    bits, a value that the conversion to 32 bits leaves as it is. *)
Lemma ParseFloat_in_format (s : string) (bitSize : Z) :
  in_format (if bitSize =? 32 then float32info else float64info)
    (fst (ParseFloat s bitSize)).
Proof.
  set (flt := if bitSize =? 32 then float32info else float64info).
  assert (Hmb : 0 <= mantbits flt)
    by (unfold flt; destruct (bitSize =? 32); cbn; lia).
  unfold ParseFloat, parseFloatPrefix. fold flt.
  destruct (special s) as [[f n] | ] eqn:Es.
  - pose proof (special_in_format flt s f n Es) as Hf.
    destruct (negb (n =? len s)); [ exact I | exact Hf ].
  - destruct (readFloat s) as [num | ]; [ | exact I ].
    assert (Hc : in_format flt (fst (convert flt num))).
    { unfold convert. destruct (num_mantissa num) as [ | m | m];
        try exact I.
      destruct (num_hex num).
      - destruct (mul2_positive (Zpos m) 1 (num_exp num)) as [P1 P2];
          try lia.
        destruct (mul2 (Zpos m, 1) (num_exp num)) as [n d].
        apply round_in_format; cbn in *; lia.
      - destruct (mul10_positive (Zpos m) 1 (num_exp num)) as [P1 P2];
          try lia.
        destruct (mul10 (Zpos m, 1) (num_exp num)) as [n d].
        apply round_in_format; cbn in *; lia. }
    destruct (convert flt num) as [f ovf]. cbn [fst] in Hc.
    destruct ovf; destruct (negb (num_len num =? len s));
      (exact I || exact Hc).
Qed.

Lemma ParseFloat_32 (s : string) :
  to32 (fst (ParseFloat s 32)) = fst (ParseFloat s 32).
Proof. apply to32_in_format. exact (ParseFloat_in_format s 32). Qed.

(** ** The precision-loss check (C2) *)

(** C2, as stated, fails: the specification's check accepts ["3.14"] at 32
    bits (read at either precision, its shortest decimal is [3.14]), but
    [NewFloat] rejects it with the precision-loss error, so that no
    constant is built and nothing is formatted as ["float 3.14"]: the value
    that [NewFloat] renders at 64 bits is the 32-bit value it has just
    read, whose shortest decimal of 64 bits is [3.140000104904175]. *)
Lemma C2_precision_check_counterexample :
  spec_precision_check "3.14" = true
  /\ NewFloat float32 "3.14" = Fail (FloatPrecisionLoss "3.14" types.Float32)
  /\ format_float float32 "3.14" <> Return "float 3.14"
  /\ (let x := fst (ParseFloat "3.14" 32) in
      @FormatFloat_g error x 32 = Return "3.14"
      /\ @FormatFloat_g error x 64 = Return "3.140000104904175").
Proof.
  split; [ vm_compute; reflexivity | ].
  split; [ vm_compute; reflexivity | ].
  split; [ vm_compute; discriminate | ].
  split; vm_compute; reflexivity.
Qed.

(** C2, amended: for the 32-bit floating point type, [NewFloat] reads the
    literal at 32 bits, which gives a value of the 32-bit format, and
    compares the shortest decimal of 32 bits of the value read with the
    shortest decimal of 64 bits of that same value (not of the literal read
    again at 64 bits).  Whenever the two texts differ it fails with the
    precision-loss error: so ["3.14"] and the 55-digit literal of the
    specification fail with [PrecisionLoss].  It returns the constant for
    a literal that denotes a value of the 32-bit format exactly and for
    which the two texts agree: so ["2.5"] succeeds and formats as
    ["float 2.5"].  (What it does with a literal that does not denote the
    value read, while the two texts agree, is not covered: the hypothesis
    [exact] keeps such literals out of what is stated.) *)
Theorem C2_precision_check :
  (forall (s : string) (x : float64),
      ParseFloat s 32 = (x, None) ->
      genericFtoa x float32info <> genericFtoa x float64info ->
      NewFloat float32 s = Fail (FloatPrecisionLoss s types.Float32))
  /\ (forall (s : string) (x : float64),
      ParseFloat s 32 = (x, None) ->
      exact s x ->
      genericFtoa x float32info = genericFtoa x float64info ->
      NewFloat float32 s = Return (mkFloat types.Float32 x))
  /\ (forall s : string, in_format float32info (fst (ParseFloat s 32)))
  /\ format_float float32 "2.5" = Return "float 2.5"
  /\ format_float float32 "2.0" = Return "float 2.0"
  /\ failure (NewFloat float32 "3.14") = Some PrecisionLoss
  /\ failure
       (NewFloat float32
          "0.1000000000000000055511151231257827021181583404541015625")
     = Some PrecisionLoss
  /\ format_float double "3.14" = Return "double 3.14".
Proof.
  assert (N : forall (s : string) (x : float64),
            ParseFloat s 32 = (x, None) ->
            NewFloat float32 s
            = if (genericFtoa x float32info =? genericFtoa x float64info)%string
              then Return (mkFloat types.Float32 x)
              else Fail (FloatPrecisionLoss s types.Float32)).
  { intros s x E. unfold NewFloat, float32.
    cbn [types.Float_Size Z.eqb Pos.eqb orb negb].
    pose proof (ParseFloat_32 s) as T. rewrite E in *. cbn [fst] in T.
    unfold FormatFloat_g, call, bind. cbn [Z.eqb Pos.eqb]. rewrite T.
    destruct (genericFtoa x float32info =? genericFtoa x float64info)%string;
      reflexivity. }
  split.
  - intros s x E D. rewrite (N s x E).
    destruct (genericFtoa x float32info =? genericFtoa x float64info)%string
      eqn:Q; [ | reflexivity ].
    apply String.eqb_eq in Q. exfalso. exact (D Q).
  - split.
    + intros s x E _ Q. rewrite (N s x E), Q, String.eqb_refl. reflexivity.
    + split; [ intros s; exact (ParseFloat_in_format s 32) | ].
      conjuncts; vm_compute; reflexivity.
Qed.

Lemma C2_precision_check_witness :
  NewFloat float32 "3.14" = Fail (FloatPrecisionLoss "3.14" types.Float32)
  /\ NewFloat float32 "2.5"
     = Return (mkFloat types.Float32 (fst (ParseFloat "2.5" 32))).
Proof.
  destruct C2_precision_check as [P1 [P2 _]].
  split.
  - apply (P1 "3.14" (fst (ParseFloat "3.14" 32))).
    + vm_compute. reflexivity.
    + vm_compute. discriminate.
  - apply (P2 "2.5" (fst (ParseFloat "2.5" 32))).
    + vm_compute. reflexivity.
    + vm_compute. split; [ reflexivity | split; [ reflexivity | ] ].
      split; reflexivity.
    + vm_compute. reflexivity.
Defined.

(** ** The two rewritings of [Float.String] *)

Lemma take_app (a b : string) : take (String.length a) (a ++ b) = a.
Proof. induction a as [ | c a IH]; cbn; [ destruct b | rewrite IH ]; reflexivity. Qed.

Lemma skip_app (a b : string) : skip (String.length a) (a ++ b) = b.
Proof. induction a as [ | c a IH]; cbn; [ reflexivity | exact IH ]. Qed.

Lemma ContainsRune_app (a b : string) (c : ascii) :
  ContainsRune (a ++ b) c = ContainsRune a c || ContainsRune b c.
Proof.
  induction a as [ | x a IH]; cbn; [ reflexivity | ].
  rewrite IH. apply orb_assoc.
Qed.

Lemma IndexByte_none (s : string) (c : ascii) :
  ContainsRune s c = false -> IndexByte s c = -1.
Proof.
  induction s as [ | x s IH]; cbn; [ reflexivity | ].
  destruct (Ascii.eqb x c); cbn; [ discriminate | ].
  intros H. rewrite (IH H). reflexivity.
Qed.

Lemma IndexByte_app (a b : string) (c : ascii) :
  ContainsRune a c = false ->
  IndexByte (a ++ String c b) c = Z.of_nat (String.length a).
Proof.
  induction a as [ | x a IH]; cbn [append IndexByte String.length ContainsRune].
  - rewrite Ascii.eqb_refl. reflexivity.
  - destruct (Ascii.eqb x c); cbn [orb]; [ discriminate | ].
    intros H. rewrite (IH H).
    destruct (Z.eqb_spec (Z.of_nat (String.length a)) (-1)); lia.
Qed.

(** A decimal point is inserted before the exponent marker, if there is
    one, and appended otherwise, when the text has none. *)
Lemma insert_point_spec :
  (forall s : string, ContainsRune s "." = true -> insert_point s = s)
  /\ (forall a b : string,
      ContainsRune a "." = false -> ContainsRune b "." = false ->
      ContainsRune a "e" = false ->
      insert_point (a ++ "e" ++ b) = a ++ ".0e" ++ b)
  /\ (forall s : string,
      ContainsRune s "." = false -> ContainsRune s "e" = false ->
      insert_point s = s ++ ".0").
Proof.
  split; [ | split ].
  - intros s H. unfold insert_point. rewrite H. reflexivity.
  - intros a b Ha Hb He. unfold insert_point.
    rewrite ContainsRune_app, Ha. cbn [append ContainsRune Ascii.eqb Bool.eqb orb].
    rewrite Hb. cbn [negb].
    rewrite IndexByte_app by exact He.
    destruct (Z.eqb_spec (Z.of_nat (String.length a)) (-1)); [ lia | ].
    cbn [negb]. rewrite Nat2Z.id, take_app, skip_app. reflexivity.
  - intros s Hp He. unfold insert_point. rewrite Hp. cbn [negb].
    rewrite IndexByte_none by exact He. reflexivity.
Qed.

Lemma count_plus_insert_point (s : string) :
  count_plus (insert_point s) = count_plus s.
Proof.
  unfold insert_point. destruct (negb (ContainsRune s ".")); [ | reflexivity ].
  destruct (negb (IndexByte s "e" =? -1)).
  - rewrite !count_plus_app.
    pose proof (count_plus_take_skip (Z.to_nat (IndexByte s "e")) s).
    cbn [count_plus Ascii.eqb Bool.eqb]. lia.
  - rewrite count_plus_app. cbn. lia.
Qed.

Lemma HasPrefix_plus (s : string) :
  HasPrefix s "+" = true -> (1 <= count_plus s)%nat.
Proof.
  destruct s as [ | c r]; cbn [HasPrefix]; [ discriminate | ].
  rewrite andb_true_r. intros H.
  apply Ascii.eqb_eq in H. subst c. cbn. lia.
Qed.

Lemma HasPrefix_e_plus (c : ascii) (r : string) :
  HasPrefix (String c r) "e+" = Ascii.eqb "e" c && HasPrefix r "+".
Proof. reflexivity. Qed.

(** After the plus signs of the exponents are dropped, a text that had
    one plus sign at most has no exponent marker followed by a plus sign. *)
Lemma Replace_from_no_plus (fuel : nat) :
  forall s : string,
    (String.length s <= fuel)%nat -> (count_plus s <= 1)%nat ->
    Contains (Replace_from fuel s "e+" "e") "e+" = false
    /\ (HasPrefix (Replace_from fuel s "e+" "e") "+" = true ->
        HasPrefix s "+" = true).
Proof.
  induction fuel as [ | fuel IH]; intros s Hlen Hc.
  - destruct s; [ split; [ reflexivity | auto ] | cbn in Hlen; lia ].
  - destruct s as [ | c r]; [ split; [ reflexivity | auto ] | ].
    cbn [Replace_from].
    destruct (HasPrefix (String c r) "e+") eqn:Hp;
      rewrite HasPrefix_e_plus in Hp.
    + apply andb_prop in Hp. destruct Hp as [Hce Hr].
      apply Ascii.eqb_eq in Hce. subst c.
      destruct r as [ | x r']; [ discriminate Hr | ].
      cbn [HasPrefix] in Hr. rewrite andb_true_r in Hr.
      apply Ascii.eqb_eq in Hr. subst x.
      cbn [String.length skip append].
      cbn [String.length] in Hlen.
      assert (Hc' : count_plus r' = O) by (cbn in Hc; lia).
      destruct (IH r' ltac:(lia) ltac:(lia)) as [IH1 IH2].
      split; [ | cbn; discriminate ].
      cbn [Contains]. rewrite IH1, orb_false_r.
      rewrite HasPrefix_e_plus. rewrite Ascii.eqb_refl. cbn [andb].
      destruct (HasPrefix (Replace_from fuel r' "e+" "e") "+") eqn:Hh;
        [ | reflexivity ].
      specialize (IH2 eq_refl). apply HasPrefix_plus in IH2. lia.
    + cbn [String.length] in Hlen.
      assert (Hcr : (count_plus r <= 1)%nat)
        by (cbn [count_plus] in Hc; destruct (Ascii.eqb c "+"); lia).
      destruct (IH r ltac:(lia) Hcr) as [IH1 IH2].
      split.
      * cbn [Contains]. rewrite IH1, orb_false_r.
        rewrite HasPrefix_e_plus.
        destruct (Ascii.eqb "e" c) eqn:Hce; [ | reflexivity ].
        cbn [andb] in *.
        destruct (HasPrefix (Replace_from fuel r "e+" "e") "+") eqn:Hh;
          [ | reflexivity ].
        rewrite (IH2 eq_refl) in Hp. discriminate Hp.
      * cbn [HasPrefix]. auto.
Qed.

(** A text with no exponent marker followed by a plus sign is left as it
    is. *)
Lemma Replace_from_none (fuel : nat) :
  forall s : string,
    Contains s "e+" = false -> Replace_from fuel s "e+" "e" = s.
Proof.
  induction fuel as [ | fuel IH]; intros s H; [ reflexivity | ].
  destruct s as [ | c r]; [ reflexivity | ].
  cbn [Replace_from]. cbn [Contains] in H.
  apply orb_false_elim in H. destruct H as [Hp Hr].
  rewrite Hp, (IH r Hr). reflexivity.
Qed.

Lemma ContainsRune_no_marker (s : string) :
  ContainsRune s "e" = false -> Contains s "e+" = false.
Proof.
  induction s as [ | c r IH]; [ reflexivity | ].
  cbn [ContainsRune Contains]. rewrite HasPrefix_e_plus.
  rewrite (Ascii.eqb_sym "e" c).
  destruct (Ascii.eqb c "e"); cbn [orb andb]; [ discriminate | exact IH ].
Qed.

Lemma Replace_from_marker (fuel : nat) (r : string) :
  Replace_from (S fuel) (String "e" (String "+" r)) "e+" "e"
  = String "e" (Replace_from fuel r "e+" "e").
Proof. reflexivity. Qed.

(** The plus sign after the exponent marker is removed. *)
Lemma drop_plus_spec :
  (forall s : string, Contains s "e+" = false -> drop_plus s = s)
  /\ (forall a b : string,
      ContainsRune a "e" = false -> Contains b "e+" = false ->
      drop_plus (a ++ "e+" ++ b) = a ++ "e" ++ b).
Proof.
  split.
  - intros s H. apply Replace_from_none. exact H.
  - intros a b Ha Hb. unfold drop_plus, Replace.
    change (a ++ "e+" ++ b) with (a ++ String "e" (String "+" b)).
    change (a ++ "e" ++ b) with (a ++ String "e" b).
    induction a as [ | c a IH].
    + change ("" ++ String "e" (String "+" b))
        with (String "e" (String "+" b)).
      change (String.length (String "e" (String "+" b)))
        with (S (S (String.length b))).
      rewrite Replace_from_marker, (Replace_from_none _ b Hb). reflexivity.
    + cbn [ContainsRune] in Ha. apply orb_false_elim in Ha.
      destruct Ha as [Hc Ha].
      change (String c a ++ String "e" (String "+" b))
        with (String c (a ++ String "e" (String "+" b))).
      change (String.length (String c (a ++ String "e" (String "+" b))))
        with (S (String.length (a ++ String "e" (String "+" b)))).
      cbn [Replace_from].
      rewrite HasPrefix_e_plus, (Ascii.eqb_sym "e" c), Hc. cbn [andb].
      rewrite (IH Ha). reflexivity.
Qed.

Lemma drop_plus_no_plus (s : string) :
  (count_plus s <= 1)%nat -> Contains (drop_plus s) "e+" = false.
Proof.
  intros H. unfold drop_plus, Replace.
  apply (Replace_from_no_plus (String.length s) s (Nat.le_refl _) H).
Qed.

(** ** The layout of the text of a finite value *)

(** The text of a constant of 32 or 64 bits: the type, a space and the
    text of the value. *)
Lemma Float_String_text (t : types.Float) (x : float64) :
  t = types.Float32 \/ t = types.Float64 ->
  Float_String (mkFloat t x)
  = Return (types.Float_String t ++ " "
            ++ Float_text (if types.Float_Size t =? 32 then to32 x else x)
                 (format_of t)).
Proof.
  intros [-> | ->]; unfold Float_String, Float_text, Float_Type;
    cbn [Float_typ Float_x types.Float_Size Z.eqb Pos.eqb orb format_of
         types.String types.Float_String];
    unfold FormatFloat_g; cbn [Z.eqb Pos.eqb call bind]; reflexivity.
Qed.

Lemma ContainsRune_insert_point (s : string) :
  ContainsRune (insert_point s) "." = true.
Proof.
  unfold insert_point. destruct (ContainsRune s ".") eqn:E; cbn [negb];
    [ exact E | ].
  destruct (negb (IndexByte s "e" =? -1)).
  - rewrite !ContainsRune_app. cbn. apply orb_true_r.
  - rewrite ContainsRune_app. cbn. apply orb_true_r.
Qed.

Lemma append_assoc (a b c : string) : (a ++ b) ++ c = a ++ (b ++ c).
Proof.
  induction a as [ | x a IH]; cbn [append]; [ reflexivity | ].
  rewrite IH. reflexivity.
Qed.

Lemma digit_char_chr (u : Z) : 0 <= u <= 9 -> digit_char u = chr (u + 48).
Proof.
  intros H.
  assert (C : u = 0 \/ u = 1 \/ u = 2 \/ u = 3 \/ u = 4 \/ u = 5 \/ u = 6
              \/ u = 7 \/ u = 8 \/ u = 9) by lia.
  repeat (destruct C as [-> | C]; [ reflexivity | ]).
  subst u. reflexivity.
Qed.

Lemma formatBits_step (fuel : nat) (u base : Z) (acc : string) :
  formatBits (S fuel) u base acc
  = if u <? base then String (digit_char u) acc
    else formatBits fuel (u / base) base (String (digit_char (u mod base)) acc).
Proof. reflexivity. Qed.

(** The digits that [%e] writes for an exponent are its decimal digits,
    with a zero before a single digit. *)
Lemma exponent_digits (a : Z) :
  0 <= a <= 999 ->
  (if a <? 10 then String "0" (String (chr (a + 48)) "")
   else if a <? 100
   then String (chr (a / 10 + 48)) (String (chr (a mod 10 + 48)) "")
   else String (chr (a / 100 + 48))
          (String (chr ((a / 10) mod 256 mod 10 + 48))
             (String (chr (a mod 10 + 48)) "")))
  = (if a <? 10 then "0" else "") ++ FormatInt a 10.
Proof.
  intros H. unfold FormatInt.
  destruct (Z.ltb_spec a 0) as [ | _]; [ lia | ].
  unfold uint64.
  rewrite (Z.mod_small a (2 ^ 64))
    by (change (2 ^ 64) with 18446744073709551616; lia).
  pose proof (Z.mod_pos_bound a 10 ltac:(lia)) as M.
  assert (D : 0 <= a / 10 <= 99)
    by (split; [ apply Z.div_pos; lia
               | apply Z.lt_succ_r, Z.div_lt_upper_bound; lia ]).
  rewrite formatBits_step.
  destruct (Z.ltb_spec a 10) as [L | L].
  - rewrite digit_char_chr by lia. reflexivity.
  - rewrite formatBits_step. cbn [append].
    destruct (Z.ltb_spec a 100) as [L2 | L2].
    + assert (a / 10 < 10) by (apply Z.div_lt_upper_bound; lia).
      destruct (Z.ltb_spec (a / 10) 10); [ | lia ].
      rewrite !digit_char_chr by lia. reflexivity.
    + assert (10 <= a / 10) by (apply Z.div_le_lower_bound; lia).
      destruct (Z.ltb_spec (a / 10) 10); [ lia | ].
      rewrite formatBits_step.
      pose proof (Z.mod_pos_bound (a / 10) 10 ltac:(lia)) as M2.
      assert (D2 : 0 <= a / 10 / 10 <= 9)
        by (split; [ apply Z.div_pos; lia
                   | apply Z.lt_succ_r, Z.div_lt_upper_bound; lia ]).
      destruct (Z.ltb_spec (a / 10 / 10) 10); [ | lia ].
      rewrite (Z.mod_small (a / 10) 256) by lia.
      rewrite Z.div_div by lia. rewrite Z.div_div in D2 by lia.
      change (10 * 10) with 100 in *.
      rewrite !digit_char_chr by lia. reflexivity.
Qed.

Lemma isdigit_plain (c : ascii) :
  isdigit c = true ->
  Ascii.eqb c "e" = false /\ Ascii.eqb c "." = false
  /\ Ascii.eqb c "+" = false.
Proof.
  intros H. pose proof (isdigit_range c H) as R.
  assert (N : forall x : ascii, byte x < 48 \/ 57 < byte x ->
                                Ascii.eqb c x = false).
  { intros x Hx. apply Ascii.eqb_neq. intros ->. lia. }
  split; [ | split ]; apply N; vm_compute; intuition congruence.
Qed.

Lemma all_digits_plain (s : string) :
  all_digits s = true ->
  ContainsRune s "e" = false /\ ContainsRune s "." = false
  /\ count_plus s = O.
Proof.
  induction s as [ | c r IH]; intros H; [ repeat split | ].
  cbn [all_digits] in H. apply andb_true_iff in H. destruct H as [Hc Hr].
  destruct (isdigit_plain c Hc) as (E1 & E2 & E3).
  destruct (IH Hr) as (I1 & I2 & I3).
  cbn [ContainsRune count_plus]. rewrite E1, E2, E3, I1, I2, I3.
  repeat split.
Qed.

Lemma all_digits_take (n : nat) :
  forall s : string, all_digits s = true -> all_digits (take n s) = true.
Proof.
  induction n as [ | n IH]; intros [ | c r] H; try reflexivity.
  cbn [all_digits take] in *. apply andb_true_iff in H. destruct H as [Hc Hr].
  rewrite Hc, (IH r Hr). reflexivity.
Qed.

Lemma all_digits_skip (n : nat) :
  forall s : string, all_digits s = true -> all_digits (skip n s) = true.
Proof.
  induction n as [ | n IH]; intros [ | c r] H; try reflexivity;
    try exact H.
  cbn [all_digits skip] in *. apply andb_true_iff in H. destruct H as [Hc Hr].
  exact (IH r Hr).
Qed.

Lemma all_digits_app (a b : string) :
  all_digits (a ++ b) = all_digits a && all_digits b.
Proof.
  induction a as [ | c a IH]; cbn [append all_digits]; [ reflexivity | ].
  rewrite IH, andb_assoc. reflexivity.
Qed.

Lemma all_digits_zeros (n : nat) : all_digits (zeros n) = true.
Proof. induction n as [ | n IH]; cbn; [ reflexivity | exact IH ]. Qed.

Lemma all_digits_tabulate (f : Z -> ascii) :
  (forall j : Z, isdigit (f j) = true) ->
  forall (n : nat) (i : Z), all_digits (tabulate n i f) = true.
Proof.
  intros Hf. induction n as [ | n IH]; intros i; cbn [tabulate all_digits];
    [ reflexivity | ].
  rewrite Hf, IH. reflexivity.
Qed.

Lemma all_digits_get (s : string) :
  all_digits s = true ->
  forall (n : nat) (c : ascii), String.get n s = Some c -> isdigit c = true.
Proof.
  induction s as [ | a r IH]; intros H n c; [ destruct n; discriminate | ].
  cbn [all_digits] in H. apply andb_true_iff in H. destruct H as [Ha Hr].
  destruct n as [ | n]; cbn [String.get].
  - intros [= <-]. exact Ha.
  - apply IH. exact Hr.
Qed.

Lemma isdigit_digit_at (digs : decimalSlice) (j : Z) :
  all_digits (d digs) = true -> isdigit (digit_at digs j) = true.
Proof.
  intros H. unfold digit_at.
  destruct ((0 <=? j) && (j <? nd10 digs)); [ | reflexivity ].
  destruct (String.get (Z.to_nat j) (d digs)) as [c | ] eqn:E;
    [ | reflexivity ].
  exact (all_digits_get (d digs) H _ _ E).
Qed.

Lemma all_digits_trim_zeros (s : string) :
  all_digits s = true -> all_digits (trim_zeros s) = true.
Proof.
  induction s as [ | c r IH]; cbn [trim_zeros all_digits]; [ reflexivity | ].
  intros H. apply andb_true_iff in H. destruct H as [Hc Hr].
  specialize (IH Hr).
  destruct (trim_zeros r) as [ | c' r'].
  - destruct (Ascii.eqb c "0"); cbn [all_digits]; [ reflexivity | ].
    rewrite Hc. reflexivity.
  - cbn [all_digits] in *. rewrite Hc. exact IH.
Qed.

Lemma isdigit_digit_char (u : Z) : u < 10 -> isdigit (digit_char u) = true.
Proof.
  intros H. unfold digit_char.
  assert (C : (Z.to_nat u < 10)%nat) by lia.
  generalize dependent (Z.to_nat u). intros n C.
  do 10 (destruct n as [ | n]; [ reflexivity | ]). lia.
Qed.

Lemma all_digits_formatBits (fuel : nat) :
  forall (u : Z) (acc : string),
    all_digits acc = true -> all_digits (formatBits fuel u 10 acc) = true.
Proof.
  induction fuel as [ | fuel IH]; intros u acc H; [ exact H | ].
  rewrite formatBits_step. destruct (Z.ltb_spec u 10) as [L | L].
  - cbn [all_digits]. rewrite isdigit_digit_char by lia. exact H.
  - apply IH. cbn [all_digits].
    pose proof (Z.mod_pos_bound u 10 ltac:(lia)).
    rewrite isdigit_digit_char by lia. exact H.
Qed.

Lemma all_digits_shortest (flt : floatInfo) (m : positive) (e : Z) :
  all_digits (d (shortest flt m e)) = true.
Proof.
  unfold shortest. cbv zeta.
  destruct (shortest_loop _ _ _ _ _ _) as [c n]. cbn [d].
  apply all_digits_trim_zeros, all_digits_formatBits. reflexivity.
Qed.

Lemma Contains_no_plus (s : string) :
  count_plus s = O -> Contains s "e+" = false.
Proof.
  induction s as [ | c r IH]; intros H; [ reflexivity | ].
  cbn [count_plus] in H.
  destruct (Ascii.eqb c "+") eqn:E; [ discriminate H | ].
  cbn [Contains]. rewrite HasPrefix_e_plus, (IH H), orb_false_r.
  destruct (HasPrefix r "+") eqn:P; [ | apply andb_false_r ].
  apply HasPrefix_plus in P. lia.
Qed.

Lemma all_digits_FormatInt (a : Z) : 0 <= a -> all_digits (FormatInt a 10) = true.
Proof.
  intros H. unfold FormatInt. destruct (Z.ltb_spec a 0); [ lia | ].
  apply all_digits_formatBits. reflexivity.
Qed.

(** [%f] writes a sign, digits and a point. *)
Lemma fmtF_plain (neg : bool) (digs : decimalSlice) (prec : Z) :
  all_digits (d digs) = true ->
  ContainsRune (fmtF neg digs prec) "e" = false
  /\ count_plus (fmtF neg digs prec) = O.
Proof.
  intros H. destruct (all_digits_plain _ H) as (_ & _ & Hp).
  split; [ | apply count_plus_fmtF; exact Hp ].
  unfold fmtF. cbv zeta. rewrite !ContainsRune_app.
  assert (S1 : ContainsRune (if neg then "-" else "") "e" = false)
    by (destruct neg; reflexivity).
  rewrite S1. cbn [orb].
  apply orb_false_iff. split.
  - destruct (dp10 digs >? 0); [ | reflexivity ].
    apply all_digits_plain. rewrite all_digits_app, all_digits_zeros.
    rewrite all_digits_take by exact H. reflexivity.
  - destruct (prec >? 0); [ | reflexivity ].
    rewrite ContainsRune_app. cbn [ContainsRune orb].
    change (Ascii.eqb "." "e") with false. cbn [orb].
    apply all_digits_plain, all_digits_tabulate.
    intros j. apply isdigit_digit_at. exact H.
Qed.

(** [%e] writes a sign, a digit, a point and digits if there are more,
    the marker, the sign of the exponent and its digits, two at least. *)
Lemma fmtE_shape (neg : bool) (digs : decimalSlice) (prec : Z) :
  all_digits (d digs) = true -> -998 <= dp10 digs <= 1000 ->
  let X := if nd10 digs =? 0 then 0 else dp10 digs - 1 in
  exists body : string,
    fmtE neg digs prec "e"
    = body ++ "e" ++ String (if X <? 0 then "-" else "+")
                       ((if Z.abs X <? 10 then "0" else "")
                        ++ FormatInt (Z.abs X) 10)
    /\ ContainsRune body "e" = false /\ count_plus body = O.
Proof.
  intros H Hdp X.
  set (first := String (if nd10 digs =? 0 then "0"%char else digit_at digs 0) "").
  set (frac := if prec >? 0 then
                 let m := Z.min (nd10 digs) (prec + 1) in
                 let i := if 1 <? m then m else 1 in
                 "." ++ (if 1 <? m then take (Z.to_nat (m - 1)) (skip 1 (d digs))
                         else "")
                     ++ zeros (Z.to_nat (prec + 1 - i))
               else "").
  exists ((if neg then "-" else "") ++ first ++ frac).
  assert (Hx : -999 <= X <= 999)
    by (unfold X; destruct (nd10 digs =? 0); lia).
  split; [ | split ].
  - unfold fmtE. fold first. fold frac. fold X.
    rewrite !append_assoc. do 3 f_equal.
    destruct (Z.ltb_spec X 0) as [L | L].
    + rewrite exponent_digits by lia.
      replace (Z.abs X) with (- X) by lia. reflexivity.
    + rewrite exponent_digits by lia.
      replace (Z.abs X) with X by lia. reflexivity.
  - assert (F1 : all_digits first = true).
    { unfold first. cbn [all_digits].
      destruct (nd10 digs =? 0); [ reflexivity | ].
      rewrite isdigit_digit_at by exact H. reflexivity. }
    rewrite !ContainsRune_app.
    destruct (all_digits_plain _ F1) as (-> & _ & _).
    assert (S1 : ContainsRune (if neg then "-" else "") "e" = false)
      by (destruct neg; reflexivity).
    rewrite S1. cbn [orb]. unfold frac.
    destruct (prec >? 0); [ | reflexivity ].
    cbv zeta. rewrite ContainsRune_app. cbn [ContainsRune orb].
    change (Ascii.eqb "." "e") with false. cbn [orb].
    apply all_digits_plain. rewrite all_digits_app, all_digits_zeros.
    destruct (1 <? Z.min (nd10 digs) (prec + 1)); [ | reflexivity ].
    rewrite all_digits_take by (apply all_digits_skip; exact H).
    reflexivity.
  - assert (F1 : all_digits first = true).
    { unfold first. cbn [all_digits].
      destruct (nd10 digs =? 0); [ reflexivity | ].
      rewrite isdigit_digit_at by exact H. reflexivity. }
    rewrite !count_plus_app.
    destruct (all_digits_plain _ F1) as (_ & _ & ->).
    assert (S1 : count_plus (if neg then "-" else "") = O)
      by (destruct neg; reflexivity).
    rewrite S1. unfold frac.
    destruct (prec >? 0); [ | reflexivity ].
    cbv zeta. rewrite count_plus_app. cbn [count_plus].
    change (Ascii.eqb "." "+") with false. cbv iota.
    apply all_digits_plain. rewrite all_digits_app, all_digits_zeros.
    destruct (1 <? Z.min (nd10 digs) (prec + 1)); [ | reflexivity ].
    rewrite all_digits_take by (apply all_digits_skip; exact H).
    reflexivity.
Qed.

Lemma insert_point_plain (s : string) :
  ContainsRune s "e" = false -> count_plus s = O ->
  ContainsRune (insert_point s) "e" = false
  /\ count_plus (insert_point s) = O.
Proof.
  intros He Hp. split; [ | rewrite count_plus_insert_point; exact Hp ].
  unfold insert_point. destruct (negb (ContainsRune s ".")); [ | exact He ].
  rewrite (IndexByte_none s "e" He).
  change (-1 =? -1) with true. cbn [negb].
  rewrite ContainsRune_app, He. reflexivity.
Qed.

(** The layout of the text of a finite value: the decision between the
    two layouts of ['g'], and the exponent. *)
Lemma Float_text_layout (flt : floatInfo) (neg : bool) (m : positive)
    (e : Z) :
  bounded (Finite neg m e) = true ->
  let digs := shortest flt m e in
  let X := dp10 digs - 1 in
  exists body : string,
    ContainsRune body "e" = false
    /\ ContainsRune body "." = true
    /\ Float_text (Finite neg m e) flt
       = if (X <? -4) || (X >=? 6)
         then body ++ "e" ++ exponent_text (if nd10 digs =? 0 then 0 else X)
         else body.
Proof.
  intros Hb digs X.
  pose proof (all_digits_shortest flt m e) as Hd. fold digs in Hd.
  destruct (shortest_digits flt m e Hb) as [_ Hdp]. fold digs in Hdp.
  destruct insert_point_spec as [P1 [P2 _]].
  destruct drop_plus_spec as [D1 D2].
  unfold Float_text, genericFtoa. fold digs.
  unfold formatDigits. cbv zeta. cbv iota. fold X.
  destruct ((X <? -4) || (X >=? 6)).
  - subst X. change (chr (byte "g" + 101 - 103)) with "e"%char.
    replace (if nd10 digs >? nd10 digs then nd10 digs else nd10 digs)
      with (nd10 digs) by (destruct (nd10 digs >? nd10 digs); reflexivity).
    destruct (fmtE_shape neg digs (nd10 digs - 1) Hd Hdp)
      as (body & -> & Be & Bp).
    set (X' := if nd10 digs =? 0 then 0 else dp10 digs - 1).
    set (E := (if Z.abs X' <? 10 then "0" else "") ++ FormatInt (Z.abs X') 10).
    assert (HE : all_digits E = true).
    { unfold E. rewrite all_digits_app, all_digits_FormatInt by lia.
      destruct (Z.abs X' <? 10); reflexivity. }
    destruct (all_digits_plain _ HE) as (Ee & Edot & Ep).
    set (ch := if X' <? 0 then "-"%char else "+"%char).
    assert (Cd : ContainsRune (String ch E) "." = false).
    { cbn [ContainsRune]. rewrite Edot.
      unfold ch. destruct (X' <? 0); reflexivity. }
    assert (I : exists pointed : string,
              insert_point (body ++ "e" ++ String ch E)
              = pointed ++ "e" ++ String ch E
              /\ ContainsRune pointed "e" = false
              /\ ContainsRune pointed "." = true
              /\ count_plus pointed = O).
    { destruct (ContainsRune body ".") eqn:Bd.
      - exists body. split; [ | auto ].
        apply P1. rewrite ContainsRune_app, Bd. reflexivity.
      - exists (body ++ ".0"). split.
        + rewrite (P2 body (String ch E) Bd Cd Be).
          rewrite append_assoc. reflexivity.
        + rewrite !ContainsRune_app, count_plus_app, Be, Bp, Bd.
          split; [ reflexivity | split; reflexivity ]. }
    destruct I as (pointed & -> & Pe & Pd & Pp).
    exists pointed. split; [ exact Pe | split; [ exact Pd | ] ].
    unfold exponent_text. fold E. unfold ch.
    destruct (X' <? 0).
    + change ("-" ++ E) with (String "-" E).
      apply D1, Contains_no_plus.
      rewrite !count_plus_app, Pp. cbn [count_plus].
      change (Ascii.eqb "e" "+") with false.
      change (Ascii.eqb "-" "+") with false. cbv iota.
      rewrite Ep. reflexivity.
    + exact (D2 pointed E Pe (ContainsRune_no_marker E Ee)).
  - replace (if nd10 digs >? dp10 digs then nd10 digs else nd10 digs)
      with (nd10 digs) by (destruct (nd10 digs >? dp10 digs); reflexivity).
    set (g := fmtF neg digs (Z.max (nd10 digs - dp10 digs) 0)).
    destruct (fmtF_plain neg digs (Z.max (nd10 digs - dp10 digs) 0) Hd)
      as [Ge Gp]. fold g in Ge, Gp.
    destruct (insert_point_plain g Ge Gp) as [Ie Ip].
    exists (insert_point g).
    split; [ exact Ie | split; [ apply ContainsRune_insert_point | ] ].
    apply D1, Contains_no_plus. exact Ip.
Qed.

(** ** The canonical text of a floating point constant (C7) *)

Lemma NewFloat_returns_bounded (typ : types.Ty) (s : string) (v : Float) :
  NewFloat typ s = Return v ->
  (Float_typ v = types.Float32 \/ Float_typ v = types.Float64)
  /\ bounded (Float_x v) = true.
Proof.
  intros H. pose proof (NewFloat_returns_size typ s v H) as Hsz.
  split.
  - destruct (Float_typ v); cbn in Hsz; auto; lia.
  - unfold NewFloat in H. destruct typ as [ | t | | ]; try discriminate.
    destruct ((types.Float_Size t =? 32) || (types.Float_Size t =? 64));
      [ | discriminate ].
    pose proof (ParseFloat_bounded s (types.Float_Size t)) as B.
    destruct (ParseFloat s (types.Float_Size t)) as [x [err | ]];
      [ discriminate | ].
    cbn [fst] in B.
    destruct (negb (types.Float_Size t =? 64)).
    + destruct (call (FormatFloat_g x (types.Float_Size t))) as [a | | ];
        cbn [bind] in H; try discriminate.
      destruct (call (FormatFloat_g x 64)) as [b | | ];
        cbn [bind] in H; try discriminate.
      destruct (negb (a =? b)%string); [ discriminate | ].
      injection H as <-. exact B.
    + injection H as <-. exact B.
Qed.

Lemma Float_String_no_plus (t : types.Float) (x : float64) (r : string) :
  t = types.Float32 \/ t = types.Float64 -> bounded x = true ->
  Float_String (mkFloat t x) = Return r -> Contains r "e+" = false.
Proof.
  intros Ht Hx. unfold Float_String. cbn [Float_typ Float_x].
  destruct Ht as [-> | ->]; cbn [types.Float_Size Z.eqb Pos.eqb orb];
    unfold FormatFloat_g; cbn [Z.eqb Pos.eqb call bind];
    intros [= <-]; cbn [Float_Type Float_typ types.String types.Float_String].
  - pose proof (drop_plus_no_plus
                  (insert_point (genericFtoa (to32 x) float32info))) as D.
    rewrite count_plus_insert_point in D.
    specialize (D (count_plus_genericFtoa _ _ (to32_bounded x))).
    cbn. rewrite D. reflexivity.
  - pose proof (drop_plus_no_plus
                  (insert_point (genericFtoa x float64info))) as D.
    rewrite count_plus_insert_point in D.
    specialize (D (count_plus_genericFtoa _ _ Hx)).
    cbn. rewrite D. reflexivity.
Qed.

(** C7, as stated, fails: the constant built from ["3e4"] for the type
    [double] formats as ["double 30000.0"], not as ["double 3.0e4"]: the
    shortest rendering of 30000 in the format ['g'] has no exponent. *)
Lemma C7_exponent_counterexample :
  format_float double "3e4" = Return "double 30000.0"
  /\ format_float double "3e4" <> Return "double 3.0e4".
Proof.
  split; [ vm_compute; reflexivity | vm_compute; discriminate ].
Qed.

(** C7, amended: the text of a floating point constant is the shortest
    rendering of its value in the format ['g'] of [FormatFloat], in which
    (1) a decimal point is inserted when there is none, before the
    exponent marker if there is one ([3e4] becomes [3.0e4]) and appended
    otherwise ([42] becomes [42.0]), and (2) the plus sign after an
    exponent marker is removed ([3.0e+4] becomes [3.0e4]); the text of a
    constant that [NewFloat] returned, and of any constant that holds a
    value of the range of the 64-bit format, never contains ["e+"].  The
    format ['g'] writes an exponent exactly when the decimal exponent of
    the shortest digits is below -4 or at least 6, and writes it with two
    digits at least: so the text of a finite value is a part with a point
    and without a marker, followed in that case, and in that case only, by
    the marker and the exponent.  The constant built from ["3e4"] formats
    as ["double 30000.0"], the one from ["3e10"] as ["double 3.0e10"], the
    one from ["1e6"] as ["double 1.0e06"]. *)
Theorem C7_float_canonical_text :
  (forall s : string, ContainsRune s "." = true -> insert_point s = s)
  /\ (forall a b : string,
      ContainsRune a "." = false -> ContainsRune b "." = false ->
      ContainsRune a "e" = false ->
      insert_point (a ++ "e" ++ b) = a ++ ".0e" ++ b)
  /\ (forall s : string,
      ContainsRune s "." = false -> ContainsRune s "e" = false ->
      insert_point s = s ++ ".0")
  /\ insert_point "3e4" = "3.0e4"
  /\ insert_point "42" = "42.0"
  /\ (forall s : string, Contains s "e+" = false -> drop_plus s = s)
  /\ (forall a b : string,
      ContainsRune a "e" = false -> Contains b "e+" = false ->
      drop_plus (a ++ "e+" ++ b) = a ++ "e" ++ b)
  /\ drop_plus "3.0e+4" = "3.0e4"
  /\ (forall (typ : types.Ty) (s : string) (v : Float) (r : string),
      NewFloat typ s = Return v -> Float_String v = Return r ->
      Contains r "e+" = false)
  /\ (forall (v : Float) (r : string),
      bounded (Float_x v) = true -> Float_String v = Return r ->
      Contains r "e+" = false)
  /\ (forall (t : types.Float) (x : float64),
      t = types.Float32 \/ t = types.Float64 ->
      Float_String (mkFloat t x)
      = Return (types.Float_String t ++ " "
                ++ Float_text (if types.Float_Size t =? 32 then to32 x else x)
                     (format_of t)))
  /\ (forall (flt : floatInfo) (neg : bool) (m : positive) (e : Z),
      bounded (Finite neg m e) = true ->
      let digs := shortest flt m e in
      let X := dp10 digs - 1 in
      exists body : string,
        ContainsRune body "e" = false
        /\ ContainsRune body "." = true
        /\ Float_text (Finite neg m e) flt
           = if (X <? -4) || (X >=? 6)
             then body ++ "e"
                  ++ exponent_text (if nd10 digs =? 0 then 0 else X)
             else body)
  /\ exponent_text 6 = "06" /\ exponent_text (-7) = "-07"
  /\ exponent_text 10 = "10" /\ exponent_text (-324) = "-324"
  /\ format_float double "3e4" = Return "double 30000.0"
  /\ format_float double "3e10" = Return "double 3.0e10"
  /\ format_float double "1e6" = Return "double 1.0e06"
  /\ format_float double "1e5" = Return "double 100000.0"
  /\ format_float double "999999" = Return "double 999999.0"
  /\ format_float double "1e-4" = Return "double 0.0001"
  /\ format_float double "1e-5" = Return "double 1.0e-05"
  /\ format_float double "2.5e+10" = Return "double 2.5e10"
  /\ format_float double "-2.5e10" = Return "double -2.5e10"
  /\ format_float double "1e-7" = Return "double 1.0e-07"
  /\ format_float double "42" = Return "double 42.0".
Proof.
  destruct insert_point_spec as [P1 [P2 P3]].
  destruct drop_plus_spec as [D1 D2].
  split; [ exact P1 | split; [ exact P2 | split; [ exact P3 | ] ] ].
  split; [ reflexivity | split; [ reflexivity | ] ].
  split; [ exact D1 | split; [ exact D2 | split; [ reflexivity | ] ] ].
  split.
  { intros typ s v r HN HS.
    destruct (NewFloat_returns_bounded typ s v HN) as [Ht Hx].
    destruct v as [t x]. cbn [Float_typ Float_x] in *.
    exact (Float_String_no_plus t x r Ht Hx HS). }
  split.
  { intros [t x] r Hx HS. cbn [Float_x] in Hx.
    destruct t; try discriminate HS;
      [ apply (Float_String_no_plus types.Float32 x r); auto
      | apply (Float_String_no_plus types.Float64 x r); auto ]. }
  split; [ exact Float_String_text | ].
  split; [ exact Float_text_layout | ].
  conjuncts; vm_compute; reflexivity.
Qed.

Lemma C7_float_canonical_text_witness :
  insert_point ("3" ++ "e" ++ "+10") = "3" ++ ".0e" ++ "+10"
  /\ Contains "double 2.5e10" "e+" = false
  /\ (exists body : string,
        ContainsRune body "e" = false
        /\ ContainsRune body "." = true
        /\ Float_text (Finite false 15625 6) float64info
           = body ++ "e" ++ exponent_text 6).
Proof.
  destruct C7_float_canonical_text
    as [_ [P2 [_ [_ [_ [_ [_ [_ [N [_ [_ [L _]]]]]]]]]]]].
  split; [ | split ].
  - apply (P2 "3" "+10"); reflexivity.
  - apply (N double "2.5e+10"
             (mkFloat types.Float64 (Finite false 48828125 9))
             "double 2.5e10"); vm_compute; reflexivity.
  - destruct (L float64info false 15625%positive 6) as (body & Be & Bd & T).
    + reflexivity.
    + exists body. split; [ exact Be | split; [ exact Bd | ] ].
      rewrite T. vm_compute. reflexivity.
Defined.

(* ================================================================== *)
(** * Further properties of the package *)

(** ** The value of an integer constant *)

(** What [NewInt] returns, for a width of one bit or more. *)
Lemma NewInt_returns (t : types.Int) (s : string) (v : Int) :
  1 <= types.Int_Size t -> NewInt (types.IntType t) s = Return v ->
  types.Int_Size t <= 64 /\ Int_typ v = t
  /\ (types.Int_Size t = 1 ->
      (((s = "1" \/ s = "true") /\ Int_x v = 1)
       \/ ((s = "0" \/ s = "false") /\ Int_x v = 0)))
  /\ (2 <= types.Int_Size t ->
      well_formed s = true /\ Int_x v = value s
      /\ in_range (types.Int_Size t) (value s) = true).
Proof.
  intros H1 H.
  assert (H64 : types.Int_Size t <= 64).
  { unfold NewInt in H.
    destruct (Z.gtb_spec (types.Int_Size t) 64); [ discriminate H | lia ]. }
  split; [ exact H64 | ].
  destruct (Z.eq_dec (types.Int_Size t) 1) as [E1 | E1].
  - unfold NewInt in H. rewrite E1 in H.
    cbn [Z.gtb Z.compare Pos.compare Pos.compare_cont Z.eqb Pos.eqb] in H.
    destruct (String.eqb_spec s "1"), (String.eqb_spec s "true"),
      (String.eqb_spec s "0"), (String.eqb_spec s "false");
      cbn [orb] in H; try discriminate H; injection H as <-;
      (split; [ reflexivity | split; [ intros _; cbn; tauto | lia ] ]).
  - destruct (String.eqb_spec s "true") as [-> | Kt].
    { rewrite NewInt_keyword in H by (lia || auto). discriminate H. }
    destruct (String.eqb_spec s "false") as [-> | Kf].
    { rewrite NewInt_keyword in H by (lia || auto). discriminate H. }
    rewrite NewInt_decimal in H by (lia || assumption).
    destruct (well_formed s) eqn:Hwf.
    + destruct (in_range (types.Int_Size t) (value s)) eqn:Hr;
        [ | discriminate H ].
      injection H as <-. cbn. repeat split; (reflexivity || lia || auto).
    + destruct (leading_magnitude s >? 2 ^ types.Int_Size t - 1);
        discriminate H.
Qed.

(** X2: the value of an integer constant fits its type: a constant that
    [NewInt] returned for a type of one bit holds 0 or 1, and one returned
    for a type of [w] bits, [2 <= w], holds a value of the two's-complement
    range [[-2^(w-1), 2^(w-1)-1]] (so [w <= 64] and the value is a 64-bit
    integer). *)
Theorem X2_int_value_fits (t : types.Int) (s : string) (v : Int)
    (Hw : 1 <= types.Int_Size t)
    (H : NewInt (types.IntType t) s = Return v) :
  types.Int_Size (Int_typ v) <= 64
  /\ (types.Int_Size (Int_typ v) = 1 -> Int_x v = 0 \/ Int_x v = 1)
  /\ (2 <= types.Int_Size (Int_typ v) ->
      - 2 ^ (types.Int_Size (Int_typ v) - 1) <= Int_x v
      <= 2 ^ (types.Int_Size (Int_typ v) - 1) - 1)
  /\ - 2 ^ 63 <= Int_x v < 2 ^ 63.
Proof.
  destruct (NewInt_returns t s v Hw H) as [H64 [-> [B D]]].
  split; [ exact H64 | ].
  assert (R : 2 <= types.Int_Size t ->
              - 2 ^ (types.Int_Size t - 1) <= Int_x v
              <= 2 ^ (types.Int_Size t - 1) - 1).
  { intros H2. destruct (D H2) as [_ [-> Hr]].
    unfold in_range in Hr. apply andb_prop in Hr. destruct Hr as [R1 R2].
    apply Z.leb_le in R1. apply Z.leb_le in R2. lia. }
  split; [ | split; [ exact R | ] ].
  - intros E1. destruct (B E1) as [[_ ->] | [_ ->]]; auto.
  - destruct (Z.eq_dec (types.Int_Size t) 1) as [E1 | E1].
    + destruct (B E1) as [[_ ->] | [_ ->]]; lia.
    + specialize (R ltac:(lia)).
      assert (2 ^ (types.Int_Size t - 1) <= 2 ^ 63)
        by (apply Z.pow_le_mono_r; lia).
      lia.
Qed.

Lemma X2_int_value_fits_witness :
  - 2 ^ (8 - 1) <= -128 <= 2 ^ (8 - 1) - 1.
Proof.
  destruct (X2_int_value_fits (types.mkInt 8) "-128"
              (mkInt (types.mkInt 8) (-128))) as [_ [_ [H _]]].
  - cbn. lia.
  - reflexivity.
  - apply H. cbn. lia.
Defined.

(** ** The text of an integer constant *)

Lemma Int_String_text (v : Int) :
  Int_String v = types.String (Int_Type v) ++ " " ++ Int_text v.
Proof. reflexivity. Qed.

(** What [NewInt] returns for the value text of a constant. *)
Lemma NewInt_of_text (t : types.Int) (x : Z) :
  1 <= types.Int_Size t <= 64 ->
  (types.Int_Size t = 1 -> x = 0 \/ x = 1) ->
  (2 <= types.Int_Size t -> in_range (types.Int_Size t) x = true) ->
  NewInt (types.IntType t) (Int_text (mkInt t x)) = Return (mkInt t x).
Proof.
  intros Hw B R. unfold Int_text. cbn [Int_typ Int_x].
  destruct (Z.eqb_spec (types.Int_Size t) 1) as [E1 | E1].
  - unfold NewInt. rewrite E1.
    destruct (B E1) as [-> | ->]; reflexivity.
  - specialize (R ltac:(lia)).
    pose proof (in_range_64 (types.Int_Size t) x ltac:(lia) R) as H64.
    destruct (FormatInt_canonical x H64) as [Hc Hv].
    assert (Hwf : well_formed (FormatInt x 10) = true).
    { unfold canonical in Hc. apply andb_prop in Hc. tauto. }
    destruct (well_formed_not_keyword _ Hwf) as [K1 K2].
    rewrite NewInt_decimal, Hwf, Hv, R by (lia || assumption).
    reflexivity.
Qed.

(** X3: the text of an integer constant reads back as the constant: for a
    constant [v] that [NewInt] returned (for a type of one bit or more),
    [String] writes the type, a space and a value text, and [NewInt], given
    the type of [v] and that value text, returns [v]. *)
Theorem X3_int_text_reads_back (t : types.Int) (s : string) (v : Int)
    (Hw : 1 <= types.Int_Size t)
    (H : NewInt (types.IntType t) s = Return v) :
  Int_String v = types.String (Int_Type v) ++ " " ++ Int_text v
  /\ NewInt (Int_Type v) (Int_text v) = Return v.
Proof.
  split; [ reflexivity | ].
  destruct (NewInt_returns t s v Hw H) as [H64 [Ht [B D]]].
  destruct v as [t' x]. cbn [Int_typ Int_x] in *. subst t'.
  unfold Int_Type. cbn [Int_typ].
  apply NewInt_of_text; [ lia | | ].
  - intros E1. destruct (B E1) as [[_ ->] | [_ ->]]; auto.
  - intros H2. destruct (D H2) as [_ [-> Hr]]. exact Hr.
Qed.

Lemma X3_int_text_reads_back_witness :
  NewInt i32 (Int_text (mkInt (types.mkInt 32) 13))
  = Return (mkInt (types.mkInt 32) 13)
  /\ NewInt i1 (Int_text (mkInt (types.mkInt 1) 1))
     = Return (mkInt (types.mkInt 1) 1).
Proof.
  split.
  - apply (X3_int_text_reads_back (types.mkInt 32) "+013"
             (mkInt (types.mkInt 32) 13)); [ cbn; lia | reflexivity ].
  - apply (X3_int_text_reads_back (types.mkInt 1) "1"
             (mkInt (types.mkInt 1) 1)); [ cbn; lia | reflexivity ].
Defined.

(** ** Distinct integer constants have distinct texts *)

Lemma digit_char_no_space (u : Z) : Ascii.eqb (digit_char u) " " = false.
Proof.
  unfold digit_char. generalize (Z.to_nat u) as n. intros n.
  do 37 (destruct n as [ | n]; [ reflexivity | ]).
  reflexivity.
Qed.

Lemma formatBits_no_space (fuel : nat) :
  forall (u base : Z) (acc : string),
    ContainsRune (formatBits fuel u base acc) " " = ContainsRune acc " ".
Proof.
  induction fuel as [ | fuel IH]; intros u base acc; [ reflexivity | ].
  cbn [formatBits]. destruct (u <? base).
  - cbn [ContainsRune]. rewrite digit_char_no_space. reflexivity.
  - rewrite IH. cbn [ContainsRune]. rewrite digit_char_no_space. reflexivity.
Qed.

Lemma FormatInt_no_space (x : Z) : ContainsRune (FormatInt x 10) " " = false.
Proof.
  unfold FormatInt. destruct (x <? 0); cbn [ContainsRune];
    rewrite formatBits_no_space; reflexivity.
Qed.

(** Two texts cut at their first space. *)
Lemma append_space_inj (a : string) :
  forall a' b b' : string,
    ContainsRune a " " = false -> ContainsRune a' " " = false ->
    a ++ String " " b = a' ++ String " " b' -> a = a' /\ b = b'.
Proof.
  induction a as [ | c a IH]; intros a' b b' Ha Ha' E.
  - destruct a' as [ | c' a']; cbn in E.
    + injection E as <-. auto.
    + injection E as <- _. cbn in Ha'. discriminate Ha'.
  - destruct a' as [ | c' a']; cbn in E.
    + injection E as -> _. cbn in Ha. discriminate Ha.
    + injection E as <- E. cbn [ContainsRune] in Ha, Ha'.
      apply orb_false_elim in Ha. apply orb_false_elim in Ha'.
      destruct (IH a' b b') as [-> ->]; tauto.
Qed.

Lemma FormatInt_inj (x y : Z) :
  - 2 ^ 63 <= x < 2 ^ 63 -> - 2 ^ 63 <= y < 2 ^ 63 ->
  FormatInt x 10 = FormatInt y 10 -> x = y.
Proof.
  intros Hx Hy E.
  destruct (FormatInt_canonical x Hx) as [_ Vx].
  destruct (FormatInt_canonical y Hy) as [_ Vy].
  rewrite <- Vx, <- Vy, E. reflexivity.
Qed.

(** X4: distinct integer constants have distinct texts: two constants that
    [NewInt] returned (for types of one bit or more, equal or not) and that
    [String] renders as the same text are the same constant, type and
    value. *)
Theorem X4_int_string_injective
    (t1 t2 : types.Int) (s1 s2 : string) (v1 v2 : Int)
    (Hw1 : 1 <= types.Int_Size t1) (Hw2 : 1 <= types.Int_Size t2)
    (H1 : NewInt (types.IntType t1) s1 = Return v1)
    (H2 : NewInt (types.IntType t2) s2 = Return v2)
    (E : Int_String v1 = Int_String v2) :
  v1 = v2.
Proof.
  destruct (NewInt_returns t1 s1 v1 Hw1 H1) as [L1 [T1 [B1 D1]]].
  destruct (NewInt_returns t2 s2 v2 Hw2 H2) as [L2 [T2 [B2 D2]]].
  destruct v1 as [t1' x1], v2 as [t2' x2]. cbn [Int_typ Int_x] in *.
  subst t1' t2'.
  unfold Int_String, Int_Type in E. cbn [Int_typ Int_x types.String] in E.
  unfold types.Int_String in E.
  cbn [append] in E. injection E as E.
  change (strconv.FormatInt (types.Int_Size t1) 10 ++ String " "
            (if types.Int_Size t1 =? 1
             then if x1 =? 1 then "true" else "false"
             else FormatInt x1 10)
          = strconv.FormatInt (types.Int_Size t2) 10 ++ String " "
            (if types.Int_Size t2 =? 1
             then if x2 =? 1 then "true" else "false"
             else FormatInt x2 10)) in E.
  apply append_space_inj in E; try apply FormatInt_no_space.
  destruct E as [Et Ex].
  change (2 ^ 63) with 9223372036854775808 in *.
  apply FormatInt_inj in Et;
    try (change (2 ^ 63) with 9223372036854775808; lia).
  assert (t1 = t2) by (destruct t1, t2; cbn in Et; congruence). subst t2.
  f_equal.
  destruct (Z.eqb_spec (types.Int_Size t1) 1) as [E1 | E1].
  - destruct (B1 E1) as [[_ ->] | [_ ->]], (B2 E1) as [[_ ->] | [_ ->]];
      (reflexivity || discriminate Ex).
  - destruct (D1 ltac:(lia)) as [_ [V1 R1]], (D2 ltac:(lia)) as [_ [V2 R2]].
    rewrite <- V1 in R1. rewrite <- V2 in R2.
    apply FormatInt_inj; [ | | exact Ex ].
    + apply (in_range_64 (types.Int_Size t1)); [ lia | exact R1 ].
    + apply (in_range_64 (types.Int_Size t1)); [ lia | exact R2 ].
Qed.

Lemma X4_int_string_injective_witness :
  mkInt (types.mkInt 32) 13 = mkInt (types.mkInt 32) 13.
Proof.
  apply (X4_int_string_injective (types.mkInt 32) (types.mkInt 32)
           "13" "+013"); (cbn; lia) || reflexivity.
Defined.

(** ** Widths and signs of integer literals *)

Lemma in_range_wider (w w' x : Z) :
  1 <= w <= w' -> in_range w x = true -> in_range w' x = true.
Proof.
  unfold in_range. intros Hw H. apply andb_prop in H. destruct H as [H1 H2].
  apply Z.leb_le in H1. apply Z.leb_le in H2.
  assert (2 ^ (w - 1) <= 2 ^ (w' - 1)) by (apply Z.pow_le_mono_r; lia).
  apply andb_true_intro. split; apply Z.leb_le; lia.
Qed.

(** X5: a literal that fits a width fits every larger one: if [NewInt]
    returns a constant for a literal and a type of [w] bits, [2 <= w], it
    returns a constant of the same value for that literal and any type of
    [w'] bits, [w <= w' <= 64]. *)
Theorem X5_int_wider_type (t t' : types.Int) (s : string) (v : Int)
    (Hw : 2 <= types.Int_Size t)
    (Hw' : types.Int_Size t <= types.Int_Size t' <= 64)
    (H : NewInt (types.IntType t) s = Return v) :
  NewInt (types.IntType t') s = Return (mkInt t' (Int_x v)).
Proof.
  destruct (NewInt_returns t s v ltac:(lia) H) as [_ [_ [_ D]]].
  destruct (D Hw) as [Hwf [-> Hr]].
  destruct (well_formed_not_keyword s Hwf) as [K1 K2].
  rewrite NewInt_decimal, Hwf by (lia || assumption).
  rewrite (in_range_wider (types.Int_Size t) (types.Int_Size t') (value s))
    by (lia || assumption).
  reflexivity.
Qed.

Lemma X5_int_wider_type_witness :
  NewInt i32 "-128" = Return (mkInt (types.mkInt 32) (-128)).
Proof.
  apply (X5_int_wider_type (types.mkInt 8) (types.mkInt 32) "-128"
           (mkInt (types.mkInt 8) (-128))); (cbn; lia) || reflexivity.
Defined.

Lemma well_formed_digits (s : string) :
  (s =? "")%string = false -> all_digits s = true ->
  unsigned_part s = s /\ negative s = false.
Proof.
  destruct s as [ | c r]; [ discriminate | ].
  intros _ H. cbn in H. apply andb_prop in H. destruct H as [Hc _].
  destruct (isdigit_not_sign c Hc) as [Hp Hm].
  cbn. rewrite Hp, Hm. auto.
Qed.

(** X6: the sign of an integer literal.  For a type of [w] bits,
    [2 <= w <= 64], and a literal [s] of digits only: a plus sign before
    [s] changes nothing; a minus sign before [s] gives the constant of the
    opposite value whenever [s] itself is accepted; and the one literal
    accepted with a minus sign but not without is that of [2^(w-1)]: the
    range is not symmetric. *)
Theorem X6_int_sign (t : types.Int) (s : string)
    (Hw : 2 <= types.Int_Size t <= 64)
    (Hne : s <> "") (Hs : all_digits s = true) :
  NewInt (types.IntType t) (String "+" s) =
    match NewInt (types.IntType t) s with
    | Return v => Return v
    | Fail _ =>
        Fail (UnparsableInt (String "+" s)
                (mkNumError "ParseInt" (String "+" s) ErrRange))
    | Panic p => Panic p
    end
  /\ (forall v : Int,
      NewInt (types.IntType t) s = Return v ->
      NewInt (types.IntType t) (String "-" s) = Return (mkInt t (- Int_x v)))
  /\ (forall v : Int,
      NewInt (types.IntType t) (String "-" s) = Return v ->
      returns (NewInt (types.IntType t) s) = false ->
      Int_x v = - 2 ^ (types.Int_Size t - 1)).
Proof.
  assert (Hne' : (s =? "")%string = false)
    by (apply String.eqb_neq; exact Hne).
  destruct (well_formed_digits s Hne' Hs) as [Hu Hn].
  assert (Wf : well_formed s = true)
    by (unfold well_formed; rewrite Hu, Hne', Hs; reflexivity).
  assert (Wp : well_formed (String "+" s) = true)
    by (unfold well_formed; cbn; rewrite Hne', Hs; reflexivity).
  assert (Wm : well_formed (String "-" s) = true)
    by (unfold well_formed; cbn; rewrite Hne', Hs; reflexivity).
  assert (Vs : value s = digits_value 0 s)
    by (unfold value; rewrite Hu, Hn; reflexivity).
  assert (Vp : value (String "+" s) = value s)
    by (rewrite Vs; reflexivity).
  assert (Vm : value (String "-" s) = - value s)
    by (rewrite Vs; reflexivity).
  destruct (well_formed_not_keyword s Wf) as [K1 K2].
  destruct (well_formed_not_keyword _ Wp) as [P1 P2].
  destruct (well_formed_not_keyword _ Wm) as [M1 M2].
  pose proof (digits_value_ge s 0 Hs (Z.le_refl 0)) as Pos.
  rewrite <- Vs in Pos.
  rewrite !NewInt_decimal by (lia || assumption).
  rewrite Wf, Wp, Wm, Vp, Vm.
  unfold in_range.
  assert (P : 0 < 2 ^ (types.Int_Size t - 1))
    by (apply Z.pow_pos_nonneg; lia).
  split; [ | split ].
  - destruct ((- 2 ^ (types.Int_Size t - 1) <=? value s)
              && (value s <=? 2 ^ (types.Int_Size t - 1) - 1)); reflexivity.
  - intros v.
    destruct (Z.leb_spec (- 2 ^ (types.Int_Size t - 1)) (value s)); [ | lia ].
    destruct (Z.leb_spec (value s) (2 ^ (types.Int_Size t - 1) - 1));
      cbn [andb]; [ | discriminate ].
    intros [= <-]. cbn [Int_x].
    destruct (Z.leb_spec (- 2 ^ (types.Int_Size t - 1)) (- value s)); [ | lia ].
    destruct (Z.leb_spec (- value s) (2 ^ (types.Int_Size t - 1) - 1));
      [ reflexivity | lia ].
  - intros v.
    destruct (Z.leb_spec (- 2 ^ (types.Int_Size t - 1)) (- value s));
      cbn [andb]; [ | discriminate ].
    destruct (Z.leb_spec (- value s) (2 ^ (types.Int_Size t - 1) - 1));
      [ | discriminate ].
    intros [= <-]. cbn [Int_x].
    destruct (Z.leb_spec (- 2 ^ (types.Int_Size t - 1)) (value s)); [ | lia ].
    destruct (Z.leb_spec (value s) (2 ^ (types.Int_Size t - 1) - 1));
      cbn [andb returns]; [ discriminate | ].
    intros _. lia.
Qed.

Lemma X6_int_sign_witness :
  NewInt i8 "-128" = Return (mkInt (types.mkInt 8) (- 128))
  /\ NewInt i8 "+127" = Return (mkInt (types.mkInt 8) 127)
  /\ NewInt i8 "-127" = Return (mkInt (types.mkInt 8) (- 127)).
Proof.
  destruct (X6_int_sign (types.mkInt 8) "127") as [Hp [Hm _]].
  - cbn. lia.
  - discriminate.
  - reflexivity.
  - split; [ reflexivity | split ].
    + exact Hp.
    + exact (Hm (mkInt (types.mkInt 8) 127) eq_refl).
Defined.

(** ** The text of a floating point constant *)

(** What [NewFloat] returns: a value that [ParseFloat] read without an
    error at the size of the type, and that, at 32 bits, has the same
    shortest decimal at both sizes. *)
Lemma NewFloat_returns (typ : types.Ty) (s : string) (v : Float) :
  NewFloat typ s = Return v ->
  typ = types.FloatType (Float_typ v)
  /\ (Float_typ v = types.Float32 \/ Float_typ v = types.Float64)
  /\ ParseFloat s (types.Float_Size (Float_typ v)) = (Float_x v, None)
  /\ (Float_typ v = types.Float32 ->
      genericFtoa (Float_x v) float32info = genericFtoa (Float_x v) float64info).
Proof.
  intros H. unfold NewFloat in H.
  destruct typ as [ | t | | ]; try discriminate H.
  destruct t; cbn [types.Float_Size Z.eqb Pos.eqb orb negb] in H;
    [ discriminate H | | | discriminate H | discriminate H | discriminate H ].
  - pose proof (ParseFloat_32 s) as T32.
    destruct (ParseFloat s 32) as [x [err | ]] eqn:EP; [ discriminate H | ].
    cbn [fst] in T32.
    unfold FormatFloat_g, call, bind in H. cbn [Z.eqb Pos.eqb] in H.
    rewrite T32 in H.
    destruct (genericFtoa x float32info =? genericFtoa x float64info)%string
      eqn:Eq; cbn [negb] in H; [ | discriminate H ].
    injection H as <-. cbn [Float_typ Float_x types.Float_Size].
    apply String.eqb_eq in Eq.
    split; [ reflexivity | split; [ left; reflexivity | ] ].
    split; [ exact EP | intros _; exact Eq ].
  - destruct (ParseFloat s 64) as [x [err | ]] eqn:EP; [ discriminate H | ].
    injection H as <-. cbn [Float_typ Float_x types.Float_Size].
    split; [ reflexivity | split; [ right; reflexivity | ] ].
    split; [ exact EP | intros Hc; discriminate Hc ].
Qed.

Lemma ContainsRune_Replace_from (fuel : nat) :
  forall s : string,
    ContainsRune (Replace_from fuel s "e+" "e") "."
    = ContainsRune s ".".
Proof.
  induction fuel as [ | fuel IH]; intros s; [ reflexivity | ].
  destruct s as [ | c r]; [ reflexivity | ].
  cbn [Replace_from].
  destruct (HasPrefix (String c r) "e+") eqn:Hp;
    rewrite HasPrefix_e_plus in Hp.
  - apply andb_prop in Hp. destruct Hp as [Hc Hr].
    apply Ascii.eqb_eq in Hc. subst c.
    destruct r as [ | x r']; [ discriminate Hr | ].
    cbn [HasPrefix] in Hr. rewrite andb_true_r in Hr.
    apply Ascii.eqb_eq in Hr. subst x.
    cbn [String.length skip append ContainsRune]. rewrite IH. reflexivity.
  - cbn [ContainsRune]. rewrite IH. reflexivity.
Qed.

(** X7: the text of a floating point constant has a decimal point: for
    every constant of a type of 32 or 64 bits, whatever value it holds,
    [String] returns the type, a space and a value text that contains a
    ['.'], so that it is never the text of an integer. *)
Theorem X7_float_text_has_point (v : Float)
    (Ht : Float_typ v = types.Float32 \/ Float_typ v = types.Float64) :
  exists text : string,
    Float_String v = Return (types.Float_String (Float_typ v) ++ " " ++ text)
    /\ ContainsRune text "." = true.
Proof.
  destruct v as [t x]. cbn [Float_typ] in *.
  eexists. split; [ apply Float_String_text; exact Ht | ].
  unfold Float_text, drop_plus, Replace.
  rewrite ContainsRune_Replace_from. apply ContainsRune_insert_point.
Qed.

Lemma X7_float_text_has_point_witness :
  exists text : string,
    Float_String (mkFloat types.Float64 (Finite false 21 1))
    = Return ("double" ++ " " ++ text)
    /\ ContainsRune text "." = true.
Proof.
  apply (X7_float_text_has_point (mkFloat types.Float64 (Finite false 21 1))).
  right. reflexivity.
Defined.

(** X8: the value of a floating point constant is a value of its type: a
    constant that [NewFloat] returned for the type [float] holds a value of
    the 32-bit format, and one returned for [double] a value of the 64-bit
    format (an odd mantissa of at most 24, or 53, bits times a power of two
    within the exponents of the format), an infinity, a zero or NaN. *)
Theorem X8_float_value_of_type (typ : types.Ty) (s : string) (v : Float)
    (H : NewFloat typ s = Return v) :
  in_format (format_of (Float_typ v)) (Float_x v)
  /\ (Float_typ v = types.Float32 -> to32 (Float_x v) = Float_x v).
Proof.
  destruct (NewFloat_returns typ s v H) as [_ [Ht [HP _]]].
  assert (F : in_format (format_of (Float_typ v)) (Float_x v)).
  { pose proof (ParseFloat_in_format s (types.Float_Size (Float_typ v))) as F.
    rewrite HP in F. cbn [fst] in F.
    destruct Ht as [E | E]; rewrite E in *; exact F. }
  split; [ exact F | ].
  intros E. rewrite E in F. apply to32_in_format. exact F.
Qed.

Lemma X8_float_value_of_type_witness :
  in_format float32info (Finite false 5 (-1)).
Proof.
  apply (X8_float_value_of_type float32 "2.5"
           (mkFloat types.Float32 (Finite false 5 (-1)))).
  vm_compute. reflexivity.
Defined.

(** X9: what the precision check of [NewFloat] secures: a constant that
    [NewFloat] returned for the type [float] has the value text of the
    [double] constant of the same value: both are rendered with the same
    digits. *)
Theorem X9_float_text_as_double (s : string) (v : Float)
    (H : NewFloat float32 s = Return v) :
  exists text : string,
    Float_String v = Return ("float " ++ text)
    /\ Float_String (mkFloat types.Float64 (Float_x v))
       = Return ("double " ++ text).
Proof.
  destruct (NewFloat_returns float32 s v H) as [Et [_ [_ G]]].
  injection Et as Et. destruct v as [t x].
  cbn [Float_typ Float_x] in *. subst t.
  pose proof (ParseFloat_in_format s 32) as F.
  destruct (NewFloat_returns float32 s (mkFloat types.Float32 x) H)
    as [_ [_ [HP _]]].
  cbn [Float_typ Float_x types.Float_Size] in HP.
  rewrite HP in F. cbn [fst] in F. change (32 =? 32) with true in F.
  cbv iota in F.
  exists (Float_text x float64info). split.
  - rewrite Float_String_text by (left; reflexivity).
    cbn [types.Float_Size Z.eqb Pos.eqb format_of types.Float_String].
    rewrite (to32_in_format x F).
    unfold Float_text. rewrite (G eq_refl). reflexivity.
  - reflexivity.
Qed.

Lemma X9_float_text_as_double_witness :
  exists text : string,
    Float_String (mkFloat types.Float32 (Finite false 5 (-1)))
    = Return ("float " ++ text)
    /\ Float_String (mkFloat types.Float64 (Finite false 5 (-1)))
       = Return ("double " ++ text).
Proof.
  apply (X9_float_text_as_double "2.5"
           (mkFloat types.Float32 (Finite false 5 (-1)))).
  vm_compute. reflexivity.
Defined.

(** ** Infinities and NaN have a text that does not read back *)

(** X10: the text of a constant that holds an infinity or NaN is the
    type followed by [+Inf.0], [-Inf.0] or [NaN.0]: a decimal point and a
    zero are appended as for any text without a point.  [NewFloat] does not
    read that value text back: it fails on it with the syntax error, for
    either type.  So the constants that [NewFloat] builds from ["inf"],
    ["infinity"] and ["nan"] have no text that builds them again. *)
Theorem X10_float_special_text (v : Float)
    (Ht : Float_typ v = types.Float32 \/ Float_typ v = types.Float64)
    (Hx : Float_x v = NaN \/ Float_x v = Inf false \/ Float_x v = Inf true) :
  exists text : string,
    Float_String v = Return (types.Float_String (Float_typ v) ++ " " ++ text)
    /\ text = match Float_x v with
              | Inf false => "+Inf.0"
              | Inf true => "-Inf.0"
              | _ => "NaN.0"
              end
    /\ NewFloat (Float_Type v) text
       = Fail (UnparsableFloat text (mkNumError "ParseFloat" text ErrSyntax)).
Proof.
  destruct v as [t x]. cbn [Float_typ Float_x] in *. unfold Float_Type.
  cbn [Float_typ].
  destruct Ht as [-> | ->]; destruct Hx as [-> | [-> | ->]];
    eexists; (split; [ vm_compute; reflexivity | ]);
    (split; [ reflexivity | vm_compute; reflexivity ]).
Qed.

Lemma X10_float_special_text_witness :
  exists text : string,
    Float_String (mkFloat types.Float64 (Inf false))
    = Return ("double" ++ " " ++ text)
    /\ text = "+Inf.0"
    /\ NewFloat double text
       = Fail (UnparsableFloat text (mkNumError "ParseFloat" text ErrSyntax)).
Proof.
  apply (X10_float_special_text (mkFloat types.Float64 (Inf false))).
  - right. reflexivity.
  - right. left. reflexivity.
Defined.

(** ** The sign of a floating point literal *)

Lemma len_String (c : ascii) (s : string) : len (String c s) = len s + 1.
Proof. unfold len. cbn [String.length]. lia. Qed.

Lemma unsigned_head (a : ascii) (r : string) :
  unsigned (String a r) = true ->
  Ascii.eqb a "+" = false /\ Ascii.eqb a "-" = false.
Proof.
  unfold unsigned. intros H. apply negb_true_iff in H.
  apply orb_false_iff in H. exact H.
Qed.

Lemma commonPrefix_head (a : ascii) (r : string) :
  Ascii.eqb a "i" || Ascii.eqb a "I" = false ->
  commonPrefixLenIgnoreCase (String a r) "infinity" = 0.
Proof.
  intros H. cbn [commonPrefixLenIgnoreCase].
  destruct a as [[] [] [] [] [] [] [] []];
    first [ discriminate H | reflexivity ].
Qed.

(** [special] on a signed string, from [special] on the string without
    the sign: an infinity takes the sign, a NaN is no longer one. *)
Lemma special_sign (c : ascii) (s : string) :
  c = "+"%char \/ c = "-"%char -> unsigned s = true ->
  special (String c s)
  = match special s with
    | Some (Inf _, n) => Some (Inf (Ascii.eqb c "-"), 1 + n)
    | _ => None
    end.
Proof.
  intros Hc Hu. destruct s as [|a r].
  - destruct Hc as [-> | ->]; reflexivity.
  - destruct (unsigned_head _ _ Hu) as [Hp Hm].
    assert (E : special (String c (String a r))
                = let n := commonPrefixLenIgnoreCase (String a r) "infinity" in
                  let n := if (3 <? n) && (n <? 8) then 3 else n in
                  if (n =? 3) || (n =? 8)
                  then Some (Inf (Ascii.eqb c "-"), 1 + n) else None).
    { destruct Hc as [-> | ->]; reflexivity. }
    rewrite E. clear E.
    unfold special. rewrite Hp, Hm.
    destruct (Ascii.eqb a "i" || Ascii.eqb a "I") eqn:Ei.
    + cbv zeta.
      destruct ((_ =? 3) || (_ =? 8)); reflexivity.
    + rewrite (commonPrefix_head _ _ Ei). cbv zeta.
      change ((3 <? 0) && (0 <? 8)) with false. cbv iota.
      change ((0 =? 3) || (0 =? 8)) with false. cbv iota.
      destruct (Ascii.eqb a "n" || Ascii.eqb a "N"); [ | reflexivity ].
      destruct (commonPrefixLenIgnoreCase (String a r) "nan" =? 3);
        reflexivity.
Qed.

Lemma underscoreOK_sign (c : ascii) (s : string) (i : Z) :
  c = "+"%char \/ c = "-"%char -> unsigned s = true ->
  underscoreOK (take (Z.to_nat (i + 1)) (String c s))
  = underscoreOK (take (Z.to_nat i) s).
Proof.
  intros Hc Hu. destruct (Z_lt_le_dec i 0) as [Hi | Hi].
  - replace (Z.to_nat (i + 1)) with O by lia.
    replace (Z.to_nat i) with O by lia. reflexivity.
  - replace (Z.to_nat (i + 1)) with (S (Z.to_nat i)) by lia.
    cbn [take]. set (t := take (Z.to_nat i) s).
    assert (Ht : unsigned t = true).
    { subst t. destruct (Z.to_nat i); [ reflexivity | ].
      destruct s; [ reflexivity | exact Hu ]. }
    clearbody t. unfold underscoreOK at 1.
    assert (Ec : Ascii.eqb c "-" || Ascii.eqb c "+" = true)
      by (destruct Hc as [-> | ->]; reflexivity).
    rewrite Ec. unfold underscoreOK.
    destruct t as [|a r]; [ reflexivity | ].
    destruct (unsigned_head _ _ Ht) as [Hp Hm]. rewrite Hp, Hm.
    reflexivity.
Qed.

Lemma readFloat_number_sign (c : ascii) (s : string) (neg neg0 : bool)
    (base expChar : Z) (hex : bool) (s2 : string) :
  c = "+"%char \/ c = "-"%char -> unsigned s = true ->
  readFloat_number (String c s) neg base expChar hex s2
  = option_map (signed neg) (readFloat_number s neg0 base expChar hex s2).
Proof.
  intros Hc Hu. unfold readFloat_number.
  destruct (readFloat_mant s2 base _) as [st s3].
  destruct (negb (sawdigits st)); [ reflexivity | ].
  destruct (if base =? 16 then _ else _) as [dp0 ndMant].
  match goal with
  | |- context [match ?A with Some _ => _ | None => _ end] =>
      destruct A as [[[dp1 us] rest] | ]
  end; [ | reflexivity ].
  cbv zeta. rewrite len_String.
  replace (len s + 1 - len rest) with (len s - len rest + 1) by lia.
  rewrite (underscoreOK_sign c s _ Hc Hu).
  destruct (us && negb (underscoreOK _)); reflexivity.
Qed.

Lemma readFloat_sign (c : ascii) (s : string) :
  c = "+"%char \/ c = "-"%char -> unsigned s = true ->
  readFloat (String c s)
  = option_map (signed (Ascii.eqb c "-")) (readFloat s).
Proof.
  intros Hc Hu.
  assert (E : readFloat (String c s)
              = match s with
                | String a (String b (String c' r)) =>
                    if Ascii.eqb a "0" && (lower b =? 120)
                    then readFloat_number (String c s) (Ascii.eqb c "-")
                           16 112 true (String c' r)
                    else readFloat_number (String c s) (Ascii.eqb c "-")
                           10 101 false s
                | _ => readFloat_number (String c s) (Ascii.eqb c "-")
                         10 101 false s
                end).
  { destruct Hc as [-> | ->]; reflexivity. }
  rewrite E. clear E.
  destruct s as [|a r].
  - destruct Hc as [-> | ->]; reflexivity.
  - destruct (unsigned_head _ _ Hu) as [Hp Hm].
    unfold readFloat. rewrite Hp, Hm.
    destruct r as [|b [|c' r']];
      try (destruct (Ascii.eqb a "0" && (lower b =? 120)));
      apply readFloat_number_sign; assumption.
Qed.

Lemma readFloat_unsigned (s : string) (n : number) :
  unsigned s = true -> readFloat s = Some n -> num_neg n = false.
Proof.
  intros Hu H. destruct s as [|a r]; [ discriminate H | ].
  destruct (unsigned_head _ _ Hu) as [Hp Hm].
  unfold readFloat in H. rewrite Hp, Hm in H.
  assert (G : forall b e h s2,
             readFloat_number (String a r) false b e h s2 = Some n ->
             num_neg n = false).
  { intros b e h s2. unfold readFloat_number.
    destruct (readFloat_mant s2 b _) as [st s3].
    destruct (negb (sawdigits st)); [ discriminate | ].
    destruct (if b =? 16 then _ else _) as [dp0 ndMant].
    match goal with
    | |- context [match ?A with Some _ => _ | None => _ end] =>
        destruct A as [[[dp1 us] rest] | ]
    end; [ | discriminate ].
    cbv zeta. destruct (us && negb (underscoreOK _)); [ discriminate | ].
    intros [= <-]. reflexivity. }
  destruct r as [|b [|c' r']];
    try (destruct (Ascii.eqb a "0" && (lower b =? 120)));
    eapply G; exact H.
Qed.

Lemma round_sign (flt : floatInfo) (neg : bool) (q : Z * Z) :
  round flt neg q
  = (if neg then negate (fst (round flt false q)) else fst (round flt false q),
     snd (round flt false q)).
Proof.
  unfold round.
  destruct (round_half_even _) as [|m|m];
    [ destruct neg; reflexivity | | destruct neg; reflexivity ].
  destruct (_ >=? _); [ destruct neg; reflexivity | ].
  destruct (odd_part m _) as [m' e']. destruct neg; reflexivity.
Qed.

Lemma convert_signed (flt : floatInfo) (neg : bool) (n : number) :
  num_neg n = false ->
  convert flt (signed neg n)
  = (if neg then negate (fst (convert flt n)) else fst (convert flt n),
     snd (convert flt n)).
Proof.
  intros Hn. unfold convert, signed. cbn [num_mantissa num_neg num_hex num_exp].
  rewrite Hn.
  destruct (num_mantissa n);
    [ destruct neg; reflexivity | | destruct neg; reflexivity ].
  rewrite round_sign. reflexivity.
Qed.

(** [ParseFloat] on a signed literal. *)
Lemma ParseFloat_sign (c : ascii) (s : string) (bitSize : Z) (x : float64) :
  c = "+"%char \/ c = "-"%char -> unsigned s = true ->
  ParseFloat s bitSize = (x, None) -> x <> NaN ->
  ParseFloat (String c s) bitSize
  = (if Ascii.eqb c "-" then negate x else x, None)
  /\ match x with Inf n | Zero n | Finite n _ _ => n = false | NaN => True end.
Proof.
  intros Hc Hu H Hx. unfold ParseFloat, parseFloatPrefix in *.
  rewrite (special_sign c s Hc Hu), (readFloat_sign c s Hc Hu).
  rewrite len_String.
  destruct (special s) as [[f n] | ] eqn:Es.
  - destruct (negb (n =? len s)) eqn:En; [ discriminate H | ].
    injection H as ->.
    assert (Ef : x = Inf false).
    { unfold special in Es. destruct s as [|a r]; [ discriminate Es | ].
      destruct (unsigned_head _ _ Hu) as [Hp Hm]. rewrite Hp, Hm in Es.
      cbv zeta in Es.
      destruct (Ascii.eqb a "i" || Ascii.eqb a "I").
      - destruct ((_ =? 3) || (_ =? 8)); [ | discriminate Es ].
        injection Es as <- _. reflexivity.
      - destruct (Ascii.eqb a "n" || Ascii.eqb a "N"); [ | discriminate Es ].
        destruct (_ =? 3); [ | discriminate Es ].
        injection Es as <- _. contradiction Hx. reflexivity. }
    subst x.
    apply negb_false_iff, Z.eqb_eq in En.
    replace (1 + n =? len s + 1) with true by (symmetry; apply Z.eqb_eq; lia).
    cbn [negb]. split; [ | reflexivity ].
    destruct (Ascii.eqb c "-"); reflexivity.
  - destruct (readFloat s) as [n | ] eqn:Er; [ | discriminate H ].
    pose proof (readFloat_unsigned s n Hu Er) as Hneg.
    cbn [option_map].
    rewrite (convert_signed _ _ n Hneg).
    replace (num_len (signed (Ascii.eqb c "-") n)) with (num_len n + 1)
      by reflexivity.
    destruct (convert _ n) as [f ovf] eqn:Ec. cbn [fst snd].
    destruct ovf.
    + destruct (negb (num_len n =? len s)); discriminate H.
    + destruct (negb (num_len n =? len s)) eqn:En; [ discriminate H | ].
      injection H as ->.
      apply negb_false_iff, Z.eqb_eq in En.
      replace (num_len n + 1 =? len s + 1) with true
        by (symmetry; apply Z.eqb_eq; lia).
      cbn [negb]. split; [ reflexivity | ].
      unfold convert in Ec. rewrite Hneg in Ec.
      destruct (num_mantissa n).
      * injection Ec as <-. reflexivity.
      * unfold round in Ec.
        destruct (round_half_even _); try (injection Ec as <-; reflexivity).
        destruct (_ >=? _); [ discriminate Ec | ].
        destruct (odd_part _ _). injection Ec as <-. reflexivity.
      * injection Ec as <-. reflexivity.
Qed.

Lemma NewFloat_intro (t : types.Float) (s : string) (x : float64) :
  t = types.Float32 \/ t = types.Float64 ->
  ParseFloat s (types.Float_Size t) = (x, None) ->
  (t = types.Float32 ->
   genericFtoa x float32info = genericFtoa x float64info) ->
  NewFloat (types.FloatType t) s = Return (mkFloat t x).
Proof.
  intros Ht EP Hc. unfold NewFloat.
  destruct Ht as [E | E]; rewrite E in *;
    cbn [types.Float_Size Z.eqb Pos.eqb orb negb] in *.
  - pose proof (ParseFloat_32 s) as T32. rewrite EP in *. cbn [fst] in T32.
    unfold FormatFloat_g, call, bind. cbn [Z.eqb Pos.eqb].
    rewrite T32, (Hc eq_refl), String.eqb_refl. reflexivity.
  - rewrite EP. reflexivity.
Qed.

Lemma formatDigits_neg (sh : bool) (digs : decimalSlice) (prec : Z)
    (fmt : ascii) :
  formatDigits sh true digs prec fmt
  = String "-" (formatDigits sh false digs prec fmt).
Proof.
  unfold formatDigits. cbv zeta.
  destruct ((_ <? -4) || (_ >=? _)); reflexivity.
Qed.

Lemma genericFtoa_negate (x : float64) (flt : floatInfo) :
  match x with Zero n | Finite n _ _ => n = false | _ => False end ->
  genericFtoa (negate x) flt = String "-" (genericFtoa x flt).
Proof.
  destruct x as [ | n | n | n m e]; intros H; try contradiction; subst n;
    cbn [negate negb genericFtoa]; cbv zeta; apply formatDigits_neg.
Qed.

Lemma IndexByte_ge (s : string) (c : ascii) : -1 <= IndexByte s c.
Proof.
  induction s as [|b s IH]; cbn [IndexByte]; [ lia | ].
  destruct (Ascii.eqb b c); [ lia | ].
  cbv zeta. destruct (IndexByte s c =? -1); lia.
Qed.

Lemma insert_point_minus (s : string) :
  insert_point (String "-" s) = String "-" (insert_point s).
Proof.
  unfold insert_point. cbn [ContainsRune IndexByte].
  change (Ascii.eqb "-" ".") with false. change (Ascii.eqb "-" "e") with false.
  cbn [orb]. cbv zeta.
  destruct (negb (ContainsRune s ".")); [ | reflexivity ].
  pose proof (IndexByte_ge s "e") as Hi.
  destruct (IndexByte s "e" =? -1) eqn:E.
  - reflexivity.
  - apply Z.eqb_neq in E.
    replace (IndexByte s "e" + 1 =? -1) with false
      by (symmetry; apply Z.eqb_neq; lia).
    cbn [negb].
    replace (Z.to_nat (IndexByte s "e" + 1))
      with (S (Z.to_nat (IndexByte s "e"))) by lia.
    reflexivity.
Qed.

Lemma drop_plus_minus (s : string) :
  drop_plus (String "-" s) = String "-" (drop_plus s).
Proof. reflexivity. Qed.

Lemma Float_text_negate (x : float64) (flt : floatInfo) :
  match x with Zero n | Finite n _ _ => n = false | _ => False end ->
  Float_text (negate x) flt = String "-" (Float_text x flt).
Proof.
  intros H. unfold Float_text. rewrite (genericFtoa_negate x flt H).
  rewrite insert_point_minus. apply drop_plus_minus.
Qed.

(** X11: the sign of a floating point literal.  For a literal [s]
    without a sign that [NewFloat] accepts with a value other than NaN: the
    literal with a plus sign before it gives the same constant, and the
    literal with a minus sign the constant of the negated value.  Unless
    the value is an infinity, the text of the negated constant is the text
    of the constant with a minus sign before the value. *)
Theorem X11_float_sign (typ : types.Ty) (s : string) (v : Float)
    (Hu : unsigned s = true) (H : NewFloat typ s = Return v)
    (Hn : Float_x v <> NaN) :
  NewFloat typ (String "+" s) = Return v
  /\ NewFloat typ (String "-" s)
     = Return (mkFloat (Float_typ v) (negate (Float_x v)))
  /\ (Float_x v <> Inf false ->
      exists text : string,
        Float_String v
        = Return (types.Float_String (Float_typ v) ++ " " ++ text)
        /\ Float_String (mkFloat (Float_typ v) (negate (Float_x v)))
           = Return (types.Float_String (Float_typ v) ++ " -" ++ text)).
Proof.
  destruct (NewFloat_returns _ _ _ H) as (-> & Ht & EP & Hc).
  destruct v as [t x]. cbn [Float_typ Float_x] in *.
  destruct (ParseFloat_sign "+" s _ x (or_introl eq_refl) Hu EP Hn)
    as [Pp Hs].
  destruct (ParseFloat_sign "-" s _ x (or_intror eq_refl) Hu EP Hn)
    as [Pm _].
  change (Ascii.eqb "+" "-") with false in Pp.
  change (Ascii.eqb "-" "-") with true in Pm.
  cbv iota in Pp, Pm.
  split; [ apply NewFloat_intro; assumption | ].
  split.
  - apply NewFloat_intro; [ exact Ht | exact Pm | ].
    intros E. specialize (Hc E).
    destruct x as [ | n | n | n m e]; [ contradiction Hn; reflexivity | | | ].
    + subst n. reflexivity.
    + rewrite !genericFtoa_negate by exact Hs. apply f_equal. exact Hc.
    + rewrite !genericFtoa_negate by exact Hs. apply f_equal. exact Hc.
  - intros Hi.
    assert (Hf : match x with
                 | Zero n | Finite n _ _ => n = false
                 | _ => False
                 end).
    { destruct x as [ | n | n | n m e];
        [ contradiction Hn; reflexivity
        | subst n; contradiction Hi; reflexivity
        | exact Hs | exact Hs ]. }
    rewrite !(Float_String_text t _ Ht).
    assert (T : forall y, ParseFloat s (types.Float_Size t) = (x, None) ->
                forall s', ParseFloat s' (types.Float_Size t) = (y, None) ->
                (if types.Float_Size t =? 32 then to32 y else y) = y).
    { intros y _ s' E'. destruct (types.Float_Size t =? 32) eqn:E32;
        [ | reflexivity ].
      apply Z.eqb_eq in E32. rewrite E32 in E'.
      pose proof (ParseFloat_32 s') as T32. rewrite E' in T32. exact T32. }
    rewrite (T x EP s EP), (T (negate x) EP _ Pm).
    exists (Float_text x (format_of t)).
    split; [ reflexivity | ].
    rewrite (Float_text_negate x _ Hf). reflexivity.
Qed.

Lemma X11_float_sign_witness :
  NewFloat double "+1.5" = Return (mkFloat types.Float64 (Finite false 3 (-1)))
  /\ NewFloat double "-1.5"
     = Return (mkFloat types.Float64 (Finite true 3 (-1)))
  /\ (Finite false 3 (-1) <> Inf false ->
      exists text : string,
        Float_String (mkFloat types.Float64 (Finite false 3 (-1)))
        = Return ("double" ++ " " ++ text)
        /\ Float_String (mkFloat types.Float64 (Finite true 3 (-1)))
           = Return ("double" ++ " -" ++ text)).
Proof.
  apply (X11_float_sign double "1.5"
           (mkFloat types.Float64 (Finite false 3 (-1)))).
  - reflexivity.
  - vm_compute. reflexivity.
  - discriminate.
Defined.

(** ** A literal for [float] and for [double] *)

Lemma not_below_floor_log2 (n d : Z) :
  0 < n -> 0 < d -> ~ below (n, d) (floor_log2 (n, d)).
Proof.
  intros Hn Hd. unfold floor_log2.
  pose proof (log2_bounds n Hn) as Bn. pose proof (log2_bounds d Hd) as Bd.
  pose proof (Z.log2_nonneg n) as Ln. pose proof (Z.log2_nonneg d) as Ld.
  set (ln := Z.log2 n) in *. set (ld := Z.log2 d) in *.
  unfold mul2.
  destruct (Z.geb_spec (- (ln - ld)) 0) as [Ha | Ha].
  - destruct (Z.ltb_spec (n * 2 ^ (- (ln - ld))) d) as [Hlt | Hge].
    + unfold below. destruct (Z.geb_spec (ln - ld - 1) 0); [ lia | ].
      replace (- (ln - ld - 1)) with (ld + 1 - ln) by lia.
      assert (E : 2 ^ (ld + 1) = 2 ^ ln * 2 ^ (ld + 1 - ln))
        by (rewrite <- Z.pow_add_r by lia; f_equal; lia).
      replace (2 ^ (ld + 1)) with (2 * 2 ^ ld) in E
        by (rewrite Z.pow_add_r by lia; lia).
      pose proof (pow2_pos (ld + 1 - ln) ltac:(lia)). nia.
    + unfold below. destruct (Z.geb_spec (ln - ld) 0).
      * replace (ln - ld) with 0 in * by lia. cbn in *. lia.
      * lia.
  - destruct (Z.ltb_spec n (d * 2 ^ (- - (ln - ld)))) as [Hlt | Hge].
    + unfold below. destruct (Z.geb_spec (ln - ld - 1) 0); [ | lia ].
      assert (E : 2 ^ ln = 2 * 2 ^ ld * 2 ^ (ln - ld - 1)).
      { replace (2 * 2 ^ ld) with (2 ^ (ld + 1))
          by (rewrite Z.pow_add_r by lia; lia).
        rewrite <- Z.pow_add_r by lia. f_equal. lia. }
      pose proof (pow2_pos (ln - ld - 1) ltac:(lia)). nia.
    + unfold below. destruct (Z.geb_spec (ln - ld) 0); [ | lia ].
      rewrite Z.opp_involutive in Hge. lia.
Qed.

Lemma round_half_even_floor (n d : Z) : n / d <= round_half_even (n, d).
Proof.
  unfold round_half_even. destruct (_ ?= _); [ | lia | lia ].
  destruct (Z.even _); lia.
Qed.

(** A number of [2^128] or more overflows the 32-bit format. *)
Lemma round_overflow_32 (neg : bool) (n d : Z) :
  0 < n -> 0 < d -> 128 <= floor_log2 (n, d) ->
  snd (round float32info neg (n, d)) = true.
Proof.
  intros Hn Hd HL. pose proof (not_below_floor_log2 n d Hn Hd) as NB.
  unfold round. cbn [mantbits bias expbits float32info].
  set (L := floor_log2 (n, d)) in *.
  replace (Z.max (L - 23) (-127 + 1 - 23)) with (L - 23) by lia.
  unfold below in NB. destruct (Z.geb_spec L 0); [ | lia ].
  unfold mul2. destruct (Z.geb_spec (- (L - 23)) 0); [ lia | ].
  replace (- - (L - 23)) with (L - 23) by lia.
  assert (E : 2 ^ L = 2 ^ (L - 23) * 2 ^ 23)
    by (rewrite <- Z.pow_add_r by lia; f_equal; lia).
  pose proof (pow2_pos (L - 23) ltac:(lia)) as P.
  pose proof (round_half_even_floor n (d * 2 ^ (L - 23))) as F.
  assert (G : 2 ^ 23 <= n / (d * 2 ^ (L - 23)))
    by (apply Z.div_le_lower_bound; nia).
  destruct (round_half_even (n, d * 2 ^ (L - 23))) as [ | m | m];
    [ lia | | lia ].
  assert (H23 : 23 <= Z.log2 (Zpos m)).
  { change 23 with (Z.log2 (2 ^ 23)). apply Z.log2_le_mono. lia. }
  destruct (Z.geb_spec (Z.log2 (Zpos m) + (L - 23)) (2 ^ 8 - 1 + -127))
    as [ | C]; [ reflexivity | ].
  change (2 ^ 8 - 1 + -127) with 128 in C. lia.
Qed.

(** A number below [2^1023] does not overflow the 64-bit format. *)
Lemma round_no_overflow_64 (neg : bool) (n d : Z) :
  0 < n -> 0 < d -> floor_log2 (n, d) <= 1022 ->
  snd (round float64info neg (n, d)) = false.
Proof.
  intros Hn Hd HL. pose proof (below_floor_log2 n d Hn Hd) as B.
  unfold round. cbn [mantbits bias expbits float64info].
  set (L := floor_log2 (n, d)) in *.
  set (e := Z.max (L - 52) (-1023 + 1 - 52)).
  destruct (mul2_positive n d (- e) Hn Hd) as [Pn Pd].
  assert (R : 0 <= round_half_even (mul2 (n, d) (- e))
              <= 2 ^ Z.max 0 (L + 1 - e)).
  { destruct (Z_le_gt_dec 0 (L + 1 - e)) as [G | G].
    - rewrite Z.max_r by lia.
      pose proof (below_mul2 n d (L + 1) (- e) Hn Hd ltac:(lia) B) as M.
      replace (L + 1 + - e) with (L + 1 - e) in M by lia.
      destruct (mul2 (n, d) (- e)) as [n' d']. cbn [fst snd] in *.
      apply round_half_even_bound; assumption.
    - rewrite Z.max_l by lia.
      pose proof (below_mono n d (L + 1) e Hn Hd ltac:(lia) B) as B'.
      pose proof (below_mul2 n d e (- e) Hn Hd ltac:(lia) B') as M.
      replace (e + - e) with 0 in M by lia.
      destruct (mul2 (n, d) (- e)) as [n' d']. cbn [fst snd] in *.
      apply round_half_even_bound; assumption. }
  destruct (round_half_even (mul2 (n, d) (- e))) as [ | m | m];
    [ reflexivity | | reflexivity ].
  assert (Hm : Z.log2 (Zpos m) <= Z.max 0 (L + 1 - e)).
  { rewrite <- (Z.log2_pow2 (Z.max 0 (L + 1 - e))) by lia.
    apply Z.log2_le_mono. lia. }
  destruct (Z.geb_spec (Z.log2 (Zpos m) + e) (2 ^ 11 - 1 + -1023))
    as [C | C].
  - change (2 ^ 11 - 1 + -1023) with 1024 in C. unfold e in *. lia.
  - destruct (odd_part m e). reflexivity.
Qed.

Lemma round_overflow_wider (neg : bool) (n d : Z) :
  0 < n -> 0 < d ->
  snd (round float64info neg (n, d)) = true ->
  snd (round float32info neg (n, d)) = true.
Proof.
  intros Hn Hd H.
  destruct (Z_le_gt_dec (floor_log2 (n, d)) 1022) as [L | L].
  - rewrite (round_no_overflow_64 neg n d Hn Hd L) in H. discriminate H.
  - apply round_overflow_32; [ assumption | assumption | lia ].
Qed.

Lemma convert_overflow_wider (n : number) :
  snd (convert float64info n) = true -> snd (convert float32info n) = true.
Proof.
  unfold convert. destruct (num_mantissa n) as [ | m | m];
    [ intros H; exact H | | intros H; exact H ].
  destruct (num_hex n).
  - destruct (mul2 (Zpos m, 1) (num_exp n)) as [a b] eqn:E.
    pose proof (mul2_positive (Zpos m) 1 (num_exp n) ltac:(lia) ltac:(lia))
      as P.
    rewrite E in P. cbn [fst snd] in P.
    apply round_overflow_wider; apply P.
  - destruct (mul10 (Zpos m, 1) (num_exp n)) as [a b] eqn:E.
    pose proof (mul10_positive (Zpos m) 1 (num_exp n) ltac:(lia) ltac:(lia))
      as P.
    rewrite E in P. cbn [fst snd] in P.
    apply round_overflow_wider; apply P.
Qed.

(** What [ParseFloat] refuses at 64 bits it refuses at 32 bits, with the
    same error. *)
Lemma ParseFloat_wider (s : string) (e : NumError) :
  snd (ParseFloat s 64) = Some e -> snd (ParseFloat s 32) = Some e.
Proof.
  unfold ParseFloat, parseFloatPrefix.
  destruct (special s) as [[f n] | ]; [ intros H; exact H | ].
  destruct (readFloat s) as [n | ]; [ | intros H; exact H ].
  change (64 =? 32) with false. change (32 =? 32) with true. cbv iota.
  pose proof (convert_overflow_wider n) as W.
  destruct (convert float64info n) as [f64 o64].
  destruct (convert float32info n) as [f32 o32].
  cbn [snd] in W.
  destruct o64.
  - rewrite (W eq_refl).
    destruct (negb (num_len n =? len s)); intros H; exact H.
  - destruct (negb (num_len n =? len s)).
    + destruct o32; intros H; exact H.
    + intros H; discriminate H.
Qed.

(** X12: a literal that [NewFloat] refuses for [double] it refuses for
    [float] with the same error, and so a literal that it accepts for
    [float] it accepts for [double]. *)
Theorem X12_float_wider_type (s : string) :
  (forall err : error,
     NewFloat double s = Fail err -> NewFloat float32 s = Fail err)
  /\ (forall v : Float,
        NewFloat float32 s = Return v ->
        exists y : float64,
          NewFloat double s = Return (mkFloat types.Float64 y)).
Proof.
  assert (A : forall err : error,
            NewFloat double s = Fail err -> NewFloat float32 s = Fail err).
  { intros err. unfold NewFloat, double, float32.
    cbn [types.Float_Size Z.eqb Pos.eqb orb negb].
    pose proof (ParseFloat_wider s) as W.
    destruct (ParseFloat s 64) as [y [e | ]]; [ | intros H; discriminate H ].
    specialize (W e eq_refl).
    destruct (ParseFloat s 32) as [x o]. cbn [snd] in W. rewrite W.
    intros H; exact H. }
  split; [ exact A | ].
  intros v H.
  destruct (NewFloat double s) as [w | err | p] eqn:E.
  - destruct (NewFloat_returns _ _ _ E) as (Ty & _ & _ & _).
    destruct w as [t y]. cbn [Float_typ] in Ty.
    injection Ty as <-. exists y. reflexivity.
  - rewrite (A err eq_refl) in H. discriminate H.
  - unfold NewFloat, double in E.
    cbn [types.Float_Size Z.eqb Pos.eqb orb negb] in E.
    destruct (ParseFloat s 64) as [y [e | ]]; discriminate E.
Qed.

(** ** The bytes of a floating point literal *)

Lemma float_byte_cases (c : ascii) :
  (isdigit c = true -> float_byte c = true)
  /\ (Ascii.eqb c "_" = true -> float_byte c = true)
  /\ (Ascii.eqb c "." = true -> float_byte c = true)
  /\ (Ascii.eqb c "+" = true -> float_byte c = true)
  /\ (Ascii.eqb c "-" = true -> float_byte c = true)
  /\ ((97 <=? lower c) && (lower c <=? 102) = true -> float_byte c = true)
  /\ ((lower c =? 101) = true -> float_byte c = true)
  /\ ((lower c =? 112) = true -> float_byte c = true)
  /\ ((lower c =? 120) = true -> float_byte c = true)
  /\ (forall p : ascii,
        ContainsRune "infinitynan" p = true ->
        ((if (65 <=? byte c) && (byte c <=? 90) then byte c + 32 else byte c)
         =? byte p) = true ->
        float_byte c = true).
Proof.
  destruct (float_byte c) eqn:F.
  - conjuncts; intros; reflexivity.
  - destruct c as [[] [] [] [] [] [] [] []]; try discriminate F;
      (conjuncts; try (intros H; vm_compute in H; discriminate H));
      intros p Hp H; apply Z.eqb_eq in H;
      cbn [ContainsRune] in Hp;
      repeat (apply orb_true_iff in Hp;
              destruct Hp as [Hp | Hp];
              [ apply Ascii.eqb_eq in Hp; subst p; vm_compute in H;
                discriminate H | ]);
      discriminate Hp.
Qed.

Lemma float_byte_digit (c : ascii) : isdigit c = true -> float_byte c = true.
Proof. destruct (float_byte_cases c) as (H & _). exact H. Qed.

Lemma float_byte_underscore (c : ascii) :
  Ascii.eqb c "_" = true -> float_byte c = true.
Proof. destruct (float_byte_cases c) as (_ & H & _). exact H. Qed.

Lemma float_byte_point (c : ascii) :
  Ascii.eqb c "." = true -> float_byte c = true.
Proof. destruct (float_byte_cases c) as (_ & _ & H & _). exact H. Qed.

Lemma float_byte_plus (c : ascii) :
  Ascii.eqb c "+" = true -> float_byte c = true.
Proof. destruct (float_byte_cases c) as (_ & _ & _ & H & _). exact H. Qed.

Lemma float_byte_minus (c : ascii) :
  Ascii.eqb c "-" = true -> float_byte c = true.
Proof. destruct (float_byte_cases c) as (_ & _ & _ & _ & H & _). exact H. Qed.

Lemma float_byte_hex (c : ascii) :
  (97 <=? lower c) && (lower c <=? 102) = true -> float_byte c = true.
Proof.
  destruct (float_byte_cases c) as (_ & _ & _ & _ & _ & H & _). exact H.
Qed.

Lemma float_byte_e (c : ascii) :
  (lower c =? 101) = true -> float_byte c = true.
Proof.
  destruct (float_byte_cases c) as (_ & _ & _ & _ & _ & _ & H & _). exact H.
Qed.

Lemma float_byte_p (c : ascii) :
  (lower c =? 112) = true -> float_byte c = true.
Proof.
  destruct (float_byte_cases c) as (_ & _ & _ & _ & _ & _ & _ & H & _).
  exact H.
Qed.

Lemma float_byte_x (c : ascii) :
  (lower c =? 120) = true -> float_byte c = true.
Proof.
  destruct (float_byte_cases c) as (_ & _ & _ & _ & _ & _ & _ & _ & H & _).
  exact H.
Qed.

Lemma float_byte_name (c p : ascii) :
  ContainsRune "infinitynan" p = true ->
  ((if (65 <=? byte c) && (byte c <=? 90) then byte c + 32 else byte c)
   =? byte p) = true ->
  float_byte c = true.
Proof.
  destruct (float_byte_cases c) as (_ & _ & _ & _ & _ & _ & _ & _ & _ & H).
  exact (H p).
Qed.

Lemma len_zero (s : string) : len s <= 0 -> s = "".
Proof.
  destruct s; [ reflexivity | ]. rewrite len_String.
  unfold len. lia.
Qed.

Lemma len_nonneg (s : string) : 0 <= len s.
Proof. unfold len. lia. Qed.

Lemma commonPrefix_bytes (p : string) :
  (forall c : ascii, ContainsRune p c = true ->
                     ContainsRune "infinitynan" c = true) ->
  forall s : string,
    len s <= commonPrefixLenIgnoreCase s p -> float_bytes s = true.
Proof.
  induction p as [|a p IH]; intros Hp s H.
  - destruct s; [ reflexivity | ].
    cbn [commonPrefixLenIgnoreCase] in H. rewrite len_String in H.
    pose proof (len_nonneg s). lia.
  - destruct s as [|c s]; [ reflexivity | ].
    cbn [commonPrefixLenIgnoreCase] in H. cbv zeta in H.
    rewrite len_String in H.
    destruct (_ =? byte a) eqn:E.
    + cbn [float_bytes]. apply andb_true_intro. split.
      * apply (float_byte_name c a); [ | exact E ].
        apply Hp. cbn [ContainsRune]. rewrite Ascii.eqb_refl. reflexivity.
      * apply IH; [ | lia ].
        intros c' Hc'. apply Hp. cbn [ContainsRune]. rewrite Hc'.
        apply orb_true_r.
    + pose proof (len_nonneg s). lia.
Qed.

Lemma special_bytes (s : string) (f : float64) (n : Z) :
  special s = Some (f, n) -> n = len s -> float_bytes s = true.
Proof.
  assert (I : forall r : string,
            len r <= commonPrefixLenIgnoreCase r "infinity" ->
            float_bytes r = true).
  { apply commonPrefix_bytes. intros c H. cbn [ContainsRune] in *.
    repeat (apply orb_true_iff in H; destruct H as [H | H];
            [ rewrite H; repeat rewrite orb_true_r; reflexivity | ]).
    discriminate H. }
  assert (N : forall r : string,
            len r <= commonPrefixLenIgnoreCase r "nan" ->
            float_bytes r = true).
  { apply commonPrefix_bytes. intros c H. cbn [ContainsRune] in *.
    repeat (apply orb_true_iff in H; destruct H as [H | H];
            [ rewrite H; repeat rewrite orb_true_r; reflexivity | ]).
    discriminate H. }
  assert (J : forall (sign : bool) (k : Z) (r : string),
            (let n := commonPrefixLenIgnoreCase r "infinity" in
             let n := if (3 <? n) && (n <? 8) then 3 else n in
             if (n =? 3) || (n =? 8) then Some (Inf sign, k + n) else None)
            = Some (f, n) ->
            n = k + len r -> float_bytes r = true).
  { intros sign k r. cbv zeta.
    destruct ((3 <? _) && (_ <? 8)) eqn:E.
    - change ((3 =? 3) || (3 =? 8)) with true. cbv iota.
      intros [= _ <-] Hl. apply I.
      apply andb_true_iff in E. destruct E as [E _].
      apply Z.ltb_lt in E. lia.
    - destruct ((_ =? 3) || (_ =? 8)); [ | discriminate ].
      intros [= _ <-] Hl. apply I. lia. }
  unfold special. destruct s as [|c r]; [ discriminate | ].
  rewrite len_String.
  destruct (Ascii.eqb c "+") eqn:Ep.
  - intros H Hl. cbn [float_bytes].
    rewrite (float_byte_plus c Ep).
    apply (J false 1 r H). lia.
  - destruct (Ascii.eqb c "-") eqn:Em.
    + intros H Hl. cbn [float_bytes].
      rewrite (float_byte_minus c Em).
      apply (J true 1 r H). lia.
    + destruct (Ascii.eqb c "i" || Ascii.eqb c "I").
      * intros H Hl. apply (J false 0 (String c r) H).
        rewrite len_String. lia.
      * destruct (Ascii.eqb c "n" || Ascii.eqb c "N"); [ | discriminate ].
        destruct (_ =? 3) eqn:E3; [ | discriminate ].
        intros [= _ <-] Hl. apply N. apply Z.eqb_eq in E3.
        rewrite len_String. lia.
Qed.

Lemma readFloat_mant_bytes (s : string) :
  forall (base : Z) (st st' : mant) (s3 : string),
    readFloat_mant s base st = (st', s3) ->
    len s3 <= len s
    /\ (float_bytes s3 = true -> float_bytes s = true).
Proof.
  induction s as [|c r IH]; intros base st st' s3 H.
  - cbn [readFloat_mant] in H. injection H as _ <-. split; [ lia | auto ].
  - cbn [readFloat_mant] in H.
    rewrite len_String. cbn [float_bytes].
    assert (K : forall st0,
              readFloat_mant r base st0 = (st', s3) ->
              float_byte c = true ->
              len s3 <= len r + 1
              /\ (float_bytes s3 = true ->
                  float_byte c && float_bytes r = true)).
    { intros st0 H0 Hc. destruct (IH _ _ _ _ H0) as [L B].
      split; [ lia | ]. intros Hs. rewrite Hc, (B Hs). reflexivity. }
    assert (Stop : (st, String c r) = (st', s3) ->
                   len s3 <= len r + 1
                   /\ (float_bytes s3 = true ->
                       float_byte c && float_bytes r = true)).
    { intros [= _ <-]. rewrite len_String. split; [ lia | ].
      cbn [float_bytes]. auto. }
    destruct (Ascii.eqb c "_") eqn:E1; [ apply (K _ H), float_byte_underscore, E1 | ].
    destruct (Ascii.eqb c ".") eqn:E2.
    { destruct (sawdot st); [ apply Stop; exact H | ].
      apply (K _ H), float_byte_point, E2. }
    destruct (isdigit c) eqn:E3.
    { destruct (Ascii.eqb c "0" && (nd st =? 0));
        apply (K _ H), float_byte_digit, E3. }
    destruct ((base =? 16) && (97 <=? lower c) && (lower c <=? 102)) eqn:E4;
      [ | apply Stop; exact H ].
    apply (K _ H), float_byte_hex.
    apply andb_true_iff in E4. destruct E4 as [E4 E5].
    apply andb_true_iff in E4. destruct E4 as [_ E4].
    rewrite E4, E5. reflexivity.
Qed.

Lemma readFloat_exp_bytes (s : string) :
  forall (e : Z) (us : bool) (e' : Z) (us' : bool) (rest : string),
    readFloat_exp s e us = (e', us', rest) ->
    len rest <= len s
    /\ (float_bytes rest = true -> float_bytes s = true).
Proof.
  induction s as [|c r IH]; intros e us e' us' rest H.
  - cbn [readFloat_exp] in H. injection H as _ _ <-. split; [ lia | auto ].
  - cbn [readFloat_exp] in H.
    rewrite len_String. cbn [float_bytes].
    destruct (Ascii.eqb c "_") eqn:E1.
    { destruct (IH _ _ _ _ _ H) as [L B]. split; [ lia | ].
      intros Hs. rewrite (B Hs), (float_byte_underscore c E1). reflexivity. }
    destruct (isdigit c) eqn:E2.
    { destruct (IH _ _ _ _ _ H) as [L B]. split; [ lia | ].
      intros Hs. rewrite (B Hs), (float_byte_digit c E2). reflexivity. }
    injection H as _ _ <-. rewrite len_String. split; [ lia | ].
    cbn [float_bytes]. auto.
Qed.

(** A number that takes the whole of [s], read from [s2] on, has its bytes
    from [s2] on among those of the literals. *)
Lemma readFloat_number_bytes (s : string) (neg : bool) (base expChar : Z)
    (hex : bool) (s2 : string) (n : number) :
  expChar = 101 \/ expChar = 112 ->
  readFloat_number s neg base expChar hex s2 = Some n ->
  len s2 <= len s -> num_len n = len s -> float_bytes s2 = true.
Proof.
  intros He. unfold readFloat_number.
  destruct (readFloat_mant s2 base _) as [st s3] eqn:EM.
  destruct (readFloat_mant_bytes _ _ _ _ _ EM) as [L3 B3].
  destruct (negb (sawdigits st)); [ discriminate | ].
  destruct (if base =? 16 then _ else _) as [dp0 ndMant].
  match goal with
  | |- context [match ?A with Some _ => _ | None => _ end] =>
      destruct A as [[[dp1 us] rest] | ] eqn:EA
  end; [ | discriminate ].
  cbv zeta. destruct (us && negb (underscoreOK _)); [ discriminate | ].
  intros [= <-] L2. cbn [num_len]. intros Hl.
  assert (R : len rest <= len s3 -> rest = "").
  { intros Hr. apply len_zero. lia. }
  assert (Done : len rest <= len s3 ->
                 (float_bytes rest = true -> float_bytes s3 = true) ->
                 float_bytes s2 = true).
  { intros Hr Hb. apply B3, Hb. rewrite (R Hr). reflexivity. }
  destruct s3 as [|c r].
  - apply B3. reflexivity.
  - destruct (lower c =? expChar) eqn:Ec.
    + assert (Fc : float_byte c = true).
      { destruct He as [-> | ->];
          [ exact (float_byte_e c Ec) | exact (float_byte_p c Ec) ]. }
      destruct r as [|d r']; [ discriminate EA | ].
      assert (Exp : forall r0 d0 esign,
                 match r0 with
                 | EmptyString => None
                 | String d1 _ =>
                     if negb (isdigit d1) then None
                     else
                       let '(e, us, rest) :=
                         readFloat_exp r0 0 (underscores st) in
                       Some (d0 + e * esign, us, rest)
                 end = Some (dp1, us, rest) ->
                 len rest <= len r0
                 /\ (float_bytes rest = true -> float_bytes r0 = true)).
      { intros r0 d0 esign. destruct r0 as [|d1 r1]; [ discriminate | ].
        destruct (negb (isdigit d1)); [ discriminate | ].
        destruct (readFloat_exp _ 0 _) as [[e1 us1] rest1] eqn:EE.
        intros [= _ _ <-]. exact (readFloat_exp_bytes _ _ _ _ _ _ EE). }
      rewrite !len_String in *.
      destruct (Ascii.eqb d "+") eqn:Ep.
      * destruct (Exp r' dp0 1 EA) as [Lr Br].
        apply Done; [ lia | ].
        intros Hb. cbn [float_bytes].
        rewrite Fc, (Br Hb).
        rewrite (float_byte_plus d Ep). reflexivity.
      * destruct (Ascii.eqb d "-") eqn:Em.
        -- destruct (Exp r' dp0 (-1) EA) as [Lr Br].
           apply Done; [ lia | ].
           intros Hb. cbn [float_bytes].
           rewrite Fc, (Br Hb).
           rewrite (float_byte_minus d Em). reflexivity.
        -- destruct (Exp (String d r') dp0 1 EA) as [Lr Br].
           rewrite len_String in Lr.
           apply Done; [ lia | ].
           intros Hb. cbn [float_bytes]. rewrite Fc.
           exact (Br Hb).
    + destruct (base =? 16); [ discriminate EA | ].
      injection EA as _ _ <-. apply Done; [ lia | auto ].
Qed.

Lemma readFloat_bytes (s : string) (n : number) :
  readFloat s = Some n -> num_len n = len s -> float_bytes s = true.
Proof.
  unfold readFloat. destruct s as [|c0 r0]; [ discriminate | ].
  assert (G : forall (neg : bool) (s1 : string),
            len s1 <= len (String c0 r0) ->
            match s1 with
            | String a (String b (String c r)) =>
                if Ascii.eqb a "0" && (lower b =? 120)
                then readFloat_number (String c0 r0) neg 16 112 true
                       (String c r)
                else readFloat_number (String c0 r0) neg 10 101 false s1
            | _ => readFloat_number (String c0 r0) neg 10 101 false s1
            end = Some n ->
            num_len n = len (String c0 r0) -> float_bytes s1 = true).
  { intros neg s1 L1 H Hl.
    assert (D : readFloat_number (String c0 r0) neg 10 101 false s1 = Some n
                -> float_bytes s1 = true).
    { intros H'. eapply readFloat_number_bytes;
        [ left; reflexivity | exact H' | exact L1 | exact Hl ]. }
    destruct s1 as [|a [|b [|c r]]]; try (apply D; exact H).
    destruct (Ascii.eqb a "0" && (lower b =? 120)) eqn:E;
      [ | apply D; exact H ].
    apply andb_true_iff in E. destruct E as [Ea Eb].
    cbn [float_bytes].
    assert (Fa : float_byte a = true).
    { apply Ascii.eqb_eq in Ea. subst a. reflexivity. }
    rewrite Fa, (float_byte_x b Eb).
    cbn [andb].
    change (float_bytes (String c r) = true).
    eapply readFloat_number_bytes;
      [ right; reflexivity | exact H | | exact Hl ].
    rewrite !len_String in *. lia. }
  destruct (Ascii.eqb c0 "+") eqn:Ep.
  - intros H Hl. cbn [float_bytes].
    rewrite (float_byte_plus c0 Ep).
    apply (G false r0); [ rewrite len_String; lia | exact H | exact Hl ].
  - destruct (Ascii.eqb c0 "-") eqn:Em.
    + intros H Hl. cbn [float_bytes].
      rewrite (float_byte_minus c0 Em).
      apply (G true r0); [ rewrite len_String; lia | exact H | exact Hl ].
    + intros H Hl. apply (G false (String c0 r0)); [ lia | exact H | exact Hl ].
Qed.

Lemma ParseFloat_bytes (s : string) (bitSize : Z) :
  float_bytes s = false \/ s = "" ->
  ParseFloat s bitSize
  = (Zero false, Some (mkNumError "ParseFloat" s ErrSyntax)).
Proof.
  intros H. unfold ParseFloat, parseFloatPrefix.
  destruct (special s) as [[f n] | ] eqn:Es.
  - destruct (negb (n =? len s)) eqn:En; [ reflexivity | ].
    apply negb_false_iff, Z.eqb_eq in En.
    pose proof (special_bytes s f n Es En) as B.
    destruct H as [H | ->]; [ congruence | discriminate Es ].
  - destruct (readFloat s) as [n | ] eqn:Er; [ | reflexivity ].
    destruct (convert _ n) as [f ovf].
    destruct (negb (num_len n =? len s)) eqn:En;
      [ destruct ovf; reflexivity | ].
    apply negb_false_iff, Z.eqb_eq in En.
    pose proof (readFloat_bytes s n Er En) as B.
    destruct H as [H | ->]; [ congruence | discriminate Er ].
Qed.

(** X13: for the types [float] and [double], [NewFloat] refuses, with
    the syntax error of [ParseFloat], the empty literal and every literal
    that holds a byte which is not a digit, a sign, the point, the
    underscore or one of the letters [a b c d e f i n p t x y] in either
    case: a space or a comma, for one, is accepted nowhere in a literal.
    (Whether a literal made of these bytes only is accepted is not said
    here.) *)
Theorem X13_float_bytes (t : types.Float) (s : string)
    (Ht : t = types.Float32 \/ t = types.Float64)
    (Hs : float_bytes s = false \/ s = "") :
  NewFloat (types.FloatType t) s
  = Fail (UnparsableFloat s (mkNumError "ParseFloat" s ErrSyntax)).
Proof.
  unfold NewFloat.
  destruct Ht as [-> | ->]; cbn [types.Float_Size Z.eqb Pos.eqb orb negb];
    rewrite (ParseFloat_bytes s _ Hs); reflexivity.
Qed.

Lemma X13_float_bytes_witness :
  NewFloat (types.FloatType types.Float64) "1.5 "
  = Fail (UnparsableFloat "1.5 " (mkNumError "ParseFloat" "1.5 " ErrSyntax)).
Proof.
  apply (X13_float_bytes types.Float64 "1.5 ").
  - right. reflexivity.
  - left. reflexivity.
Defined.

(** ** The case of the letters of a floating point literal *)

Lemma to_lower_scan (c : ascii) :
  Ascii.eqb (to_lower c) "_" = Ascii.eqb c "_"
  /\ Ascii.eqb (to_lower c) "." = Ascii.eqb c "."
  /\ Ascii.eqb (to_lower c) "+" = Ascii.eqb c "+"
  /\ Ascii.eqb (to_lower c) "-" = Ascii.eqb c "-"
  /\ Ascii.eqb (to_lower c) "0" = Ascii.eqb c "0"
  /\ isdigit (to_lower c) = isdigit c
  /\ lower (to_lower c) = lower c
  /\ (isdigit c = true -> to_lower c = c)
  /\ (if (65 <=? byte (to_lower c)) && (byte (to_lower c) <=? 90)
      then byte (to_lower c) + 32 else byte (to_lower c))
     = (if (65 <=? byte c) && (byte c <=? 90) then byte c + 32 else byte c)
  /\ Ascii.eqb (to_lower c) "i" || Ascii.eqb (to_lower c) "I"
     = Ascii.eqb c "i" || Ascii.eqb c "I"
  /\ Ascii.eqb (to_lower c) "n" || Ascii.eqb (to_lower c) "N"
     = Ascii.eqb c "n" || Ascii.eqb c "N".
Proof.
  destruct c as [[] [] [] [] [] [] [] []];
    conjuncts; try reflexivity; intros H; discriminate H.
Qed.

Lemma len_lower_case (s : string) : len (lower_case s) = len s.
Proof.
  induction s as [|c r IH]; [ reflexivity | ].
  cbn [lower_case]. rewrite !len_String, IH. reflexivity.
Qed.

Lemma take_lower_case (n : nat) :
  forall s : string, take n (lower_case s) = lower_case (take n s).
Proof.
  induction n as [|n IH]; intros [|c r]; try reflexivity.
  cbn [lower_case take]. rewrite IH. reflexivity.
Qed.

Lemma commonPrefix_lower_case (s : string) :
  forall p : string,
    commonPrefixLenIgnoreCase (lower_case s) p = commonPrefixLenIgnoreCase s p.
Proof.
  induction s as [|c r IH]; intros [|a p]; try reflexivity.
  cbn [lower_case commonPrefixLenIgnoreCase]. cbv zeta.
  destruct (to_lower_scan c) as (_ & _ & _ & _ & _ & _ & _ & _ & F & _).
  rewrite F, IH. reflexivity.
Qed.

Lemma special_lower_case (s : string) : special (lower_case s) = special s.
Proof.
  destruct s as [|c r]; [ reflexivity | ].
  unfold special.
  change (lower_case (String c r)) with (String (to_lower c) (lower_case r)).
  cbv beta iota zeta.
  change (String (to_lower c) (lower_case r)) with (lower_case (String c r)).
  destruct (to_lower_scan c)
    as (_ & _ & Fp & Fm & _ & _ & _ & _ & _ & Fi & Fn).
  rewrite Fp, Fm, Fi, Fn, !commonPrefix_lower_case. reflexivity.
Qed.

Lemma underscoreOK_loop_lower_case (s : string) :
  forall (saw : ascii) (hex : bool),
    underscoreOK_loop (lower_case s) saw hex = underscoreOK_loop s saw hex.
Proof.
  induction s as [|c r IH]; intros saw hex; [ reflexivity | ].
  cbn [lower_case underscoreOK_loop].
  destruct (to_lower_scan c) as (Fu & _ & _ & _ & _ & Fd & Fl & _).
  rewrite Fu, Fd, Fl, !IH. reflexivity.
Qed.

Lemma underscoreOK_lower_case (s : string) :
  underscoreOK (lower_case s) = underscoreOK s.
Proof.
  assert (B : forall t : string,
            match lower_case t with
            | String c0 (String c1 r) =>
                if Ascii.eqb c0 "0"
                   && ((lower c1 =? 98) || (lower c1 =? 111)
                       || (lower c1 =? 120))
                then underscoreOK_loop r "0" (lower c1 =? 120)
                else underscoreOK_loop (lower_case t) "^" false
            | _ => underscoreOK_loop (lower_case t) "^" false
            end
            = match t with
              | String c0 (String c1 r) =>
                  if Ascii.eqb c0 "0"
                     && ((lower c1 =? 98) || (lower c1 =? 111)
                         || (lower c1 =? 120))
                  then underscoreOK_loop r "0" (lower c1 =? 120)
                  else underscoreOK_loop t "^" false
              | _ => underscoreOK_loop t "^" false
              end).
  { intros [|c0 [|c1 r]]; try reflexivity.
    - apply underscoreOK_loop_lower_case.
    - cbn [lower_case].
      destruct (to_lower_scan c0) as (_ & _ & _ & _ & F0 & _).
      destruct (to_lower_scan c1) as (_ & _ & _ & _ & _ & _ & Fl & _).
      rewrite F0, Fl, underscoreOK_loop_lower_case.
      change (String (to_lower c0) (String (to_lower c1) (lower_case r)))
        with (lower_case (String c0 (String c1 r))).
      rewrite underscoreOK_loop_lower_case. reflexivity. }
  unfold underscoreOK. destruct s as [|c r]; [ reflexivity | ].
  change (lower_case (String c r)) with (String (to_lower c) (lower_case r)).
  cbv beta iota zeta.
  destruct (to_lower_scan c) as (_ & _ & Fp & Fm & _).
  rewrite Fp, Fm.
  destruct (Ascii.eqb c "-" || Ascii.eqb c "+").
  - apply B.
  - apply (B (String c r)).
Qed.

Lemma readFloat_mant_lower_case (s : string) :
  forall (base : Z) (st : mant),
    readFloat_mant (lower_case s) base st
    = (fst (readFloat_mant s base st),
       lower_case (snd (readFloat_mant s base st))).
Proof.
  induction s as [|c r IH]; intros base st; [ reflexivity | ].
  cbn [lower_case readFloat_mant].
  destruct (to_lower_scan c) as (Fu & Fdot & _ & _ & F0 & Fd & Fl & Fi & _).
  rewrite Fu, Fdot, F0, Fd, Fl.
  destruct (Ascii.eqb c "_"); [ apply IH | ].
  destruct (Ascii.eqb c ".").
  { destruct (sawdot st); [ reflexivity | apply IH ]. }
  destruct (isdigit c).
  { rewrite (Fi eq_refl).
    destruct (Ascii.eqb c "0" && (nd st =? 0)); apply IH. }
  destruct ((base =? 16) && (97 <=? lower c) && (lower c <=? 102));
    [ apply IH | reflexivity ].
Qed.

Lemma readFloat_exp_lower_case (s : string) :
  forall (e : Z) (us : bool),
    readFloat_exp (lower_case s) e us
    = (fst (readFloat_exp s e us),
       lower_case (snd (readFloat_exp s e us))).
Proof.
  induction s as [|c r IH]; intros e us; [ reflexivity | ].
  cbn [lower_case readFloat_exp].
  destruct (to_lower_scan c) as (Fu & _ & _ & _ & _ & Fd & _ & Fi & _).
  rewrite Fu, Fd.
  destruct (Ascii.eqb c "_"); [ apply IH | ].
  destruct (isdigit c); [ rewrite (Fi eq_refl); apply IH | reflexivity ].
Qed.

Lemma readFloat_number_lower_case (s : string) (neg : bool)
    (base expChar : Z) (hex : bool) (s2 : string) :
  readFloat_number (lower_case s) neg base expChar hex (lower_case s2)
  = readFloat_number s neg base expChar hex s2.
Proof.
  unfold readFloat_number. rewrite readFloat_mant_lower_case.
  destruct (readFloat_mant s2 base _) as [st s3]. cbn [fst snd].
  destruct (negb (sawdigits st)); [ reflexivity | ].
  destruct (if base =? 16 then _ else _) as [dp0 ndMant].
  assert (Fin : forall (dp1 : Z) (us : bool) (rest : string),
            (let i := len (lower_case s) - len (lower_case rest) in
             let exp := if mantissa st =? 0 then 0 else dp1 - ndMant in
             if us && negb (underscoreOK (take (Z.to_nat i) (lower_case s)))
             then None
             else Some (mkNumber (mantissa st) exp neg hex i))
            = (let i := len s - len rest in
               let exp := if mantissa st =? 0 then 0 else dp1 - ndMant in
               if us && negb (underscoreOK (take (Z.to_nat i) s))
               then None
               else Some (mkNumber (mantissa st) exp neg hex i))).
  { intros dp1 us rest. cbv zeta.
    rewrite !len_lower_case, take_lower_case, underscoreOK_lower_case.
    reflexivity. }
  assert (Exp : forall (r0 : string) (esign : Z),
            match
              match lower_case r0 with
              | EmptyString => None
              | String d _ =>
                  if negb (isdigit d) then None
                  else
                    let '(e, us, rest) :=
                      readFloat_exp (lower_case r0) 0 (underscores st) in
                    Some (dp0 + e * esign, us, rest)
              end
            with
            | None => None
            | Some (dp1, us, rest) =>
                let i := len (lower_case s) - len rest in
                let exp := if mantissa st =? 0 then 0 else dp1 - ndMant in
                if us && negb (underscoreOK (take (Z.to_nat i) (lower_case s)))
                then None
                else Some (mkNumber (mantissa st) exp neg hex i)
            end
            = match
                match r0 with
                | EmptyString => None
                | String d _ =>
                    if negb (isdigit d) then None
                    else
                      let '(e, us, rest) :=
                        readFloat_exp r0 0 (underscores st) in
                      Some (dp0 + e * esign, us, rest)
                end
              with
              | None => None
              | Some (dp1, us, rest) =>
                  let i := len s - len rest in
                  let exp := if mantissa st =? 0 then 0 else dp1 - ndMant in
                  if us && negb (underscoreOK (take (Z.to_nat i) s))
                  then None
                  else Some (mkNumber (mantissa st) exp neg hex i)
              end).
  { intros r0 esign. rewrite readFloat_exp_lower_case.
    destruct r0 as [|d r1]; [ reflexivity | ].
    cbn [lower_case].
    destruct (to_lower_scan d) as (_ & _ & _ & _ & _ & Fd & _).
    rewrite Fd. destruct (negb (isdigit d)); [ reflexivity | ].
    destruct (readFloat_exp (String d r1) 0 _) as [[e1 us1] rest1].
    cbn [fst snd]. apply Fin. }
  destruct s3 as [|c r].
  - cbn [lower_case]. destruct (base =? 16); [ reflexivity | ].
    apply (Fin _ _ "").
  - cbn [lower_case].
    destruct (to_lower_scan c) as (_ & _ & _ & _ & _ & _ & Fl & _).
    rewrite Fl. destruct (lower c =? expChar).
    + destruct r as [|d r']; [ reflexivity | ].
      cbn [lower_case].
      destruct (to_lower_scan d) as (_ & _ & Fp & Fm & _).
      rewrite Fp, Fm.
      destruct (Ascii.eqb d "+"); [ apply Exp | ].
      destruct (Ascii.eqb d "-"); [ apply Exp | ].
      apply (Exp (String d r')).
    + destruct (base =? 16); [ reflexivity | ].
      apply (Fin _ _ (String c r)).
Qed.

Lemma readFloat_lower_case (s : string) :
  readFloat (lower_case s) = readFloat s.
Proof.
  destruct s as [|c0 r0]; [ reflexivity | ].
  assert (G : forall (neg : bool) (s1 : string),
            match lower_case s1 with
            | String a (String b (String c r)) =>
                if Ascii.eqb a "0" && (lower b =? 120)
                then readFloat_number (lower_case (String c0 r0)) neg
                       16 112 true (String c r)
                else readFloat_number (lower_case (String c0 r0)) neg
                       10 101 false (lower_case s1)
            | _ => readFloat_number (lower_case (String c0 r0)) neg
                     10 101 false (lower_case s1)
            end
            = match s1 with
              | String a (String b (String c r)) =>
                  if Ascii.eqb a "0" && (lower b =? 120)
                  then readFloat_number (String c0 r0) neg 16 112 true
                         (String c r)
                  else readFloat_number (String c0 r0) neg 10 101 false s1
              | _ => readFloat_number (String c0 r0) neg 10 101 false s1
              end).
  { intros neg s1.
    destruct s1 as [|a [|b [|c r]]];
      try apply readFloat_number_lower_case.
    cbn [lower_case].
    destruct (to_lower_scan a) as (_ & _ & _ & _ & F0 & _).
    destruct (to_lower_scan b) as (_ & _ & _ & _ & _ & _ & Fl & _).
    rewrite F0, Fl.
    destruct (Ascii.eqb a "0" && (lower b =? 120)).
    - apply (readFloat_number_lower_case (String c0 r0) neg 16 112 true
               (String c r)).
    - apply (readFloat_number_lower_case (String c0 r0) neg 10 101 false
               (String a (String b (String c r)))). }
  unfold readFloat.
  change (lower_case (String c0 r0))
    with (String (to_lower c0) (lower_case r0)).
  cbv beta iota.
  change (String (to_lower c0) (lower_case r0))
    with (lower_case (String c0 r0)).
  destruct (to_lower_scan c0) as (_ & _ & Fp & Fm & _).
  rewrite Fp, Fm.
  destruct (Ascii.eqb c0 "+"); [ apply G | ].
  destruct (Ascii.eqb c0 "-"); [ apply G | ].
  apply (G false (String c0 r0)).
Qed.

(** [ParseFloat] reads a literal and the literal in lower case alike: the
    same value, and the same reason of a failure. *)
Lemma ParseFloat_lower_case (s : string) (bitSize : Z) :
  fst (ParseFloat (lower_case s) bitSize) = fst (ParseFloat s bitSize)
  /\ option_map Why (snd (ParseFloat (lower_case s) bitSize))
     = option_map Why (snd (ParseFloat s bitSize)).
Proof.
  unfold ParseFloat, parseFloatPrefix.
  rewrite special_lower_case, readFloat_lower_case, len_lower_case.
  destruct (special s) as [[f n] | ].
  - destruct (negb (n =? len s)); split; reflexivity.
  - destruct (readFloat s) as [n | ]; [ | split; reflexivity ].
    destruct (convert _ n) as [f ovf].
    destruct ovf; destruct (negb (num_len n =? len s)); split; reflexivity.
Qed.

Lemma NewFloat_lower_case (typ : types.Ty) (s : string) :
  (forall v : Float,
     NewFloat typ s = Return v <-> NewFloat typ (lower_case s) = Return v)
  /\ failure (NewFloat typ s) = failure (NewFloat typ (lower_case s))
  /\ panics (NewFloat typ s) = panics (NewFloat typ (lower_case s)).
Proof.
  assert (Same : forall r : result Float,
            (forall v : Float, r = Return v <-> r = Return v)
            /\ failure r = failure r /\ panics r = panics r).
  { intros r. split; [ intros v; reflexivity | split; reflexivity ]. }
  assert (Fails : forall e e' : error,
            kind e = kind e' ->
            (forall v : Float,
               @Fail error panic Float e = Return v
               <-> @Fail error panic Float e' = Return v)
            /\ failure (@Fail error panic Float e)
               = failure (@Fail error panic Float e')
            /\ panics (@Fail error panic Float e)
               = panics (@Fail error panic Float e')).
  { intros e e' K.
    split; [ intros v; split; intros H; discriminate H | ].
    split; [ cbn [failure]; rewrite K; reflexivity | reflexivity ]. }
  unfold NewFloat. destruct typ as [ | t | | ]; try apply Same.
  cbv zeta.
  destruct ((types.Float_Size t =? 32) || (types.Float_Size t =? 64));
    [ | apply Same ].
  destruct (ParseFloat_lower_case s (types.Float_Size t)) as [Ex Ee].
  destruct (ParseFloat s (types.Float_Size t)) as [x o].
  destruct (ParseFloat (lower_case s) (types.Float_Size t)) as [x' o'].
  cbn [fst snd] in Ex, Ee. subst x'.
  destruct o as [e | ], o' as [e' | ]; try discriminate Ee.
  - apply Fails. cbn [kind option_map] in *. injection Ee as ->.
    reflexivity.
  - destruct (negb (types.Float_Size t =? 64)); [ | apply Same ].
    destruct (call (FormatFloat_g x (types.Float_Size t))) as [a | e | p];
      [ | apply Same | apply Same ].
    cbn [bind].
    destruct (call (FormatFloat_g x 64)) as [b | e | p];
      [ | apply Same | apply Same ].
    cbn [bind].
    destruct (negb (a =? b)%string); [ apply Fails; reflexivity | apply Same ].
Qed.

(** X14: the case of the letters of a floating point literal does not
    matter.  For two literals that differ by the case of letters only,
    [NewFloat] returns the same constant for both, or fails with the same
    kind of error for both, or panics for both: [1E5] is [1e5], [INF] is
    [inf], [0X1P3] is [0x1p3]. *)
Theorem X14_float_case (typ : types.Ty) (s1 s2 : string)
    (H : lower_case s1 = lower_case s2) :
  (forall v : Float,
     NewFloat typ s1 = Return v <-> NewFloat typ s2 = Return v)
  /\ failure (NewFloat typ s1) = failure (NewFloat typ s2)
  /\ panics (NewFloat typ s1) = panics (NewFloat typ s2).
Proof.
  destruct (NewFloat_lower_case typ s1) as (R1 & F1 & P1).
  destruct (NewFloat_lower_case typ s2) as (R2 & F2 & P2).
  rewrite H in R1, F1, P1.
  split; [ | split ].
  - intros v. rewrite R1, R2. reflexivity.
  - rewrite F1, F2. reflexivity.
  - rewrite P1, P2. reflexivity.
Qed.

Lemma X14_float_case_witness :
  (forall v : Float,
     NewFloat double "1E5" = Return v <-> NewFloat double "1e5" = Return v)
  /\ failure (NewFloat double "1E5") = failure (NewFloat double "1e5")
  /\ panics (NewFloat double "1E5") = panics (NewFloat double "1e5").
Proof.
  apply (X14_float_case double "1E5" "1e5"). reflexivity.
Defined.
